(** * Word_DataMasking (goscrub): a shallow embedding of [main.go]

    The development follows the layout of the Go source:
    string helpers of the Go standard library that the program calls,
    the extension classifier, the file-system world and its system calls,
    [copyFile] and [replaceOriginal], the zip rewriter, the image scrubber,
    discovery and [main], and the worker pool. *)

From Stdlib Require Import ZArith Lia Ascii.
From Stdlib.Strings Require Import Byte.
From stdpp Require Import base gmap strings list pretty.

Local Open Scope Z_scope.
Local Set Warnings "-register-all".

(* ===================================================================== *)
(** * Go strings: the [strings] and [path/filepath] functions used        *)
(* ===================================================================== *)

(** Go strings are byte strings; [string] is a list of 8-bit characters. *)

Definition isUpper (c : ascii) : bool :=
  (65 <=? Z.of_N (Ascii.N_of_ascii c)) && (Z.of_N (Ascii.N_of_ascii c) <=? 90).

(** ['A'..'Z'] are moved to ['a'..'z']; every other byte is kept.  Go's
    [strings.ToLower] does this on ASCII input; on other input it also lowers
    non-ASCII letters, none of which becomes a byte of the ASCII patterns that
    the program compares against. *)
Definition toLowerByte (c : ascii) : ascii :=
  if isUpper c then Ascii.ascii_of_N (Ascii.N_of_ascii c + 32) else c.

Fixpoint strings_ToLower (s : string) : string :=
  match s with
  | EmptyString => EmptyString
  | String c s' => String (toLowerByte c) (strings_ToLower s')
  end.

Fixpoint strings_HasPrefix (s prefix : string) {struct prefix} : bool :=
  match prefix, s with
  | EmptyString, _ => true
  | String c p', String d s' => bool_decide (c = d) && strings_HasPrefix s' p'
  | String _ _, EmptyString => false
  end.

Fixpoint string_drop (n : nat) (s : string) : string :=
  match n, s with
  | O, _ => s
  | S n', String _ s' => string_drop n' s'
  | S _, EmptyString => EmptyString
  end.

Definition strings_TrimPrefix (s prefix : string) : string :=
  if strings_HasPrefix s prefix then string_drop (String.length prefix) s else s.

(** [strings.TrimSpace] on the ASCII white space characters. *)
Fixpoint trimLeft (s : string) : string :=
  match s with
  | String c s' => if Ascii.is_space c then trimLeft s' else s
  | EmptyString => EmptyString
  end.

Definition strings_TrimSpace (s : string) : string :=
  String.rev (trimLeft (String.rev (trimLeft s))).

(** [strings.Split s sep] for a one-byte separator: the fields between the
    separators, empty fields included. *)
Fixpoint split_go (sep : ascii) (cur : string) (s : string) : list string :=
  match s with
  | EmptyString => [String.rev cur]
  | String c s' =>
      if bool_decide (c = sep) then String.rev cur :: split_go sep EmptyString s'
      else split_go sep (String c cur) s'
  end.

Definition strings_Split (s : string) (sep : ascii) : list string :=
  split_go sep EmptyString s.

(** [filepath.Ext]: the suffix that starts at the last dot of the last path
    element, empty when that element has no dot.  The scan runs from the end
    of the path and stops at a path separator. *)
Section Ext.
Variable IsPathSeparator : ascii -> bool.

(** [ext_go cand s] scans [s] front to back and keeps the candidate found so
    far: a separator clears it, a dot starts a new one.  The result is the
    suffix Go finds scanning backwards. *)
Fixpoint ext_go (cand : option string) (s : string) : option string :=
  match s with
  | EmptyString => cand
  | String c s' =>
      if IsPathSeparator c then ext_go None s'
      else if bool_decide (c = "."%char) then ext_go (Some s) s'
      else ext_go cand s'
  end.

Definition filepath_Ext (path : string) : string :=
  default EmptyString (ext_go None path).
End Ext.

(* ===================================================================== *)
(** * Extension tables and the small helpers (main.go 27-41, 376-415)     *)
(* ===================================================================== *)

(** A Go [map[string]bool]; indexing a missing key yields [false]. *)
Definition index (m : gmap string bool) (k : string) : bool :=
  default false (m !! k).

Definition openXMLSet : gmap string bool :=
  list_to_map [(".docx", true); (".xlsx", true); (".pptx", true)].

Definition openDocSet : gmap string bool :=
  list_to_map [(".odt", true); (".ods", true); (".odp", true)].

Definition imageSet : gmap string bool :=
  list_to_map [(".jpg", true); (".jpeg", true); (".png", true)].

Definition isSupportedExt (ext : string) : bool :=
  if index openXMLSet ext || index openDocSet ext || index imageSet ext then true
  else if bool_decide (ext = ".pdf") then true
  else false.

Definition trimDot (ext : string) : string := strings_TrimPrefix ext ".".

Definition toSet (csv : string) : gmap string bool :=
  if bool_decide (strings_TrimSpace csv = "") then ∅
  else
    foldl (fun res v =>
             let v := strings_TrimSpace (strings_ToLower v) in
             let v := trimDot v in
             if bool_decide (v <> "") then <[v := true]> res else res)
          ∅ (strings_Split csv ","%char).

Definition max (a b : Z) : Z := if a >? b then a else b.

(** The default of [--workers] (line 60), given [runtime.NumCPU()]. *)
Definition defaultWorkers (numCPU : Z) : Z := max 2 numCPU.

(** The two scrub predicates (main.go 189-196 and 201-207): [true] keeps the
    entry. *)
Definition keepOpenXML (name : string) : bool :=
  let lower := strings_ToLower name in
  if strings_HasPrefix lower "docprops/" then false else true.

Definition keepOpenDocument (name : string) : bool :=
  let lower := strings_ToLower name in
  if bool_decide (lower = "meta.xml") then false else true.

(* ===================================================================== *)
(** * Errors, the file-system world and its system calls                  *)
(* ===================================================================== *)

(** Go [error] values.  [None : option error] is Go's [nil]. *)
Inductive error :=
| SysError (op : string) (path : string)   (* a failed call of package os or io *)
| ErrAlgorithm                             (* zip.ErrAlgorithm *)
| ErrCorrupt                               (* a stream that does not decode *)
| ErrEncode                                (* an image the encoder refuses *)
| SkipDir                                  (* fs.SkipDir *)
| ErrorsNew (msg : string)                 (* errors.New, fmt.Errorf without %w *)
| Wrap (msg : string) (err : error).       (* fmt.Errorf("msg: %w", err) *)

Inductive result (A : Type) :=
| Ok (a : A)
| Err (err : error).
Arguments Ok {A} a.
Arguments Err {A} err.

(** A directory listing as [os.ReadDir] reports it: entries in file-name
    order, each a regular file or a directory with its own listing. *)
Inductive DirTree :=
| DFile (name : string)
| DDir (name : string) (entries : list DirTree).

Inductive Node :=
| File (data : list byte)
| Dir (entries : list DirTree).

(** The calls that change the file system, and the sleep, are recorded. *)
Inductive Event :=
| EvCreate (name : string) (ok : bool)
| EvWrite (name : string) (ok : bool)
| EvRename (oldpath newpath : string) (ok : bool)
| EvRemove (name : string) (ok : bool)
| EvSleep (ms : Z).

(** Lines of the standard logger. *)
Inductive LogLine :=
| LogFail (f : string) (err : error)    (* "[FAIL] %s: %v" *)
| LogOk (f : string)                    (* "[OK] %s" *)
| LogFatal (err : error).               (* log.Fatalf, then os.Exit(1) *)

(** The world a run acts on.
    - [fs]: path to node.  The listing inside a [Dir] node is what a walk
      reads; the file calls below do not maintain it, and the program walks
      before it writes.
    - [now]: [time.Now().Unix()].
    - [faults]: the outcome of the coming fallible calls, in call order.
      [None] lets the call run; [Some k] makes it fail, a streaming call after
      [k] bytes.  Past the end of the list no call is made to fail.
    - [trace]: the recorded events, most recent first.
    - [stdout], [stderr]: printed lines, most recent first. *)
Record World := mkWorld {
  fs : gmap string Node;
  now : Z;
  faults : list (option nat);
  trace : list Event;
  stdout : list string;
  stderr : list LogLine;
}.

Definition set_fs (m : gmap string Node) (w : World) : World :=
  mkWorld m (now w) (faults w) (trace w) (stdout w) (stderr w).
Definition set_faults (l : list (option nat)) (w : World) : World :=
  mkWorld (fs w) (now w) l (trace w) (stdout w) (stderr w).
Definition set_trace (t : list Event) (w : World) : World :=
  mkWorld (fs w) (now w) (faults w) t (stdout w) (stderr w).
Definition set_stdout (l : list string) (w : World) : World :=
  mkWorld (fs w) (now w) (faults w) (trace w) l (stderr w).
Definition set_stderr (l : list LogLine) (w : World) : World :=
  mkWorld (fs w) (now w) (faults w) (trace w) (stdout w) l.

(** The state monad over the world. *)
Definition M (A : Type) : Type := World -> A * World.

Definition ret {A} (a : A) : M A := fun w => (a, w).

Definition bind {A B} (c : M A) (k : A -> M B) : M B :=
  fun w => let (a, w') := c w in k a w'.

Declare Scope go_scope.
Delimit Scope go_scope with go.
Notation "x <- c1 ;; c2" := (bind c1 (fun x => c2))
  (at level 100, c1 at next level, right associativity) : go_scope.
Notation "c1 ;;; c2" := (bind c1 (fun _ => c2))
  (at level 100, right associativity) : go_scope.
Local Open Scope go_scope.

Definition next_fault : M (option nat) :=
  fun w => match faults w with
           | [] => (None, w)
           | f :: rest => (f, set_faults rest w)
           end.

Definition emit (e : Event) : M unit :=
  fun w => (tt, set_trace (e :: trace w) w).

Definition fmt_Println (line : string) : M unit :=
  fun w => (tt, set_stdout (line :: stdout w) w).

Definition log_Print (l : LogLine) : M unit :=
  fun w => (tt, set_stderr (l :: stderr w) w).

Definition isDir (n : Node) : bool :=
  match n with Dir _ => true | File _ => false end.

(** [os.Stat]: the result is whether the path is a directory. *)
Definition os_Stat (name : string) : M (result bool) :=
  f <- next_fault ;;
  fun w => match f, fs w !! name with
           | None, Some n => (Ok (isDir n), w)
           | _, _ => (Err (SysError "stat" name), w)
           end.

(** [os.Open]: the handle is the path; its bytes are read when it is copied
    or decoded, and no call of the program renames a file between opening
    and reading it. *)
Definition os_Open (name : string) : M (result string) :=
  f <- next_fault ;;
  fun w => match f, fs w !! name with
           | None, Some _ => (Ok name, w)
           | _, _ => (Err (SysError "open" name), w)
           end.

Definition os_ReadFile (name : string) : M (result (list byte)) :=
  f <- next_fault ;;
  fun w => match f, fs w !! name with
           | None, Some (File data) => (Ok data, w)
           | _, _ => (Err (SysError "read" name), w)
           end.

(** [os.Create] truncates an existing file. *)
Definition os_Create (name : string) : M (result string) :=
  f <- next_fault ;;
  fun w => match f, fs w !! name with
           | Some _, _ | None, Some (Dir _) =>
               (Err (SysError "open" name), set_trace (EvCreate name false :: trace w) w)
           | None, _ =>
               (Ok name, set_trace (EvCreate name true :: trace w) (set_fs (<[name := File []]> (fs w)) w))
           end.

(** Bytes written through an open handle are appended to the file. *)
Definition append_file (name : string) (data : list byte) (m : gmap string Node) : gmap string Node :=
  match m !! name with
  | Some (File old) => <[name := File (old ++ data)]> m
  | _ => m
  end.

Definition write (name : string) (data : list byte) : M (option error) :=
  f <- next_fault ;;
  fun w => match f with
           | None =>
               (None, set_trace (EvWrite name true :: trace w) (set_fs (append_file name data (fs w)) w))
           | Some k =>
               (Some (SysError "write" name),
                set_trace (EvWrite name false :: trace w) (set_fs (append_file name (take k data) (fs w)) w))
           end.

(** [io.Copy dst src] between two files. *)
Definition io_Copy (dst src : string) : M (option error) :=
  fun w => match fs w !! src with
           | Some (File data) => write dst data w
           | _ => (Some (SysError "read" src), w)
           end.

Definition rename_refused (old new : option Node) : bool :=
  match old, new with
  | None, _ => true
  | Some (File _), Some (Dir _) => true
  | Some (Dir _), Some (File _) => true
  | Some (Dir _), Some (Dir (_ :: _)) => true
  | _, _ => false
  end.

Definition os_Rename (oldpath newpath : string) : M (option error) :=
  f <- next_fault ;;
  fun w => match f, fs w !! oldpath with
           | None, Some n =>
               if rename_refused (Some n) (fs w !! newpath)
               then (Some (SysError "rename" oldpath), set_trace (EvRename oldpath newpath false :: trace w) w)
               else (None, set_trace (EvRename oldpath newpath true :: trace w)
                             (set_fs (<[newpath := n]> (delete oldpath (fs w))) w))
           | _, _ => (Some (SysError "rename" oldpath), set_trace (EvRename oldpath newpath false :: trace w) w)
           end.

Definition os_Remove (name : string) : M (option error) :=
  f <- next_fault ;;
  fun w => match f, fs w !! name with
           | None, Some (File _) | None, Some (Dir []) =>
               (None, set_trace (EvRemove name true :: trace w) (set_fs (delete name (fs w)) w))
           | _, _ => (Some (SysError "remove" name), set_trace (EvRemove name false :: trace w) w)
           end.

Definition time_Sleep (ms : Z) : M unit := emit (EvSleep ms).

Definition time_Now_Unix : M Z := fun w => (now w, w).

(** The command-line flags (main.go 44-64), fixed once [flag.Parse] has run. *)
Class Flags := {
  inputPath : string;
  backup : bool;
  dryRun : bool;
  workers : Z;
  withPDF : bool;
  includeExt : string;
  excludeExt : string;
  verbose : bool;
}.

(* ===================================================================== *)
(** * copyFile and replaceOriginal (main.go 330-373)                      *)
(* ===================================================================== *)

Definition copyFile (src dst : string) : M (option error) :=
  s <- os_Open src ;;
  match s with
  | Err err => ret (Some err)
  | Ok s =>
      d <- os_Create dst ;;
      match d with
      | Err err => ret (Some err)
      | Ok d => io_Copy d s
      end
  end.

(** Lines 332-335: the path the backup is written to. *)
Definition backupPath (orig : string) : M string :=
  let bak := orig +:+ ".bak" in
  st <- os_Stat bak ;;
  match st with
  | Ok _ => t <- time_Now_Unix ;; ret (orig +:+ "." +:+ pretty t +:+ ".bak")
  | Err _ => ret bak
  end.

(** Lines 342-357: the loop [for i := 0; i < 2; i++].  [fuel] bounds the
    number of iterations; the loop runs at most two. *)
Fixpoint replaceLoop (fuel : nat) (i : Z) (orig tmp : string) : M (option error) :=
  match fuel with
  | O => ret None
  | S fuel' =>
      if i <? 2 then
        r <- os_Rename tmp orig ;;
        match r with
        | Some _ =>
            if i =? 0 then
              time_Sleep 300 ;;; replaceLoop fuel' (i + 1) orig tmp
            else
              c <- copyFile tmp orig ;;
              match c with
              | Some err => ret (Some (Wrap "替换原文件失败（可能被占用）" err))
              | None => os_Remove tmp ;;; ret None
              end
        | None => ret None
        end
      else ret None
  end.

Section Replace.
Context {flags : Flags}.

Definition replaceOriginal (orig tmp : string) : M (option error) :=
  b <- (if backup then
          bak <- backupPath orig ;;
          c <- copyFile orig bak ;;
          match c with
          | Some err => ret (Some (Wrap "创建备份失败" err))
          | None => ret None
          end
        else ret None) ;;
  match b with
  | Some err => ret (Some err)
  | None => replaceLoop 2 0 orig tmp
  end.

End Replace.

(* ===================================================================== *)
(** * The libraries the program calls                                     *)
(* ===================================================================== *)

(** [zip.FileHeader]: the fields the program reads and sets.  [Mode] is the
    [fs.FileMode] that [Mode()] returns and [SetMode] stores. *)
Record FileHeader := mkHeader {
  Name : string;
  Method : Z;
  Mode : Z;
  Modified : Z;
}.

(** [zip.File]: a header and the entry's stored (compressed) bytes. *)
Record zipFile := mkFile {
  header :> FileHeader;
  payload : list byte;
}.

Record Image := mkImage {
  width : Z;
  height : Z;
  pix : list byte;
}.

(** What the program needs of its platform and of archive/zip,
    compress/flate, image, image/jpeg and image/png. *)
Class Libs := {
  IsPathSeparator : ascii -> bool;                        (* os.IsPathSeparator *)
  filepath_Join : string -> string -> string;             (* filepath.Join *)
  zip_NewReader : list byte -> option (list zipFile);     (* the File list; None: not a zip *)
  zip_bytes : list zipFile -> list byte;                  (* the output of a closed zip.Writer *)
  inflate : list byte -> option (list byte);              (* flate reader; None: corrupt *)
  deflate : list byte -> list byte;                       (* flate writer *)
  image_Decode : list byte -> option Image;               (* None: unknown format *)
  jpeg_Encode : Image -> Z -> option (list byte);         (* None: the encoder refuses *)
  png_Encode : Image -> option (list byte);
}.

Definition Store : Z := 0.
Definition Deflate : Z := 8.

Section Program.
Context {flags : Flags} {libs : Libs}.

(** archive/zip registers a (de)compressor for Store and for Deflate only. *)
Definition decompressor (method : Z) : option (list byte -> option (list byte)) :=
  if method =? Store then Some (fun b => Some b)
  else if method =? Deflate then Some inflate
  else None.

Definition compressor (method : Z) : option (list byte -> list byte) :=
  if method =? Store then Some (fun b => b)
  else if method =? Deflate then Some deflate
  else None.

(** [zf.Open()]: a reader of the decompressed content. *)
Definition zf_Open (zf : zipFile) : M (result (option (list byte))) :=
  f <- next_fault ;;
  match f, decompressor (Method zf) with
  | Some _, _ => ret (Err ErrCorrupt)
  | None, None => ret (Err ErrAlgorithm)
  | None, Some dcomp => ret (Ok (dcomp (payload zf)))
  end.

(** [zw.CreateHeader(h)]: a writer that compresses under [h.Method]. *)
Definition zw_CreateHeader (h : FileHeader) : M (result (list byte -> list byte)) :=
  f <- next_fault ;;
  match f, compressor (Method h) with
  | Some _, _ => ret (Err (SysError "write" (Name h)))
  | None, None => ret (Err ErrAlgorithm)
  | None, Some comp => ret (Ok comp)
  end.

(** [io.Copy(w, r)] from an entry reader into an entry writer: the entry the
    archive writer then holds, or the error. *)
Definition copyEntry (h : FileHeader) (comp : list byte -> list byte)
    (r : option (list byte)) : M (result zipFile) :=
  f <- next_fault ;;
  match f, r with
  | Some _, _ => ret (Err (SysError "write" (Name h)))
  | None, None => ret (Err ErrCorrupt)
  | None, Some content => ret (Ok (mkFile h (comp content)))
  end.

(** The abort sequence [zw.Close(); f.Close(); os.Remove(tmp)], all three
    with their errors dropped: the writer flushes what it holds, then the
    staging file is removed. *)
Definition discardStaged (tmp : string) (zw : list zipFile) : M unit :=
  write tmp (zip_bytes zw) ;;; os_Remove tmp ;;; ret tt.

(** Lines 281-314: the loop over [zr.File]; [zw] is what the writer holds. *)
Fixpoint copyEntries (keep : string -> bool) (tmp : string)
    (files : list zipFile) (zw : list zipFile) : M (result (list zipFile)) :=
  match files with
  | [] => ret (Ok zw)
  | zf :: rest =>
      if negb (keep (Name zf)) then copyEntries keep tmp rest zw
      else
        r <- zf_Open zf ;;
        match r with
        | Err err =>
            discardStaged tmp zw ;;; ret (Err (Wrap ("读取条目失败 " +:+ Name zf) err))
        | Ok r =>
            let h := mkHeader (Name zf) (Method zf) (Mode zf) (Modified zf) in
            w <- zw_CreateHeader h ;;
            match w with
            | Err err => discardStaged tmp zw ;;; ret (Err err)
            | Ok w =>
                c <- copyEntry h w r ;;
                match c with
                | Err err => discardStaged tmp zw ;;; ret (Err err)
                | Ok e => copyEntries keep tmp rest (zw ++ [e])
                end
            end
        end
  end.

(** [f.Close()]. *)
Definition file_Close (name : string) : M (option error) :=
  f <- next_fault ;;
  match f with
  | Some _ => ret (Some (SysError "close" name))
  | None => ret None
  end.

(** Lines 263-324 of [rewriteZip]: everything before the hand-over to
    [replaceOriginal].  The result is the staging path.  The writer is
    buffered; the model lets its bytes reach the file when it is closed. *)
Definition stageZip (path : string) (keep : string -> bool) : M (result string) :=
  d <- os_ReadFile path ;;
  match d with
  | Err err => ret (Err err)
  | Ok data =>
      match zip_NewReader data with
      | None => ret (Err (Wrap "打开 zip 失败" ErrCorrupt))
      | Some zr =>
          let tmp := path +:+ ".tmp" in
          f <- os_Create tmp ;;
          match f with
          | Err err => ret (Err err)
          | Ok f =>
              r <- copyEntries keep tmp zr [] ;;
              match r with
              | Err err => ret (Err err)
              | Ok zw =>
                  c <- write f (zip_bytes zw) ;;
                  match c with
                  | Some err => os_Remove tmp ;;; ret (Err err)
                  | None =>
                      c <- file_Close f ;;
                      match c with
                      | Some err => os_Remove tmp ;;; ret (Err err)
                      | None => ret (Ok tmp)
                      end
                  end
              end
          end
      end
  end.

Definition rewriteZip (path : string) (keep : string -> bool) : M (option error) :=
  r <- stageZip path keep ;;
  match r with
  | Err err => ret (Some err)
  | Ok tmp => replaceOriginal path tmp
  end.

Definition scrubOpenXML (path : string) : M (option error) :=
  rewriteZip path keepOpenXML.

Definition scrubOpenDocument (path : string) : M (option error) :=
  rewriteZip path keepOpenDocument.

(** [image.Decode(bufio.NewReader(in))]. *)
Definition decodeFrom (name : string) : M (result Image) :=
  f <- next_fault ;;
  fun w => match f, fs w !! name with
           | None, Some (File data) =>
               match image_Decode data with
               | Some img => (Ok img, w)
               | None => (Err ErrCorrupt, w)
               end
           | _, _ => (Err (SysError "read" name), w)
           end.

(** An encoder writing to [out]. *)
Definition encodeTo (out : string) (encoded : option (list byte)) : M (option error) :=
  match encoded with
  | None => ret (Some ErrEncode)
  | Some data => write out data
  end.

(** Lines 212-245 of [scrubImage]: everything before the hand-over to
    [replaceOriginal]. *)
Definition stageImage (path ext : string) : M (result string) :=
  i <- os_Open path ;;
  match i with
  | Err err => ret (Err err)
  | Ok i =>
      d <- decodeFrom i ;;
      match d with
      | Err err => ret (Err (Wrap "图片解码失败" err))
      | Ok img =>
          let tmp := path +:+ ".tmp" in
          o <- os_Create tmp ;;
          match o with
          | Err err => ret (Err err)
          | Ok out =>
              if bool_decide (ext = ".jpg") || bool_decide (ext = ".jpeg") then
                e <- encodeTo out (jpeg_Encode img 95) ;;
                match e with
                | Some err => ret (Err err)
                | None => ret (Ok tmp)
                end
              else if bool_decide (ext = ".png") then
                e <- encodeTo out (png_Encode img) ;;
                match e with
                | Some err => ret (Err err)
                | None => ret (Ok tmp)
                end
              else ret (Err (ErrorsNew ("未知图片类型: " +:+ ext)))
          end
      end
  end.

Definition scrubImage (path ext : string) : M (option error) :=
  r <- stageImage path ext ;;
  match r with
  | Err err => ret (Some err)
  | Ok tmp => replaceOriginal path tmp
  end.

Definition scrubPDFWithPDFCPU (path : string) : M (option error) :=
  ret (Some (ErrorsNew "未编译 PDF 支持：请执行 `go get github.com/pdfcpu/pdfcpu@latest` 并使用 --with-pdf 重新运行；同时将 scrubPDFWithPDFCPU 实现替换为 pdfcpu 版本（见源码注释）")).

Definition scrubPDF (path : string) : M (option error) :=
  scrubPDFWithPDFCPU path.

Definition scrubFile (p : string) : M (option error) :=
  let ext := strings_ToLower (filepath_Ext IsPathSeparator p) in
  if index openXMLSet ext then scrubOpenXML p
  else if index openDocSet ext then scrubOpenDocument p
  else if index imageSet ext then scrubImage p ext
  else if bool_decide (ext = ".pdf") then
    if negb withPDF then ret (Some (ErrorsNew "检测到 PDF，请使用 --with-pdf 以启用 PDF 脱敏（需要 pdfcpu 依赖）"))
    else scrubPDF p
  else ret (Some (ErrorsNew ("不支持的扩展名: " +:+ ext))).

(* ===================================================================== *)
(** * Discovery (main.go 73-118)                                          *)
(* ===================================================================== *)

Definition isSkipDir (err : error) : bool :=
  match err with SkipDir => true | _ => false end.

Definition entryName (d : DirTree) : string :=
  match d with DFile n => n | DDir n _ => n end.

Definition entryIsDir (d : DirTree) : bool :=
  match d with DFile _ => false | DDir _ _ => true end.

(** [filepath.WalkDir]'s recursive helper [walkDir]; [fn path isDir err acc]
    is the callback, with the state its closure updates passed as [acc]. *)
Section Walk.
Context {A : Type}.
Variable fn : string -> bool -> option error -> A -> A * option error.

(** The loop [for _, d1 := range dirs] of [walkDir]; [rec] is [walkDir]. *)
Fixpoint walkEntries (rec : string -> DirTree -> A -> M (A * option error))
    (path : string) (dirs : list DirTree) (acc : A) : M (A * option error) :=
  match dirs with
  | [] => ret (acc, None)
  | d1 :: rest =>
      r <- rec (filepath_Join path (entryName d1)) d1 acc ;;
      match r with
      | (acc', Some e) =>
          if isSkipDir e then ret (acc', None) else ret (acc', Some e)
      | (acc', None) => walkEntries rec path rest acc'
      end
  end.

Fixpoint walkDir (path : string) (d : DirTree) (acc : A) {struct d} : M (A * option error) :=
  let (acc1, err) := fn path (entryIsDir d) None acc in
  match d with
  | DFile _ => ret (acc1, err)
  | DDir _ entries =>
      match err with
      | Some e => ret (acc1, if isSkipDir e then None else Some e)
      | None =>
          f <- next_fault ;;
          match f with
          | Some _ =>
              (* os.ReadDir failed: the second call of the callback reports it *)
              let (acc2, err2) := fn path true (Some (SysError "readdir" path)) acc1 in
              match err2 with
              | Some e => ret (acc2, if isSkipDir e then None else Some e)
              | None => ret (acc2, None)
              end
          | None => walkEntries walkDir path entries acc1
          end
      end
  end.

Definition filepath_WalkDir (root : string) (acc : A) : M (A * option error) :=
  f <- next_fault ;;
  r <- (fun w => match f, fs w !! root with
                 | None, Some (Dir entries) => walkDir root (DDir root entries) acc w
                 | None, Some (File _) => walkDir root (DFile root) acc w
                 | _, _ => (fn root false (Some (SysError "lstat" root)) acc, w)
                 end) ;;
  match r with
  | (acc', Some e) => if isSkipDir e then ret (acc', None) else ret (acc', Some e)
  | (acc', None) => ret (acc', None)
  end.

End Walk.

(** The callback of lines 84-102; [files] is the slice it appends to. *)
Definition visit (inc exc : gmap string bool) (p : string) (d_IsDir : bool)
    (err : option error) (files : list string) : list string * option error :=
  match err with
  | Some e => (files, Some e)
  | None =>
      if d_IsDir then (files, None)
      else
        let ext := strings_ToLower (filepath_Ext IsPathSeparator p) in
        if (0 <? size inc)%nat && negb (index inc (trimDot ext)) then (files, None)
        else if index exc (trimDot ext) then (files, None)
        else if isSupportedExt ext then (files ++ [p], None)
        else (files, None)
  end.

(** Lines 106-117: the input path is a file.  [Err] is a [log.Fatalf]. *)
Definition single (inc exc : gmap string bool) : result (list string) :=
  let ext := strings_ToLower (filepath_Ext IsPathSeparator inputPath) in
  if (0 <? size inc)%nat && negb (index inc (trimDot ext))
  then Err (ErrorsNew ("不在 include 列表: " +:+ inputPath))
  else if index exc (trimDot ext)
  then Err (ErrorsNew ("在 exclude 列表中: " +:+ inputPath))
  else if negb (isSupportedExt ext)
  then Err (ErrorsNew ("暂不支持的文件类型: " +:+ ext))
  else Ok [inputPath].

(** Lines 78-118: the candidate list, or the fatal error. *)
Definition collect (inc exc : gmap string bool) : M (result (list string)) :=
  st <- os_Stat inputPath ;;
  match st with
  | Err err => ret (Err (Wrap "路径无法访问" err))
  | Ok true =>
      r <- filepath_WalkDir (visit inc exc) inputPath [] ;;
      match r with
      | (_, Some err) => ret (Err (Wrap "遍历目录失败" err))
      | (files, None) => ret (Ok files)
      end
  | Ok false => ret (single inc exc)
  end.

(* ===================================================================== *)
(** * The worker pool (main.go 133-162)                                   *)
(* ===================================================================== *)

(** The two shared counters that [add] is given a pointer to. *)
Inductive Counter := OkCount | FailCount.

(** Where a worker goroutine stands.  [add] is the statement
    [*ptr += delta]: a read of [*ptr] and a write of the sum, with no lock
    and no atomic instruction around them. *)
Inductive Worker :=
| WRecv                                     (* at [for f := range jobs] *)
| WScrub (f : string)                       (* holds [f], before [scrubFile(f)] *)
| WAdd (ptr : Counter) (delta : Z)          (* in [add], before the read of [*ptr] *)
| WAddStore (ptr : Counter) (delta v : Z)   (* in [add], has read [v], before the write *)
| WDone.                                    (* left the loop; [wg.Done()] has run *)

(** Where the main goroutine stands. *)
Inductive MainPC :=
| MSend (rest : list string)   (* in [for _, f := range files], [rest] still to send *)
| MWait                        (* [close(jobs)] has run; in [wg.Wait()] *)
| MDone.                       (* [wg.Wait()] has returned *)

(** [scrubbed] is a history variable: the files whose [scrubFile] call has
    returned, each with whether it returned [nil], most recent first. *)
Record Pool := mkPool {
  pc : MainPC;
  jobs : list string;
  closed : bool;
  okCount : Z;
  failCount : Z;
  ws : list Worker;
  scrubbed : list (string * bool);
}.

Inductive Tid := TMain | TWorker (i : nat).

Definition wrap64 (z : Z) : Z := (z + 2 ^ 63) mod 2 ^ 64 - 2 ^ 63.

Definition load (ptr : Counter) (p : Pool) : Z :=
  match ptr with OkCount => okCount p | FailCount => failCount p end.

Definition store (ptr : Counter) (v : Z) (p : Pool) : Pool :=
  match ptr with
  | OkCount => mkPool (pc p) (jobs p) (closed p) v (failCount p) (ws p) (scrubbed p)
  | FailCount => mkPool (pc p) (jobs p) (closed p) (okCount p) v (ws p) (scrubbed p)
  end.

Definition set_worker (i : nat) (s : Worker) (p : Pool) : Pool :=
  mkPool (pc p) (jobs p) (closed p) (okCount p) (failCount p) (<[i := s]> (ws p)) (scrubbed p).

Definition set_jobs (l : list string) (p : Pool) : Pool :=
  mkPool (pc p) l (closed p) (okCount p) (failCount p) (ws p) (scrubbed p).

Definition set_pc (m : MainPC) (p : Pool) : Pool :=
  mkPool m (jobs p) (closed p) (okCount p) (failCount p) (ws p) (scrubbed p).

Definition close_jobs (p : Pool) : Pool :=
  mkPool (pc p) (jobs p) true (okCount p) (failCount p) (ws p) (scrubbed p).

Definition record (f : string) (ok : bool) (p : Pool) : Pool :=
  mkPool (pc p) (jobs p) (closed p) (okCount p) (failCount p) (ws p) ((f, ok) :: scrubbed p).

Definition allDone (l : list Worker) : bool :=
  forallb (fun s => match s with WDone => true | _ => false end) l.

(** One step of the main goroutine; a blocked goroutine stays where it is. *)
Definition stepMain (p : Pool) : Pool :=
  match pc p with
  | MSend (f :: rest) => set_pc (MSend rest) (set_jobs (jobs p ++ [f]) p)
  | MSend [] => set_pc MWait (close_jobs p)
  | MWait => if allDone (ws p) then set_pc MDone p else p
  | MDone => p
  end.

(** One step of worker [i] (lines 143-153). *)
Definition stepWorker (i : nat) (p : Pool) : M Pool :=
  match ws p !! i with
  | None => ret p
  | Some WRecv =>
      match jobs p with
      | f :: rest => ret (set_worker i (WScrub f) (set_jobs rest p))
      | [] => if closed p then ret (set_worker i WDone p) else ret p
      end
  | Some (WScrub f) =>
      r <- scrubFile f ;;
      match r with
      | Some err =>
          log_Print (LogFail f err) ;;;
          ret (set_worker i (WAdd FailCount 1) (record f false p))
      | None =>
          (if verbose then log_Print (LogOk f) else ret tt) ;;;
          ret (set_worker i (WAdd OkCount 1) (record f true p))
      end
  | Some (WAdd ptr delta) => ret (set_worker i (WAddStore ptr delta (load ptr p)) p)
  | Some (WAddStore ptr delta v) => ret (set_worker i WRecv (store ptr (wrap64 (v + delta)) p))
  | Some WDone => ret p
  end.

Definition step (t : Tid) (p : Pool) : M Pool :=
  match t with
  | TMain => ret (stepMain p)
  | TWorker i => stepWorker i p
  end.

(** The pool under a schedule: which goroutine moves next, step by step. *)
Fixpoint run (sched : list Tid) (p : Pool) : M Pool :=
  match sched with
  | [] => ret p
  | t :: rest => p' <- step t p ;; run rest p'
  end.

(** Lines 134-141: the channel is empty and open, the counters are zero, and
    [workers] goroutines stand at the head of their loop. *)
Definition startPool (files : list string) : Pool :=
  mkPool (MSend files) [] false 0 0 (replicate (Z.to_nat workers) WRecv) [].

(* ===================================================================== *)
(** * main (main.go 66-163)                                               *)
(* ===================================================================== *)

(** How a run of [main] ends: it returns, it calls [os.Exit], or, when the
    schedule is used up before [wg.Wait()] returns, it is still running. *)
Inductive Exit :=
| Returned
| Exited (code : Z)
| Running (p : Pool).

Definition Version : string := "v0.2.0".

(** The text of line 69, without its last newline. *)
Definition usage : string :=
  "goscrub " +:+ Version +:+ String "010"
  "用法: goscrub --path <文件或目录> [--with-pdf] [--backup] [--workers N] [--dry-run] [--include ext1,ext2] [--exclude ext1,ext2]".

Fixpoint printFiles (files : list string) : M unit :=
  match files with
  | [] => ret tt
  | f :: rest => fmt_Println ("-  " +:+ f) ;;; printFiles rest
  end.

Definition main (sched : list Tid) : M Exit :=
  if bool_decide (inputPath = "") then
    fmt_Println usage ;;; ret (Exited 2)
  else
    let inc := toSet includeExt in
    let exc := toSet excludeExt in
    c <- collect inc exc ;;
    match c with
    | Err err => log_Print (LogFatal err) ;;; ret (Exited 1)
    | Ok files =>
        if bool_decide (length files = 0%nat) then
          fmt_Println "没有匹配到可处理的文件。" ;;; ret Returned
        else
          fmt_Println ("发现 " +:+ pretty (Z.of_nat (length files)) +:+ " 个待处理文件。") ;;;
          if dryRun then
            printFiles files ;;; ret Returned
          else
            p <- run sched (startPool files) ;;
            match pc p with
            | MDone =>
                fmt_Println ("处理完成：成功 " +:+ pretty (okCount p) +:+ "，失败 "
                             +:+ pretty (failCount p) +:+ "。") ;;;
                ret Returned
            | _ => ret (Running p)
            end
    end.

End Program.

(* ===================================================================== *)
(** * Notions the statements below are phrased in                         *)
(* ===================================================================== *)

(** Two bytes are the same letter when they are equal or one is an upper-case
    ASCII letter and the other its lower-case form. *)
Definition sameLetter (c d : ascii) : Prop :=
  c = d \/
  exists n : N, (65 <= n <= 90)%N /\
    ((c = Ascii.ascii_of_N n /\ d = Ascii.ascii_of_N (n + 32)) \/
     (d = Ascii.ascii_of_N n /\ c = Ascii.ascii_of_N (n + 32))).

(** Equality of names up to the case of ASCII letters. *)
Inductive eqFold : string -> string -> Prop :=
| eqFold_nil : eqFold "" ""
| eqFold_cons c d s t : sameLetter c d -> eqFold s t -> eqFold (String c s) (String d t).

(** [name] begins with [prefix] up to the case of ASCII letters. *)
Definition hasPrefixFold (name prefix : string) : Prop :=
  exists p rest, name = p +:+ rest /\ eqFold p prefix.

(** The lower-cased extension the classifier looks at. *)
Definition lowerExt {libs : Libs} (p : string) : string :=
  strings_ToLower (filepath_Ext IsPathSeparator p).

(** [same_but_faults w w']: only the list of coming faults differs. *)
Definition same_but_faults (w w' : World) : Prop :=
  fs w' = fs w /\ trace w' = trace w /\ now w' = now w /\
  stdout w' = stdout w /\ stderr w' = stderr w.

(** Every event of [evs] is a create or a write of [name]. *)
Definition writes_only (name : string) (evs : list Event) : Prop :=
  Forall (fun e => exists ok, e = EvCreate name ok \/ e = EvWrite name ok) evs.

(** The recorded events touch neither [orig] nor [tmp] destructively: no
    rename and no remove was attempted. *)
Definition no_destructive_step (evs : list Event) : Prop :=
  Forall (fun e => match e with
                   | EvRename _ _ _ | EvRemove _ _ => False
                   | _ => True
                   end) evs.

(** Sample data for the statements about [replaceOriginal]. *)
Definition bytes_of (s : string) : list byte := String.list_byte_of_string s.

#[global] Instance byte_eq_dec : EqDecision byte := Byte.byte_eq_dec.

Definition flagsBackup : Flags := {|
  inputPath := "a.docx"; backup := true; dryRun := false; workers := 2;
  withPDF := false; includeExt := ""; excludeExt := ""; verbose := false |}.

(** A tree in which both backup names of [a.docx] are taken, at the second
    the clock shows. *)
Definition worldTwoBackups : World :=
  mkWorld (<["a.docx" := File (bytes_of "original")]>
          (<["a.docx.tmp" := File (bytes_of "scrubbed")]>
          (<["a.docx.bak" := File (bytes_of "backup one")]>
          (<["a.docx.1700000000.bak" := File (bytes_of "backup two")]> ∅))))
          1700000000 [] [] [] [].

(** A tree with the original and its staged replacement; the first call that
    can fail (the stat of the backup path) runs, the second (opening the
    original) fails. *)
Definition worldBackupFails : World :=
  mkWorld (<["a.docx" := File (bytes_of "original")]>
          (<["a.docx.tmp" := File (bytes_of "scrubbed")]> ∅))
          1700000000 [None; Some 0%nat] [] [] [].

(** The same tree with every rename and the fallback copy failing. *)
Definition worldAllFail : World :=
  mkWorld (<["a.docx" := File (bytes_of "original")]>
          (<["a.docx.tmp" := File (bytes_of "scrubbed")]> ∅))
          1700000000 [Some 0%nat; Some 0%nat; None; None; Some 3%nat] [] [] [].

(** A sample platform and sample libraries to run the program on.
    - Paths are Unix paths.
    - Two byte strings are zip archives: [sampleDocxBytes] holds
      [sampleDocx], [sampleOddBytes] holds [sampleOdd]; a closed writer emits
      a tag and, for each entry, its name and stored bytes.
    - A flate stream is a marker byte, 0 or 1, before the content; the
      writer emits marker 0.
    - An image file is the tag IMG before one row of pixels; the encoders
      refuse what Go's refuse (an empty image for PNG, a side of 65536 or
      more for JPEG). *)
Definition sampleDocx : list zipFile :=
  [ mkFile (mkHeader "[Content_Types].xml" 8 420 1700000001) (bytes_of "1types");
    mkFile (mkHeader "docProps/core.xml" 8 420 1700000002) (bytes_of "1core");
    mkFile (mkHeader "docProps/app.xml" 8 420 1700000003) (bytes_of "0app");
    mkFile (mkHeader "word/document.xml" 0 384 1700000004) (bytes_of "text") ].

(** An archive whose only entry is compressed with bzip2 (method 12). *)
Definition sampleOdd : list zipFile :=
  [ mkFile (mkHeader "word/document.xml" 12 420 1700000004) (bytes_of "BZh9") ].

Definition sampleDocxBytes : list byte := bytes_of "PK-docx".
Definition sampleOddBytes : list byte := bytes_of "PK-odd".

Definition sampleInflate (stream : list byte) : option (list byte) :=
  match stream with
  | m :: content =>
      if bool_decide (m = "0"%byte) || bool_decide (m = "1"%byte) then Some content else None
  | [] => None
  end.

Definition sampleDecode (data : list byte) : option Image :=
  match data with
  | a :: b :: c :: row =>
      if bool_decide ([a; b; c] = bytes_of "IMG")
      then Some (mkImage (Z.of_nat (length row)) 1 row) else None
  | _ => None
  end.

Definition sampleLibs : Libs := {|
  IsPathSeparator := fun c => bool_decide (c = "/"%char);
  filepath_Join := fun dir name => dir +:+ "/" +:+ name;
  zip_NewReader := fun data =>
    if bool_decide (data = sampleDocxBytes) then Some sampleDocx
    else if bool_decide (data = sampleOddBytes) then Some sampleOdd
    else None;
  zip_bytes := fun files =>
    bytes_of "PK" ++ concat (map (fun zf : zipFile => bytes_of (Name zf) ++ payload zf) files);
  inflate := sampleInflate;
  deflate := fun content => "0"%byte :: content;
  image_Decode := sampleDecode;
  jpeg_Encode := fun img quality =>
    if (65536 <=? width img) || (65536 <=? height img) then None
    else Some (bytes_of "JPG" ++ pix img);
  png_Encode := fun img =>
    if (width img <=? 0) || (height img <=? 0) then None
    else Some (bytes_of "PNG" ++ pix img);
|}.

(** A PNG whose re-encoding breaks off after two bytes: the open, the decode
    and the create run, the write fails. *)
Definition worldEncodeFails : World :=
  mkWorld (<["p.png" := File (bytes_of "IMGabc")]> ∅)
          1700000000 [None; None; None; Some 2%nat] [] [] [].

(** The content [zf.Open()] yields when it is read to the end. *)
Definition decompress {libs : Libs} (zf : zipFile) : option (list byte) :=
  match decompressor (Method zf) with
  | Some dcomp => dcomp (payload zf)
  | None => None
  end.

(** What the archive writer holds for a source entry it was given: the four
    header fields of the source, and the source's content compressed anew
    under the same method. *)
Definition restaged {libs : Libs} (zf : zipFile) : option zipFile :=
  match compressor (Method zf), decompress zf with
  | Some comp, Some content =>
      Some (mkFile (mkHeader (Name zf) (Method zf) (Mode zf) (Modified zf)) (comp content))
  | _, _ => None
  end.

(** The source entries the predicate keeps, in source order. *)
Definition kept (keep : string -> bool) (files : list zipFile) : list zipFile :=
  filter (fun zf : zipFile => keep (Name zf) = true) files.

(** A sample document and a sample archive with an entry no registered
    decompressor reads. *)
Definition worldDocx : World :=
  mkWorld (<["report.docx" := File sampleDocxBytes]> ∅) 1700000000 [] [] [] [].

Definition worldOdd : World :=
  mkWorld (<["odd.docx" := File sampleOddBytes]> ∅) 1700000000 [] [] [] [].

(** The regular files below a directory entry, in the order a walk meets
    them. *)
Fixpoint treeFiles {libs : Libs} (path : string) (d : DirTree) : list string :=
  match d with
  | DFile _ => [path]
  | DDir _ entries =>
      concat (map (fun d1 => treeFiles (filepath_Join path (entryName d1)) d1) entries)
  end.

(** The classifier's verdict on a path: include set, exclude set, supported
    extension. *)
Definition selected {libs : Libs} (inc exc : gmap string bool) (p : string) : bool :=
  negb ((0 <? size inc)%nat && negb (index inc (trimDot (lowerExt p))))
  && negb (index exc (trimDot (lowerExt p)))
  && isSupportedExt (lowerExt p).

(** Two worlds with the same tree in which the coming calls fare alike. *)
Definition same_inputs (w1 w2 : World) : Prop :=
  fs w1 = fs w2 /\ faults w1 = faults w2.

(** The lines a dry run prints for a candidate list, most recent first. *)
Definition dryRunLines (files : list string) : list string :=
  rev (map (fun f => "-  " +:+ f) files)
  ++ ["发现 " +:+ pretty (Z.of_nat (length files)) +:+ " 个待处理文件。"].

(** Sample flags and a sample tree for a dry run. *)
Definition flagsDryRun : Flags := {|
  inputPath := "docs"; backup := true; dryRun := true; workers := 2;
  withPDF := false; includeExt := ""; excludeExt := "png"; verbose := false |}.

Definition worldTree : World :=
  mkWorld (<["docs" := Dir [DFile "a.docx"; DFile "notes.txt";
                            DDir "img" [DFile "p.PNG"; DFile "q.jpg"]]]>
          (<["docs/a.docx" := File sampleDocxBytes]> ∅))
          1700000000 [] [] [] [].

(** [rec] fares alike on worlds whose coming calls fare alike. *)
Definition inputs_only {A : Type} (rec : string -> DirTree -> A -> M (A * option error))
    (d : DirTree) : Prop :=
  forall path acc w1 w2, faults w1 = faults w2 ->
    fst (rec path d acc w1) = fst (rec path d acc w2) /\
    faults (snd (rec path d acc w1)) = faults (snd (rec path d acc w2)).

(* --------------------------------------------------------------------- *)
(** Notions for the worker pool. *)

#[global] Instance Counter_eq_dec : EqDecision Counter.
Proof. solve_decision. Defined.

(** The file a worker holds between receiving it and scrubbing it. *)
Definition holds (s : Worker) : list string :=
  match s with WScrub f => [f] | _ => [] end.

(** A worker that owes counter [ptr] an increment: it has an outcome and has
    not yet written the sum. *)
Definition adding (ptr : Counter) (s : Worker) : nat :=
  match s with
  | WAdd c _ | WAddStore c _ _ => if decide (c = ptr) then 1%nat else 0%nat
  | _ => 0%nat
  end.

(** A worker between the read and the write of [*ptr += delta]. *)
Definition midAdd (s : Worker) : Prop :=
  match s with WAddStore _ _ _ => True | _ => False end.

(** The number of recorded outcomes that count for [ptr]. *)
Definition tally (ptr : Counter) (l : list (string * bool)) : nat :=
  length (filter (fun x : string * bool =>
                    x.2 = match ptr with OkCount => true | FailCount => false end) l).

Definition tosend (p : Pool) : list string :=
  match pc p with MSend rest => rest | _ => [] end.

(** No two workers are between the read and the write of a counter at the
    same time: what a mutex around [add] would enforce. *)
Definition exclusive (p : Pool) : Prop :=
  forall i j s t, ws p !! i = Some s -> ws p !! j = Some t ->
    midAdd s -> midAdd t -> i = j.

Section PoolNotions.
Context {flags : Flags} {libs : Libs}.

(** [exclusive] holds at every point of the run of [sched] from [p]. *)
Fixpoint exclusive_run (sched : list Tid) (p : Pool) (w : World) : Prop :=
  exclusive p /\
  match sched with
  | [] => True
  | t :: rest => let (p', w') := step t p w in exclusive_run rest p' w'
  end.

End PoolNotions.

(** What holds of the pool at every point of every run on [files]. *)
Record PoolInv (files : list string) (p : Pool) : Prop := mkPoolInv {
  inv_perm : files ≡ₚ (scrubbed p).*1 ++ concat (holds <$> ws p) ++ jobs p ++ tosend p;
  inv_closed : closed p = true <-> (forall rest, pc p <> MSend rest);
  inv_done : WDone ∈ ws p -> closed p = true /\ jobs p = [];
  inv_delta : forall s, s ∈ ws p ->
    match s with WAdd _ d | WAddStore _ d _ => d = 1 | _ => True end;
  inv_le : forall c, 0 <= load c p /\
    load c p + Z.of_nat (sum_list (adding c <$> ws p)) <= Z.of_nat (tally c (scrubbed p));
  inv_read : forall c d v, WAddStore c d v ∈ ws p ->
    0 <= v /\ v + Z.of_nat (sum_list (adding c <$> ws p)) <= Z.of_nat (tally c (scrubbed p));
}.

(** What holds in addition while the adds are exclusive. *)
Definition Exact (p : Pool) : Prop :=
  (forall c, load c p + Z.of_nat (sum_list (adding c <$> ws p))
             = Z.of_nat (tally c (scrubbed p))) /\
  (forall c d v, WAddStore c d v ∈ ws p -> v = load c p).

(** Once [wg.Wait()] has returned every worker has left its loop; the number
    of workers never changes. *)
Definition Settled (n : nat) (p : Pool) : Prop :=
  length (ws p) = n /\ (pc p = MDone -> allDone (ws p) = true).




(** The line [main] prints once [wg.Wait()] has returned. *)
Definition report (ok fail : Z) : string :=
  "处理完成：成功 " +:+ pretty ok +:+ "，失败 " +:+ pretty fail +:+ "。".

(** The world in which the pool starts: the candidate count has been
    printed (line 125). *)
Definition announced (files : list string) (w : World) : World :=
  snd (fmt_Println ("发现 " +:+ pretty (Z.of_nat (length files)) +:+ " 个待处理文件。") w).

(** Sample flags and a sample tree for a run of the pool: two documents that
    scrub and a PDF that, without [--with-pdf], does not. *)
Definition flagsPool : Flags := {|
  inputPath := "docs"; backup := false; dryRun := false; workers := 2;
  withPDF := false; includeExt := ""; excludeExt := ""; verbose := false |}.

Definition flagsOneWorker : Flags := {|
  inputPath := "docs"; backup := false; dryRun := false; workers := 1;
  withPDF := false; includeExt := ""; excludeExt := ""; verbose := false |}.

Definition worldPool : World :=
  mkWorld (<["docs" := Dir [DFile "a.docx"; DFile "b.docx"; DFile "c.pdf"]]>
          (<["docs/a.docx" := File sampleDocxBytes]>
          (<["docs/b.docx" := File sampleDocxBytes]>
          (<["docs/c.pdf" := File (bytes_of "%PDF-1.7")]> ∅))))
          1700000000 [] [] [] [].

(** One worker takes the files in turn. *)
Definition schedSerial : list Tid :=
  [TMain; TMain; TMain; TMain] ++ concat (replicate 3 (replicate 4 (TWorker 0)))
  ++ [TWorker 0; TMain].

(** Two workers scrub [a.docx] and [b.docx]; both read [okCount] before
    either writes it. *)
Definition schedLostOk : list Tid :=
  [TMain; TMain; TMain; TMain;
   TWorker 0; TWorker 1; TWorker 0; TWorker 1;
   TWorker 0; TWorker 1; TWorker 0; TWorker 1;
   TWorker 0; TWorker 0; TWorker 0; TWorker 0;
   TWorker 0; TWorker 1; TMain].

(** Two workers fail on a PDF each; both read [failCount] before either
    writes it. *)
Definition schedLostFail : list Tid :=
  [TMain; TMain; TMain;
   TWorker 0; TWorker 1; TWorker 0; TWorker 1;
   TWorker 0; TWorker 1; TWorker 0; TWorker 1;
   TWorker 0; TWorker 1; TMain].

Definition worldPdfs : World :=
  mkWorld (<["a.pdf" := File (bytes_of "%PDF-1.7")]>
          (<["b.pdf" := File (bytes_of "%PDF-1.4")]> ∅))
          1700000000 [] [] [] [].

Definition filesPool : list string := ["docs/a.docx"; "docs/b.docx"; "docs/c.pdf"].

(* --------------------------------------------------------------------- *)
(** Notions for what a scrub touches and what the pool logs. *)

(** The paths a scrub of [p] may create, write, rename or remove: the file,
    its staging file and its two kinds of backup. *)
Definition ownPath (p q : string) : Prop :=
  q = p \/ q = p +:+ ".tmp" \/ q = p +:+ ".bak" \/
  exists t : Z, q = p +:+ "." +:+ pretty t +:+ ".bak".

(** [c] leaves the clock and both output streams as they are, and the file
    system too outside the paths in [S]. *)
Definition touches_only {A : Type} (S : string -> Prop) (c : M A) : Prop :=
  forall w, now (snd (c w)) = now w /\ stdout (snd (c w)) = stdout w /\
            stderr (snd (c w)) = stderr w /\
            forall q, ~ S q -> fs (snd (c w)) !! q = fs w !! q.

(** The outcome a line of the log reports. *)
Definition outcome_of (l : LogLine) : option (string * bool) :=
  match l with
  | LogFail f _ => Some (f, false)
  | LogOk f => Some (f, true)
  | LogFatal _ => None
  end.

(** The outcomes that are logged: failures always, successes under [-v]. *)
Definition logged {flags : Flags} (x : string * bool) : bool := verbose || negb x.2.

(** The ten extensions of the three tables and the PDF case. *)
Definition supportedExts : list string :=
  [".docx"; ".xlsx"; ".pptx"; ".odt"; ".ods"; ".odp"; ".jpg"; ".jpeg"; ".png"; ".pdf"].

(** What [toSet] makes of one field of the list (lines 393-394). *)
Definition normalized (v : string) : string :=
  trimDot (strings_TrimSpace (strings_ToLower v)).

(** Sample worlds for the statements about copies and commits. *)
Definition worldCopy : World :=
  mkWorld (<["a.txt" := File (bytes_of "hello")]> ∅) 1700000000 [] [] [] [].

Definition worldStaged : World :=
  mkWorld (<["a.docx" := File (bytes_of "original")]>
          (<["a.docx.tmp" := File (bytes_of "scrubbed")]> ∅))
          1700000000 [] [] [] [].

Definition worldPng : World :=
  mkWorld (<["p.png" := File (bytes_of "IMGabc")]> ∅) 1700000000 [] [] [] [].

(** Flags with [--workers 0]. *)
Definition flagsNoWorkers : Flags := {|
  inputPath := "docs"; backup := false; dryRun := false; workers := 0;
  withPDF := false; includeExt := ""; excludeExt := ""; verbose := false |}.

(* ===================================================================== *)
(** * Facts about the string helpers                                      *)
(* ===================================================================== *)

Lemma N_of_ascii_lt (c : ascii) : (Ascii.N_of_ascii c < 256)%N.
Proof. apply Ascii.N_ascii_bounded. Qed.

Lemma isUpper_spec (c : ascii) :
  isUpper c = true <-> (65 <= Ascii.N_of_ascii c <= 90)%N.
Proof.
  unfold isUpper. rewrite andb_true_iff, !Z.leb_le. lia.
Qed.

Lemma ascii_of_N_inj (n m : N) :
  (n < 256)%N -> (m < 256)%N -> Ascii.ascii_of_N n = Ascii.ascii_of_N m -> n = m.
Proof.
  intros Hn Hm E.
  rewrite <- (Ascii.N_ascii_embedding n Hn), <- (Ascii.N_ascii_embedding m Hm).
  by rewrite E.
Qed.

Lemma toLowerByte_upper (n : N) :
  (65 <= n <= 90)%N -> toLowerByte (Ascii.ascii_of_N n) = Ascii.ascii_of_N (n + 32).
Proof.
  intros Hn. unfold toLowerByte.
  assert (E : Ascii.N_of_ascii (Ascii.ascii_of_N n) = n)
    by (apply Ascii.N_ascii_embedding; lia).
  destruct (isUpper (Ascii.ascii_of_N n)) eqn:U.
  - by rewrite E.
  - exfalso. apply not_true_iff_false in U. apply U, isUpper_spec. rewrite E. lia.
Qed.

Lemma toLowerByte_lower (n : N) :
  (65 <= n <= 90)%N -> toLowerByte (Ascii.ascii_of_N (n + 32)) = Ascii.ascii_of_N (n + 32).
Proof.
  intros Hn. unfold toLowerByte.
  assert (E : Ascii.N_of_ascii (Ascii.ascii_of_N (n + 32)) = (n + 32)%N)
    by (apply Ascii.N_ascii_embedding; lia).
  destruct (isUpper (Ascii.ascii_of_N (n + 32))) eqn:U; [|done].
  apply isUpper_spec in U. rewrite E in U. lia.
Qed.

Lemma sameLetter_iff (c d : ascii) :
  sameLetter c d <-> toLowerByte c = toLowerByte d.
Proof.
  split.
  - intros [-> | (n & Hn & [[-> ->] | [-> ->]])]; [done | |].
    + by rewrite (toLowerByte_upper n), (toLowerByte_lower n).
    + by rewrite (toLowerByte_upper n), (toLowerByte_lower n).
  - intros E. unfold toLowerByte in E.
    pose proof (N_of_ascii_lt c) as Hc. pose proof (N_of_ascii_lt d) as Hd.
    destruct (isUpper c) eqn:Uc, (isUpper d) eqn:Ud.
    + left. apply isUpper_spec in Uc, Ud.
      apply ascii_of_N_inj in E; [|lia..].
      rewrite <- (Ascii.ascii_N_embedding c), <- (Ascii.ascii_N_embedding d).
      f_equal. lia.
    + right. exists (Ascii.N_of_ascii c). apply isUpper_spec in Uc.
      split; [done|]. left. split; [by rewrite Ascii.ascii_N_embedding | by symmetry].
    + right. exists (Ascii.N_of_ascii d). apply isUpper_spec in Ud.
      split; [done|]. right. split; [by rewrite Ascii.ascii_N_embedding | done].
    + by left.
Qed.

Lemma eqFold_iff (s t : string) :
  eqFold s t <-> strings_ToLower s = strings_ToLower t.
Proof.
  split.
  - induction 1 as [|c d s t Hcd _ IH]; [done|].
    simpl. apply sameLetter_iff in Hcd. by rewrite Hcd, IH.
  - revert t. induction s as [|c s IH]; intros [|d t] E; simpl in E; try done.
    + constructor.
    + injection E as E1 E2. constructor; [by apply sameLetter_iff | by apply IH].
Qed.

Lemma string_app_cons (c : ascii) (s t : string) : String c s +:+ t = String c (s +:+ t).
Proof. reflexivity. Qed.

Lemma string_app_nil_l (t : string) : "" +:+ t = t.
Proof. reflexivity. Qed.

Lemma string_app_length (s t : string) :
  String.length (s +:+ t) = (String.length s + String.length t)%nat.
Proof. induction s as [|c s IH]; [done|]. rewrite string_app_cons. simpl. by rewrite IH. Qed.

Lemma ToLower_app (s t : string) :
  strings_ToLower (s +:+ t) = strings_ToLower s +:+ strings_ToLower t.
Proof. induction s as [|c s IH]; [done|]. rewrite string_app_cons. simpl. by rewrite IH, string_app_cons. Qed.

Lemma ToLower_length (s : string) :
  String.length (strings_ToLower s) = String.length s.
Proof. induction s as [|c s IH]; [done|]. simpl. by rewrite IH. Qed.

Lemma HasPrefix_app (s p : string) :
  strings_HasPrefix s p = true <-> exists rest, s = p +:+ rest.
Proof.
  revert s. induction p as [|c p IH]; intros s; simpl.
  - split; [intros _; by exists s | done].
  - destruct s as [|d s].
    + split; [done | intros [rest E]; by rewrite string_app_cons in E].
    + rewrite andb_true_iff, bool_decide_eq_true, IH. split.
      * intros [-> [rest ->]]. by exists rest.
      * intros [rest E]. rewrite string_app_cons in E. injection E as -> ->.
        split; [done | by exists rest].
Qed.

Lemma ToLower_split (name a b : string) :
  strings_ToLower name = a +:+ b ->
  exists p r, name = p +:+ r /\ strings_ToLower p = a /\ strings_ToLower r = b.
Proof.
  revert name. induction a as [|c a IH]; intros name E.
  - by exists "", name.
  - rewrite string_app_cons in E. destruct name as [|d name]; [discriminate|].
    simpl in E. injection E as E1 E2.
    destruct (IH name E2) as (p & r & -> & Hp & Hr).
    exists (String d p), r. split; [by rewrite string_app_cons|]. split; [|done].
    simpl. by rewrite E1, Hp.
Qed.

(** A lowered name begins with a lower-case pattern exactly when the name
    begins with the pattern up to case. *)
Lemma HasPrefix_lower_fold (name pat : string) :
  strings_ToLower pat = pat ->
  strings_HasPrefix (strings_ToLower name) pat = true <-> hasPrefixFold name pat.
Proof.
  intros Hpat. rewrite HasPrefix_app. split.
  - intros [rest E]. apply ToLower_split in E as (p & r & -> & Hp & _).
    exists p, r. split; [done|]. apply eqFold_iff. by rewrite Hp, Hpat.
  - intros (p & rest & -> & Hp). exists (strings_ToLower rest).
    rewrite ToLower_app. apply eqFold_iff in Hp. by rewrite Hp, Hpat.
Qed.

Lemma hasPrefixFold_lower (name pat : string) :
  hasPrefixFold name pat <->
  strings_HasPrefix (strings_ToLower name) (strings_ToLower pat) = true.
Proof.
  rewrite HasPrefix_app. split.
  - intros (p & rest & -> & Hp). exists (strings_ToLower rest).
    rewrite ToLower_app. apply eqFold_iff in Hp. by rewrite Hp.
  - intros [rest E]. apply ToLower_split in E as (p & r & -> & Hp & _).
    exists p, r. split; [done|]. by apply eqFold_iff.
Qed.

(** C2.  The OpenXML predicate keeps a name exactly when the name does not
    begin, up to the case of ASCII letters, with [docProps/]; the
    OpenDocument predicate keeps a name exactly when the name is not, up to
    case, the whole string [meta.xml].  So the manifest and every
    [meta.xml] below the root are kept, and everything below [docProps/] is
    dropped. *)
Theorem scrub_predicates_keep_iff (name : string) :
  (keepOpenXML name = true <-> ~ hasPrefixFold name "docProps/") /\
  (keepOpenDocument name = true <-> ~ eqFold name "meta.xml") /\
  (forall rest, keepOpenXML ("docProps/" +:+ rest) = false) /\
  (forall c dir, keepOpenDocument (String c dir +:+ "meta.xml") = true) /\
  keepOpenDocument "META-INF/manifest.xml" = true.
Proof.
  split; [|split; [|split; [|split]]].
  - unfold keepOpenXML. rewrite hasPrefixFold_lower.
    change (strings_ToLower "docProps/") with "docprops/".
    destruct (strings_HasPrefix (strings_ToLower name) "docprops/"); naive_solver.
  - unfold keepOpenDocument. rewrite eqFold_iff.
    change (strings_ToLower "meta.xml") with "meta.xml".
    case_bool_decide; naive_solver.
  - intros rest. unfold keepOpenXML. rewrite ToLower_app.
    change (strings_ToLower "docProps/") with "docprops/".
    assert (E : strings_HasPrefix ("docprops/" +:+ strings_ToLower rest) "docprops/" = true)
      by (apply HasPrefix_app; eauto).
    by rewrite E.
  - intros c dir. unfold keepOpenDocument. case_bool_decide as E; [|done].
    exfalso. apply (f_equal String.length) in E.
    rewrite ToLower_length, string_app_length in E. simpl in E. lia.
  - reflexivity.
Qed.

(* ===================================================================== *)
(** * The classifier                                                      *)
(* ===================================================================== *)

Section Classifier.
Context {flags : Flags} {libs : Libs}.


Lemma main_fatal (sched : list Tid) (w w1 : World) (err : error) :
  inputPath <> "" ->
  collect (toSet includeExt) (toSet excludeExt) w = (Err err, w1) ->
  main sched w = (Exited 1, set_stderr (LogFatal err :: stderr w1) w1).
Proof.
  intros Hne Hc. unfold main. rewrite bool_decide_eq_false_2 by done.
  unfold bind at 1. by rewrite Hc.
Qed.

Lemma collect_single (w : World) (data : list byte) (inc exc : gmap string bool) :
  faults w = [] -> fs w !! inputPath = Some (File data) ->
  collect inc exc w = (single inc exc, w).
Proof.
  intros Hf Hfs. unfold collect, os_Stat, bind, next_fault. by rewrite Hf, Hfs.
Qed.

End Classifier.

(** C9.  The classifier's precedence, for a file met on a walk ([visit]) and
    for the input path itself ([single]):
    - a non-empty include set that lacks the lower-cased extension leaves
      the file out, whatever the exclude set says, and this is the first
      test made;
    - an extension in the exclude set leaves the file out whatever the
      include set says;
    - an unrecognised extension is passed over without an error on a walk
      and is a fatal error for the input path, where [main] exits with
      status 1;
    - any other file is taken. *)
Theorem classifier_precedence {flags : Flags} {libs : Libs}
    (inc exc : gmap string bool) (p : string) (files : list string) :
  let out (q : string) := (0 <? size inc)%nat && negb (index inc (trimDot (lowerExt q))) in
  (out p = true -> visit inc exc p false None files = (files, None)) /\
  (out inputPath = true ->
     single inc exc = Err (ErrorsNew ("不在 include 列表: " +:+ inputPath))) /\
  (index exc (trimDot (lowerExt p)) = true ->
     visit inc exc p false None files = (files, None)) /\
  (index exc (trimDot (lowerExt inputPath)) = true ->
     exists msg, single inc exc = Err (ErrorsNew msg)) /\
  (out inputPath = false -> index exc (trimDot (lowerExt inputPath)) = true ->
     single inc exc = Err (ErrorsNew ("在 exclude 列表中: " +:+ inputPath))) /\
  (isSupportedExt (lowerExt p) = false ->
     visit inc exc p false None files = (files, None)) /\
  (isSupportedExt (lowerExt inputPath) = false ->
     exists msg, single inc exc = Err (ErrorsNew msg)) /\
  (out inputPath = false -> index exc (trimDot (lowerExt inputPath)) = false ->
   isSupportedExt (lowerExt inputPath) = false ->
     single inc exc = Err (ErrorsNew ("暂不支持的文件类型: " +:+ lowerExt inputPath))) /\
  (isSupportedExt (lowerExt inputPath) = false ->
     forall sched w data,
       inputPath <> "" -> faults w = [] -> fs w !! inputPath = Some (File data) ->
       fst (main sched w) = Exited 1) /\
  (out p = false -> index exc (trimDot (lowerExt p)) = false ->
   isSupportedExt (lowerExt p) = true ->
     visit inc exc p false None files = (files ++ [p], None)) /\
  (out inputPath = false -> index exc (trimDot (lowerExt inputPath)) = false ->
   isSupportedExt (lowerExt inputPath) = true ->
     single inc exc = Ok [inputPath]).
Proof.
  intros out. unfold out, visit, single, lowerExt.
  repeat split.
  - by intros ->.
  - by intros ->.
  - intros ->. by destruct (_ && _).
  - intros ->. destruct (_ && _); eauto.
  - by intros -> ->.
  - intros ->. destruct (_ && _); [done|]. by destruct (index exc _).
  - intros ->. destruct (_ && _); eauto. destruct (index exc _); eauto.
  - by intros -> -> ->.
  - intros Hs sched w data Hne Hf Hfs.
    pose proof (collect_single w data (toSet includeExt) (toSet excludeExt) Hf Hfs) as Hc.
    destruct (single (toSet includeExt) (toSet excludeExt)) as [l|err] eqn:Es.
    + exfalso. unfold single, lowerExt in *. rewrite Hs in Es. simpl in Es.
      destruct (_ && _) in Es; [done|]. by destruct (index _ _) in Es.
    + by rewrite (main_fatal sched w w err Hne Hc).
  - by intros -> -> ->.
  - by intros -> -> ->.
Qed.

(* ===================================================================== *)
(** * The system calls: what each one changes                             *)
(* ===================================================================== *)


Ltac sys_unfold :=
  unfold os_Stat, os_Open, os_ReadFile, os_Create, os_Rename, os_Remove, write,
    io_Copy, time_Sleep, time_Now_Unix, emit, bind, ret, next_fault in *.

Ltac sys_cases w :=
  let f := fresh "f" in
  destruct (faults w) as [|[f|] ?]; simpl in *.

Lemma same_but_faults_refl w : same_but_faults w w.
Proof. by repeat split. Qed.

Lemma next_fault_same w f w' : next_fault w = (f, w') -> same_but_faults w w'.
Proof.
  unfold next_fault. destruct (faults w); intros; simplify_eq; by repeat split.
Qed.

Lemma os_Stat_same name w r w' : os_Stat name w = (r, w') -> same_but_faults w w'.
Proof.
  sys_unfold. sys_cases w; destruct (fs w !! name); intros; simplify_eq; by repeat split.
Qed.

Lemma os_Stat_ok name w b w' :
  os_Stat name w = (Ok b, w') -> exists n, fs w !! name = Some n /\ b = isDir n.
Proof.
  sys_unfold. sys_cases w; destruct (fs w !! name) eqn:E; intros; simplify_eq; eauto.
Qed.

Lemma os_Open_same name w r w' : os_Open name w = (r, w') -> same_but_faults w w'.
Proof.
  sys_unfold. sys_cases w; destruct (fs w !! name); intros; simplify_eq; by repeat split.
Qed.

Lemma os_Open_ok name w h w' : os_Open name w = (Ok h, w') -> h = name /\ is_Some (fs w !! name).
Proof.
  sys_unfold. sys_cases w; destruct (fs w !! name) eqn:E; intros; simplify_eq; eauto.
Qed.

Lemma os_ReadFile_same name w r w' : os_ReadFile name w = (r, w') -> same_but_faults w w'.
Proof.
  sys_unfold. sys_cases w; destruct (fs w !! name) as [[]|]; intros; simplify_eq;
    by repeat split.
Qed.

Lemma os_ReadFile_ok name w data w' :
  os_ReadFile name w = (Ok data, w') -> fs w !! name = Some (File data).
Proof.
  sys_unfold. sys_cases w; destruct (fs w !! name) as [[]|] eqn:E; intros; by simplify_eq.
Qed.

Lemma os_Create_spec name w r w' :
  os_Create name w = (r, w') ->
  now w' = now w /\ stdout w' = stdout w /\ stderr w' = stderr w /\
  ((r = Ok name /\ fs w' = <[name := File []]> (fs w) /\
    trace w' = EvCreate name true :: trace w) \/
   (r = Err (SysError "open" name) /\ fs w' = fs w /\
    trace w' = EvCreate name false :: trace w)).
Proof.
  sys_unfold. sys_cases w; destruct (fs w !! name) as [[]|]; intros; simplify_eq;
    repeat split; auto.
Qed.

Lemma append_file_other name data m p :
  p <> name -> append_file name data m !! p = m !! p.
Proof.
  intros Hp. unfold append_file. destruct (m !! name) as [[]|]; try done.
  by rewrite lookup_insert_ne.
Qed.

Lemma write_spec name data w r w' :
  write name data w = (r, w') ->
  now w' = now w /\ stdout w' = stdout w /\ stderr w' = stderr w /\
  ((r = None /\ fs w' = append_file name data (fs w) /\
    trace w' = EvWrite name true :: trace w) \/
   (exists k, r = Some (SysError "write" name) /\
    fs w' = append_file name (take k data) (fs w) /\
    trace w' = EvWrite name false :: trace w)).
Proof.
  sys_unfold. sys_cases w; intros; simplify_eq; repeat split; eauto.
Qed.

Local Arguments rename_refused : simpl never.

Lemma os_Rename_spec old new w r w' :
  os_Rename old new w = (r, w') ->
  now w' = now w /\ stdout w' = stdout w /\ stderr w' = stderr w /\
  ((r = None /\ trace w' = EvRename old new true :: trace w /\
    exists n, fs w !! old = Some n /\ fs w' = <[new := n]> (delete old (fs w))) \/
   (r = Some (SysError "rename" old) /\ fs w' = fs w /\
    trace w' = EvRename old new false :: trace w)).
Proof.
  sys_unfold. sys_cases w; destruct (fs w !! old) as [n|] eqn:E;
    try destruct (rename_refused _ _); intros; simplify_eq; repeat split; eauto 10.
Qed.

Lemma os_Remove_spec name w r w' :
  os_Remove name w = (r, w') ->
  now w' = now w /\ stdout w' = stdout w /\ stderr w' = stderr w /\
  ((r = None /\ fs w' = delete name (fs w) /\ trace w' = EvRemove name true :: trace w) \/
   (r = Some (SysError "remove" name) /\ fs w' = fs w /\
    trace w' = EvRemove name false :: trace w)).
Proof.
  sys_unfold. sys_cases w; destruct (fs w !! name) as [[|[|]]|]; intros; simplify_eq;
    repeat split; auto.
Qed.


(** [copyFile src dst] touches [dst] alone; when it returns [nil] and the two
    paths differ, [dst] holds the bytes of [src]. *)
Lemma copyFile_spec src dst w r w' :
  copyFile src dst w = (r, w') ->
  now w' = now w /\ stdout w' = stdout w /\ stderr w' = stderr w /\
  (forall p, p <> dst -> fs w' !! p = fs w !! p) /\
  (exists evs, trace w' = evs ++ trace w /\ writes_only dst evs) /\
  (r = None -> src <> dst ->
     exists data, fs w !! src = Some (File data) /\ fs w' !! dst = Some (File data)).
Proof.
  unfold copyFile, bind at 1.
  destruct (os_Open src w) as [s w1] eqn:E1.
  apply os_Open_same in E1 as Hs1. destruct Hs1 as (F1 & T1 & N1 & O1 & L1).
  destruct s as [s|err].
  2:{ unfold ret. intros; simplify_eq.
    split_and!; [congruence | congruence | congruence | | | done].
    - intros p _. by rewrite F1.
    - exists []. split; [done | constructor]. }
  apply os_Open_ok in E1 as [-> _].
  unfold bind at 1. destruct (os_Create dst w1) as [d w2] eqn:E2.
  apply os_Create_spec in E2 as (N2 & O2 & L2 & [(-> & F2 & T2) | (-> & F2 & T2)]).
  2:{ unfold ret. intros; simplify_eq.
      split_and!; [congruence | congruence | congruence | | | done].
      - intros p _. by rewrite F2, F1.
      - exists [EvCreate dst false]. split; [by rewrite T2, T1|].
        repeat constructor. eauto. }
  unfold io_Copy.
  destruct (fs w2 !! src) as [[data|es]|] eqn:E3.
  - intros E4. apply write_spec in E4
      as (N4 & O4 & L4 & [(-> & F4 & T4) | (k & -> & F4 & T4)]).
    + split_and!; [congruence | congruence | congruence | | | ].
      * intros p Hp. by rewrite F4, append_file_other, F2, lookup_insert_ne, F1.
      * exists [EvWrite dst true; EvCreate dst true]. split; [by rewrite T4, T2, T1|].
        repeat constructor; eauto.
      * intros _ Hne. exists data. rewrite F2, lookup_insert_ne, F1 in E3 by done.
        split; [done|]. rewrite F4. unfold append_file.
        by rewrite F2, lookup_insert_eq, lookup_insert_eq.
    + split_and!; [congruence | congruence | congruence | | | done].
      * intros p Hp. by rewrite F4, append_file_other, F2, lookup_insert_ne, F1.
      * exists [EvWrite dst false; EvCreate dst true]. split; [by rewrite T4, T2, T1|].
        repeat constructor; eauto.
  - intros; simplify_eq.
    split_and!; [congruence | congruence | congruence | | | done].
    + intros p Hp. by rewrite F2, lookup_insert_ne, F1.
    + exists [EvCreate dst true]. split; [by rewrite T2, T1|]. repeat constructor; eauto.
  - intros; simplify_eq.
    split_and!; [congruence | congruence | congruence | | | done].
    + intros p Hp. by rewrite F2, lookup_insert_ne, F1.
    + exists [EvCreate dst true]. split; [by rewrite T2, T1|]. repeat constructor; eauto.
Qed.


(** The backup path is one of two names; choosing it changes nothing. *)
Lemma backupPath_spec orig w bak w' :
  backupPath orig w = (bak, w') ->
  same_but_faults w w' /\
  ((bak = orig +:+ ".bak") \/
   (bak = orig +:+ "." +:+ pretty (now w) +:+ ".bak" /\ is_Some (fs w !! (orig +:+ ".bak")))).
Proof.
  unfold backupPath, bind at 1.
  destruct (os_Stat (orig +:+ ".bak") w) as [st w1] eqn:E1.
  apply os_Stat_same in E1 as Hs. destruct st as [b|err].
  - apply os_Stat_ok in E1 as (n & Hn & _).
    sys_unfold. intros; simplify_eq. split; [done|]. right.
    destruct Hs as (_ & _ & -> & _). eauto.
  - unfold ret. intros; simplify_eq. split; [done | by left].
Qed.

(* ===================================================================== *)
(** * replaceOriginal: backup, rename, retry, fallback                    *)
(* ===================================================================== *)

Lemma app_ne_self (s t : string) : t <> "" -> s +:+ t <> s.
Proof.
  intros Ht E. apply (f_equal String.length) in E. rewrite string_app_length in E.
  destruct t; [done | simpl in E; lia].
Qed.

Lemma bak_ne_tmp (orig : string) : orig +:+ ".tmp" <> orig +:+ ".bak".
Proof. intros E. by apply (inj _) in E. Qed.

Lemma stamped_ne_tmp (orig t : string) :
  orig +:+ ".tmp" <> orig +:+ "." +:+ t +:+ ".bak".
Proof.
  intros E. apply (inj _) in E. rewrite string_app_cons in E. injection E as E.
  rewrite string_app_nil_l in E.
  apply (f_equal String.length) in E. rewrite string_app_length in E. simpl in E. lia.
Qed.

Lemma backupPath_ne_orig orig w bak w' :
  backupPath orig w = (bak, w') -> bak <> orig.
Proof.
  intros Hb. apply backupPath_spec in Hb as (_ & [-> | [-> _]]);
    by apply app_ne_self.
Qed.

Lemma backupPath_ne_tmp orig w bak w' :
  backupPath orig w = (bak, w') -> orig +:+ ".tmp" <> bak.
Proof.
  intros Hb. apply backupPath_spec in Hb as (_ & [-> | [-> _]]).
  - apply bak_ne_tmp.
  - apply stamped_ne_tmp.
Qed.

Lemma writes_only_no_destructive name evs :
  writes_only name evs -> no_destructive_step evs.
Proof.
  unfold writes_only, no_destructive_step. intros Hw.
  eapply Forall_impl; [exact Hw|]. intros e [ok [-> | ->]]; done.
Qed.

Section ReplaceFacts.
Context {flags : Flags}.

(** C3.  With backup enabled, when the copy of the original to the backup
    path fails, [replaceOriginal] returns the error at once: the original is
    unchanged, the staged file is unchanged (the staging path [orig.tmp] of
    both callers never equals the backup path), and the only calls made
    were creates and writes of the backup path: no rename, no remove. *)
Theorem backup_failure_aborts (orig tmp bak : string) (w w1 w2 : World) (err : error) :
  backup = true ->
  backupPath orig w = (bak, w1) ->
  copyFile orig bak w1 = (Some err, w2) ->
  replaceOriginal orig tmp w = (Some (Wrap "创建备份失败" err), w2) /\
  fs w2 !! orig = fs w !! orig /\
  (tmp <> bak -> fs w2 !! tmp = fs w !! tmp) /\
  fs w2 !! (orig +:+ ".tmp") = fs w !! (orig +:+ ".tmp") /\
  exists evs, trace w2 = evs ++ trace w /\ writes_only bak evs /\ no_destructive_step evs.
Proof.
  intros Hb Hp Hc.
  pose proof (backupPath_ne_orig _ _ _ _ Hp) as Hne1.
  pose proof (backupPath_ne_tmp _ _ _ _ Hp) as Hne2.
  apply backupPath_spec in Hp as Hs. destruct Hs as ((F1 & T1 & _) & _).
  apply copyFile_spec in Hc as Hcs.
  destruct Hcs as (_ & _ & _ & Hother & (evs & T2 & Hw) & _).
  split; [|split; [|split; [|split]]].
  - unfold replaceOriginal. rewrite Hb. unfold bind. by rewrite Hp, Hc.
  - rewrite Hother by done. by rewrite F1.
  - intros Hne. rewrite Hother by done. by rewrite F1.
  - rewrite Hother by done. by rewrite F1.
  - exists evs. rewrite T2, T1. eauto using writes_only_no_destructive.
Qed.

End ReplaceFacts.

(** C3, at a sample input: the stat of the backup path runs, then opening
    the original fails. *)
Lemma backup_failure_aborts_witness :
  replaceOriginal (flags := flagsBackup) "a.docx" "a.docx.tmp" worldBackupFails
    = (Some (Wrap "创建备份失败" (SysError "open" "a.docx")),
       set_faults [] worldBackupFails) /\
  fs (set_faults [] worldBackupFails) !! "a.docx" = fs worldBackupFails !! "a.docx".
Proof.
  assert (Hp : backupPath "a.docx" worldBackupFails
               = ("a.docx.bak", set_faults [Some 0%nat] worldBackupFails))
    by (vm_compute; reflexivity).
  assert (Hc : copyFile "a.docx" "a.docx.bak" (set_faults [Some 0%nat] worldBackupFails)
               = (Some (SysError "open" "a.docx"), set_faults [] worldBackupFails))
    by (vm_compute; reflexivity).
  destruct (backup_failure_aborts (flags := flagsBackup) "a.docx" "a.docx.tmp" "a.docx.bak"
    worldBackupFails _ _ _ eq_refl Hp Hc) as (H1 & H2 & _).
  split; [exact H1 | exact H2].
Defined.

Section BackupName.
Context {flags : Flags}.

(** What the backup step does when it succeeds: the copy goes to [orig.bak]
    when no file is there, and otherwise to the name with the clock's
    seconds, leaving [orig.bak] as it was.  The second name is not
    looked up before it is written. *)
Lemma backup_written_to (orig bak : string) (w w1 w2 : World) :
  backupPath orig w = (bak, w1) ->
  copyFile orig bak w1 = (None, w2) ->
  (exists data, fs w !! orig = Some (File data) /\ fs w2 !! bak = Some (File data)) /\
  ((bak = orig +:+ ".bak") \/
   (bak = orig +:+ "." +:+ pretty (now w) +:+ ".bak" /\
    fs w2 !! (orig +:+ ".bak") = fs w !! (orig +:+ ".bak") /\
    is_Some (fs w !! (orig +:+ ".bak")))).
Proof.
  intros Hp Hc.
  pose proof (backupPath_ne_orig _ _ _ _ Hp) as Hne.
  apply backupPath_spec in Hp as ((F1 & _) & Hb).
  apply copyFile_spec in Hc as (_ & _ & _ & Hother & _ & Hdata).
  destruct (Hdata eq_refl (not_eq_sym Hne)) as (data & Hs & Hd).
  split; [exists data; by rewrite <- F1|].
  destruct Hb as [-> | [-> Hex]]; [by left | right].
  split; [done|]. split; [|done].
  rewrite Hother, F1; [done|].
  intros E. apply (inj _) in E. rewrite string_app_cons, string_app_nil_l in E. injection E as E.
  apply (f_equal String.length) in E. rewrite string_app_length in E. simpl in E. lia.
Qed.

End BackupName.

(** C4, at the failing input: [a.docx.bak] and [a.docx.1700000000.bak] both
    exist and the clock shows 1700000000.  The commit succeeds, and the
    second backup, which held other bytes, now holds the original's. *)
Theorem backup_overwrites_second_candidate :
  fs worldTwoBackups !! "a.docx.1700000000.bak" = Some (File (bytes_of "backup two")) /\
  let (r, w') := replaceOriginal (flags := flagsBackup) "a.docx" "a.docx.tmp" worldTwoBackups in
  r = None /\
  fs w' !! "a.docx.1700000000.bak" = Some (File (bytes_of "original")) /\
  fs w' !! "a.docx.bak" = Some (File (bytes_of "backup one")) /\
  fs w' !! "a.docx" = Some (File (bytes_of "scrubbed")).
Proof. vm_compute. repeat split; reflexivity. Qed.



(* ===================================================================== *)
(** * scrubImage                                                          *)
(* ===================================================================== *)

Lemma append_file_created name data m :
  append_file name data (<[name := File []]> m) !! name = Some (File data).
Proof. unfold append_file. by rewrite lookup_insert_eq, lookup_insert_eq. Qed.

Section ImageFacts.
Context {flags : Flags} {libs : Libs}.

Lemma decodeFrom_same name w r w' : decodeFrom name w = (r, w') -> same_but_faults w w'.
Proof.
  unfold decodeFrom. sys_unfold. sys_cases w;
    destruct (fs w !! name) as [[data|]|]; try destruct (image_Decode data);
    intros; simplify_eq; by repeat split.
Qed.

(** An encoder that fails leaves the file it was writing to in place. *)
Lemma encodeTo_spec out encoded w r w' :
  encodeTo out encoded w = (r, w') ->
  (r = None /\ trace w' = EvWrite out true :: trace w /\
   exists data, encoded = Some data /\ fs w' = append_file out data (fs w)) \/
  (r = Some ErrEncode /\ w' = w) \/
  (r = Some (SysError "write" out) /\ trace w' = EvWrite out false :: trace w /\
   exists part, fs w' = append_file out part (fs w)).
Proof.
  unfold encodeTo. destruct encoded as [data|].
  - intros E. apply write_spec in E as (_ & _ & _ & [(-> & F & T) | (k & -> & F & T)]).
    + left. eauto.
    + right; right. eauto.
  - unfold ret. intros; simplify_eq. right; left. done.
Qed.

(** C10.  When [scrubImage] fails before the commit step, it returns that
    error, the file at [path] is unchanged, and the failure is one of:
    the open of [path]; the decode; the create of [path.tmp]; the
    encoder (it refuses the image, or its write breaks off); an extension
    that is neither JPEG nor PNG.  In the last two cases the staging file
    [path.tmp] exists when [scrubImage] returns, with what was written to
    it, and no remove was attempted. *)
Theorem scrubImage_failure_before_commit (path ext : string) (w w' : World) (err : error) :
  stageImage path ext w = (Err err, w') ->
  let tmp := path +:+ ".tmp" in
  scrubImage path ext w = (Some err, w') /\
  fs w' !! path = fs w !! path /\
  exists evs, trace w' = evs ++ trace w /\ writes_only tmp evs /\
    ((err = SysError "open" path /\ evs = []) \/
     (exists e, err = Wrap "图片解码失败" e /\ evs = []) \/
     (err = SysError "open" tmp /\ evs = [EvCreate tmp false] /\
      fs w' !! tmp = fs w !! tmp) \/
     ((err = ErrEncode /\ evs = [EvCreate tmp true] \/
       err = SysError "write" tmp /\ evs = [EvWrite tmp false; EvCreate tmp true]) /\
      exists part, fs w' !! tmp = Some (File part)) \/
     (err = ErrorsNew ("未知图片类型: " +:+ ext) /\ evs = [EvCreate tmp true] /\
      fs w' !! tmp = Some (File []))).
Proof.
  intros Hst tmp.
  assert (Hne : path <> tmp) by (intros E; symmetry in E; by apply app_ne_self in E).
  split; [unfold scrubImage, bind; by rewrite Hst|].
  revert Hst. unfold stageImage, bind at 1.
  destruct (os_Open path w) as [i w1] eqn:E1.
  apply os_Open_same in E1 as Hs1. destruct Hs1 as (F1 & T1 & _).
  destruct i as [i|e1].
  2:{ unfold ret. intros [= <- <-]. split; [by rewrite F1|].
      exists []. split; [done|]. split; [constructor|]. left.
      sys_unfold. revert E1. sys_cases w; destruct (fs w !! path); intros; by simplify_eq. }
  apply os_Open_ok in E1 as [-> _].
  unfold bind at 1. destruct (decodeFrom path w1) as [d w2] eqn:E2.
  apply decodeFrom_same in E2 as (F2 & T2 & _).
  destruct d as [img|e2].
  2:{ unfold ret. intros [= <- <-]. split; [by rewrite F2, F1|].
      exists []. split; [by rewrite T2, T1|]. split; [constructor|]. right; left. eauto. }
  unfold bind at 1. fold tmp. destruct (os_Create tmp w2) as [o w3] eqn:E3.
  apply os_Create_spec in E3 as (_ & _ & _ & [(-> & F3 & T3) | (-> & F3 & T3)]).
  2:{ unfold ret. intros [= <- <-]. split; [by rewrite F3, F2, F1|].
      exists [EvCreate tmp false]. split; [by rewrite T3, T2, T1|].
      split; [repeat constructor; eauto|]. right; right; left.
      split_and!; [done | done | by rewrite F3, F2, F1]. }
  assert (Hp3 : fs w3 !! path = fs w !! path)
    by (by rewrite F3, lookup_insert_ne, F2, F1).
  assert (Henc : forall encoded r w4,
            encodeTo tmp encoded w3 = (r, w4) -> r = Some err -> w4 = w' ->
            fs w' !! path = fs w !! path /\
            exists evs, trace w' = evs ++ trace w /\ writes_only tmp evs /\
              ((err = ErrEncode /\ evs = [EvCreate tmp true] \/
                err = SysError "write" tmp /\ evs = [EvWrite tmp false; EvCreate tmp true]) /\
               exists part, fs w' !! tmp = Some (File part))).
  { intros encoded r w4 E4 -> ->.
    apply encodeTo_spec in E4 as [(? & _) | [([= <-] & ->) | ([= <-] & T4 & part & F4)]];
      [done | |].
    - split; [done|]. exists [EvCreate tmp true]. split; [by rewrite T3, T2, T1|].
      split; [repeat constructor; eauto|]. split; [by left|].
      exists []. by rewrite F3, lookup_insert_eq.
    - split; [by rewrite F4, append_file_other|].
      exists [EvWrite tmp false; EvCreate tmp true]. split; [by rewrite T4, T3, T2, T1|].
      split; [repeat constructor; eauto|]. split; [by right|].
      exists part. by rewrite F4, F3, append_file_created. }
  destruct (bool_decide (ext = ".jpg") || bool_decide (ext = ".jpeg")).
  { unfold bind at 1. destruct (encodeTo tmp (jpeg_Encode img 95) w3) as [r w4] eqn:E4.
    destruct r as [e4|]; unfold ret; intros [= <- <-].
    destruct (Henc _ _ _ E4 eq_refl eq_refl) as (Hp & evs & Ht & Hw & Hcase).
    split; [done|]. exists evs. split_and!; [done | done |]. by right; right; right; left. }
  destruct (bool_decide (ext = ".png")).
  { unfold bind at 1. destruct (encodeTo tmp (png_Encode img) w3) as [r w4] eqn:E4.
    destruct r as [e4|]; unfold ret; intros [= <- <-].
    destruct (Henc _ _ _ E4 eq_refl eq_refl) as (Hp & evs & Ht & Hw & Hcase).
    split; [done|]. exists evs. split_and!; [done | done |]. by right; right; right; left. }
  unfold ret. intros [= <- <-]. split; [done|].
  exists [EvCreate tmp true]. split; [by rewrite T3, T2, T1|].
  split; [repeat constructor; eauto|]. right; right; right; right.
  split_and!; [done | done | by rewrite F3, lookup_insert_eq].
Qed.

End ImageFacts.

(** C10, at a sample input: the write of the re-encoded PNG breaks off after
    two bytes; the original is as it was and [p.png.tmp] holds the two
    bytes. *)
Lemma scrubImage_failure_before_commit_witness :
  exists w',
    stageImage (libs := sampleLibs) "p.png" ".png" worldEncodeFails
      = (Err (SysError "write" "p.png.tmp"), w') /\
    scrubImage (flags := flagsBackup) (libs := sampleLibs) "p.png" ".png" worldEncodeFails
      = (Some (SysError "write" "p.png.tmp"), w') /\
    fs w' !! "p.png" = Some (File (bytes_of "IMGabc")) /\
    fs w' !! "p.png.tmp" = Some (File (bytes_of "PN")).
Proof.
  eexists. 
  assert (Hst : stageImage (libs := sampleLibs) "p.png" ".png" worldEncodeFails
                = (Err (SysError "write" "p.png.tmp"),
                   snd (stageImage (libs := sampleLibs) "p.png" ".png" worldEncodeFails)))
    by (vm_compute; reflexivity).
  destruct (scrubImage_failure_before_commit (flags := flagsBackup) (libs := sampleLibs)
              "p.png" ".png" worldEncodeFails _ _ Hst) as (H1 & H2 & _).
  split; [exact Hst|]. split; [exact H1|]. split; [|by vm_compute].
  rewrite H2. by vm_compute.
Defined.

(* ===================================================================== *)
(** * rewriteZip                                                          *)
(* ===================================================================== *)

Lemma same_but_faults_trans w1 w2 w3 :
  same_but_faults w1 w2 -> same_but_faults w2 w3 -> same_but_faults w1 w3.
Proof.
  intros (? & ? & ? & ? & ?) (? & ? & ? & ? & ?). repeat split; congruence.
Qed.

Lemma next_fault_nil w : faults w = [] -> next_fault w = (None, w).
Proof. unfold next_fault. by intros ->. Qed.

Section ZipFacts.
Context {flags : Flags} {libs : Libs}.

Lemma zf_Open_spec zf w r w' :
  zf_Open zf w = (r, w') ->
  same_but_faults w w' /\
  (forall rd, r = Ok rd ->
     exists dcomp, decompressor (Method zf) = Some dcomp /\ rd = dcomp (payload zf)).
Proof.
  unfold zf_Open, bind. destruct (next_fault w) as [f w1] eqn:E.
  apply next_fault_same in E. unfold ret.
  destruct f, (decompressor (Method zf)) as [d|]; intros [= <- <-];
    (split; [done|]); intros rd [=]; eauto.
Qed.

Lemma zw_CreateHeader_spec h w r w' :
  zw_CreateHeader h w = (r, w') ->
  same_but_faults w w' /\ (forall comp, r = Ok comp -> compressor (Method h) = Some comp).
Proof.
  unfold zw_CreateHeader, bind. destruct (next_fault w) as [f w1] eqn:E.
  apply next_fault_same in E. unfold ret.
  destruct f, (compressor (Method h)) as [c|]; intros [= <- <-];
    (split; [done|]); intros comp [=]; by subst.
Qed.

Lemma copyEntry_spec h comp rd w r w' :
  copyEntry h comp rd w = (r, w') ->
  same_but_faults w w' /\
  (forall e, r = Ok e -> exists content, rd = Some content /\ e = mkFile h (comp content)).
Proof.
  unfold copyEntry, bind. destruct (next_fault w) as [f w1] eqn:E.
  apply next_fault_same in E. unfold ret.
  destruct f, rd as [content|]; intros [= <- <-];
    (split; [done|]); intros e [=]; subst; eauto.
Qed.


(** A loop that runs to its end has added, for each kept entry in order, the
    entry [restaged] describes, and has not touched the file system. *)
Lemma copyEntries_ok keep tmp files : forall zw w zw' w',
  copyEntries keep tmp files zw w = (Ok zw', w') ->
  same_but_faults w w' /\
  exists staged, zw' = zw ++ staged /\
    Forall2 (fun e' e => restaged e = Some e') staged (kept keep files).
Proof.
  induction files as [|zf rest IH]; intros zw w zw' w'; cbn [copyEntries].
  - unfold ret. intros [= <- <-]. split; [apply same_but_faults_refl|].
    exists []. split; [by rewrite app_nil_r | constructor].
  - unfold kept. rewrite filter_cons. fold (kept keep rest).
    destruct (keep (Name zf)) eqn:Hk; cbn [negb].
    2:{ intros E. rewrite decide_False by done. by apply IH. }
    rewrite decide_True by done.
    unfold bind at 1. destruct (zf_Open zf w) as [r1 w1] eqn:E1.
    apply zf_Open_spec in E1 as (S1 & H1).
    destruct r1 as [rd|e1].
    2:{ unfold bind at 1. destruct (discardStaged _ _ _). unfold ret. intros [=]. }
    destruct (H1 rd eq_refl) as (dcomp & Hd & ->).
    unfold bind at 1.
    destruct (zw_CreateHeader _ w1) as [r2 w2] eqn:E2.
    apply zw_CreateHeader_spec in E2 as (S2 & H2).
    destruct r2 as [comp|e2].
    2:{ unfold bind at 1. destruct (discardStaged _ _ _). unfold ret. intros [=]. }
    specialize (H2 comp eq_refl). cbn [Method] in H2.
    unfold bind at 1.
    destruct (copyEntry _ comp (dcomp (payload zf)) w2) as [r3 w3] eqn:E3.
    apply copyEntry_spec in E3 as (S3 & H3).
    destruct r3 as [e|e3].
    2:{ unfold bind at 1. destruct (discardStaged _ _ _). unfold ret. intros [=]. }
    destruct (H3 e eq_refl) as (content & Hc & ->).
    intros E. apply IH in E as (S4 & staged & -> & HF).
    split; [eauto using same_but_faults_trans|].
    eexists (_ :: staged). split; [by rewrite <- app_assoc|].
    constructor; [|done]. unfold restaged, decompress. by rewrite H2, Hd, Hc.
Qed.


Lemma zf_Open_nil zf w :
  faults w = [] ->
  zf_Open zf w = (match decompressor (Method zf) with
                  | Some dcomp => Ok (dcomp (payload zf))
                  | None => Err ErrAlgorithm
                  end, w).
Proof.
  intros Hf. unfold zf_Open, bind. rewrite (next_fault_nil w Hf).
  by destruct (decompressor (Method zf)).
Qed.

Lemma zw_CreateHeader_nil h w :
  faults w = [] ->
  zw_CreateHeader h w = (match compressor (Method h) with
                         | Some comp => Ok comp
                         | None => Err ErrAlgorithm
                         end, w).
Proof.
  intros Hf. unfold zw_CreateHeader, bind. rewrite (next_fault_nil w Hf).
  by destruct (compressor (Method h)).
Qed.

Lemma copyEntry_nil h comp rd w :
  faults w = [] ->
  copyEntry h comp rd w = (match rd with
                           | Some content => Ok (mkFile h (comp content))
                           | None => Err ErrCorrupt
                           end, w).
Proof.
  intros Hf. unfold copyEntry, bind. rewrite (next_fault_nil w Hf). by destruct rd.
Qed.


Lemma os_ReadFile_nil name data w :
  faults w = [] -> fs w !! name = Some (File data) -> os_ReadFile name w = (Ok data, w).
Proof. intros Hf Hn. unfold os_ReadFile, bind. by rewrite (next_fault_nil w Hf), Hn. Qed.

Lemma os_Create_nil name w :
  faults w = [] -> (forall es, fs w !! name <> Some (Dir es)) ->
  os_Create name w
  = (Ok name, set_trace (EvCreate name true :: trace w) (set_fs (<[name := File []]> (fs w)) w)).
Proof.
  intros Hf Hn. unfold os_Create, bind. rewrite (next_fault_nil w Hf).
  destruct (fs w !! name) as [[|es]|] eqn:E; try done. by destruct (Hn es).
Qed.

Lemma write_nil name data w :
  faults w = [] ->
  write name data w
  = (None, set_trace (EvWrite name true :: trace w) (set_fs (append_file name data (fs w)) w)).
Proof. intros Hf. unfold write, bind. by rewrite (next_fault_nil w Hf). Qed.

Lemma file_Close_nil name w : faults w = [] -> file_Close name w = (None, w).
Proof. intros Hf. unfold file_Close, bind. by rewrite (next_fault_nil w Hf). Qed.

Lemma file_Close_same name w r w' : file_Close name w = (r, w') -> same_but_faults w w'.
Proof.
  unfold file_Close, bind. destruct (next_fault w) as [f w1] eqn:E.
  apply next_fault_same in E. unfold ret. by destruct f; intros [= <- <-].
Qed.



End ZipFacts.



(* ===================================================================== *)
(** * Discovery and the dry run                                           *)
(* ===================================================================== *)

(** Induction on a directory tree, with the hypothesis for every entry of a
    listing. *)
Lemma DirTree_nested_ind (P : DirTree -> Prop) :
  (forall n, P (DFile n)) ->
  (forall n es, Forall P es -> P (DDir n es)) ->
  forall d, P d.
Proof.
  intros Hf Hd. fix IH 1. intros [n|n es].
  - apply Hf.
  - apply Hd. induction es as [|e es IHes]; constructor; [apply IH | apply IHes].
Qed.

Section WalkFacts.
Context {flags : Flags} {libs : Libs}.
Context {A : Type} (fn : string -> bool -> option error -> A -> A * option error).

(** A walk reads; it changes nothing but the list of coming faults. *)
Lemma walkDir_same (d : DirTree) : forall path acc w r w',
  walkDir fn path d acc w = (r, w') -> same_but_faults w w'.
Proof.
  induction d as [n|n es IH] using DirTree_nested_ind; intros path acc w r w';
    cbn [walkDir]; destruct (fn path _ None acc) as [acc1 err].
  - unfold ret. intros [= <- <-]. apply same_but_faults_refl.
  - destruct err as [e|]; [unfold ret; intros [= <- <-]; apply same_but_faults_refl|].
    unfold bind at 1. destruct (next_fault w) as [f w1] eqn:E1.
    apply next_fault_same in E1.
    destruct f.
    { destruct (fn path true _ acc1) as [acc2 [e|]]; unfold ret; by intros [= <- <-]. }
    clear acc. revert acc1 w w1 E1 r w'.
    induction IH as [|d1 rest Hd1 _ IHrest]; intros acc w w1 E1 r w'; cbn [walkEntries].
    + unfold ret. by intros [= <- <-].
    + unfold bind at 1.
      destruct (walkDir fn _ d1 acc w1) as [[acc' [e|]] w2] eqn:E2;
        apply Hd1 in E2.
      * destruct (isSkipDir e); unfold ret; intros [= <- <-];
          eauto using same_but_faults_trans.
      * intros E3. eapply (IHrest acc' w w2); [|exact E3].
        eauto using same_but_faults_trans.
Qed.

Lemma next_fault_inputs w1 w2 :
  faults w1 = faults w2 ->
  fst (next_fault w1) = fst (next_fault w2) /\
  faults (snd (next_fault w1)) = faults (snd (next_fault w2)).
Proof.
  unfold next_fault. intros Hf. rewrite <- Hf.
  destruct (faults w1) eqn:E; simpl; split; congruence.
Qed.

Lemma walkEntries_inputs (rec : string -> DirTree -> A -> M (A * option error)) path es :
  Forall (inputs_only rec) es ->
  forall acc w1 w2, faults w1 = faults w2 ->
    fst (walkEntries rec path es acc w1) = fst (walkEntries rec path es acc w2) /\
    faults (snd (walkEntries rec path es acc w1))
    = faults (snd (walkEntries rec path es acc w2)).
Proof.
  induction 1 as [|d1 rest Hd1 _ IHrest]; intros acc w1 w2 Hf; cbn [walkEntries]; [done|].
  unfold bind.
  destruct (Hd1 (filepath_Join path (entryName d1)) acc w1 w2 Hf) as [R1 R2].
  destruct (rec _ d1 acc w1) as [[acc' e1] wa].
  destruct (rec _ d1 acc w2) as [[acc'' e2] wb].
  simpl in R1, R2. injection R1 as <- <-.
  destruct e1 as [e|]; [by destruct (isSkipDir e)|].
  by apply IHrest.
Qed.

(** The result of a walk is decided by the tree being walked and by how the
    coming calls fare. *)
Lemma walkDir_inputs (d : DirTree) : inputs_only (walkDir fn) d.
Proof.
  induction d as [n|n es IH] using DirTree_nested_ind; intros path acc w1 w2 Hf;
    cbn [walkDir]; destruct (fn path _ None acc) as [acc1 err].
  - done.
  - destruct err as [e|]; [done|].
    unfold bind. destruct (next_fault_inputs w1 w2 Hf) as [R1 R2].
    destruct (next_fault w1) as [f wa], (next_fault w2) as [f' wb].
    simpl in R1, R2. subst f'. destruct f.
    + by destruct (fn path true _ acc1) as [acc2 [e|]].
    + by apply walkEntries_inputs.
Qed.

End WalkFacts.

Section CollectFacts.
Context {flags : Flags} {libs : Libs}.

Lemma filepath_WalkDir_same {A} (fn : string -> bool -> option error -> A -> A * option error)
    root acc w r w' :
  filepath_WalkDir fn root acc w = (r, w') -> same_but_faults w w'.
Proof.
  unfold filepath_WalkDir, bind at 1. destruct (next_fault w) as [f w1] eqn:E1.
  apply next_fault_same in E1. unfold bind at 1. cbv beta.
  assert (Hfn : forall (x : A * option error) w2,
            same_but_faults w w2 ->
            (let (acc', o) := x in
             match o with
             | Some e => if isSkipDir e then ret (acc', None) else ret (acc', Some e)
             | None => ret (acc', None)
             end) w2 = (r, w') -> same_but_faults w w').
  { intros [acc' [e|]] w2 Hs; [destruct (isSkipDir e)|]; unfold ret; by intros [= <- <-]. }
  destruct f; [by apply Hfn|].
  destruct (fs w1 !! root) as [[data|es]|]; [| |by apply Hfn].
  - destruct (walkDir fn root (DFile root) acc w1) as [x w2] eqn:E2.
    apply walkDir_same in E2. apply Hfn. eauto using same_but_faults_trans.
  - destruct (walkDir fn root (DDir root es) acc w1) as [x w2] eqn:E2.
    apply walkDir_same in E2. apply Hfn. eauto using same_but_faults_trans.
Qed.

Lemma filepath_WalkDir_inputs {A} (fn : string -> bool -> option error -> A -> A * option error)
    root acc w1 w2 :
  same_inputs w1 w2 ->
  fst (filepath_WalkDir fn root acc w1) = fst (filepath_WalkDir fn root acc w2) /\
  faults (snd (filepath_WalkDir fn root acc w1))
  = faults (snd (filepath_WalkDir fn root acc w2)).
Proof.
  intros [Hfs Hf]. unfold filepath_WalkDir, bind.
  destruct (next_fault_inputs w1 w2 Hf) as [R1 R2].
  pose proof (next_fault_same w1 _ _ (surjective_pairing _)) as (Fa & _).
  pose proof (next_fault_same w2 _ _ (surjective_pairing _)) as (Fb & _).
  destruct (next_fault w1) as [f wa], (next_fault w2) as [f' wb].
  cbn [fst snd] in *. subst f'. rewrite Fa, Fb, <- Hfs.
  assert (Hpost : forall (x : A * option error) wc wd,
            faults wc = faults wd ->
            fst ((let (acc', o) := x in
                  match o with
                  | Some e => if isSkipDir e then ret (acc', None) else ret (acc', Some e)
                  | None => ret (acc', None)
                  end) wc)
            = fst ((let (acc', o) := x in
                    match o with
                    | Some e => if isSkipDir e then ret (acc', None) else ret (acc', Some e)
                    | None => ret (acc', None)
                    end) wd) /\
            faults (snd ((let (acc', o) := x in
                  match o with
                  | Some e => if isSkipDir e then ret (acc', None) else ret (acc', Some e)
                  | None => ret (acc', None)
                  end) wc))
            = faults (snd ((let (acc', o) := x in
                    match o with
                    | Some e => if isSkipDir e then ret (acc', None) else ret (acc', Some e)
                    | None => ret (acc', None)
                    end) wd))).
  { intros [acc' [e|]] wc wd Hcd; [destruct (isSkipDir e)|]; by unfold ret. }
  assert (Hin : forall d,
            fst (walkDir fn root d acc wa) = fst (walkDir fn root d acc wb) /\
            faults (snd (walkDir fn root d acc wa)) = faults (snd (walkDir fn root d acc wb)))
    by (intros d; by apply walkDir_inputs).
  destruct f; [by apply Hpost|].
  destruct (fs w1 !! root) as [[data|es]|]; [| |by apply Hpost].
  - destruct (Hin (DFile root)) as [Q1 Q2].
    destruct (walkDir fn root (DFile root) acc wa) as [x1 wc],
             (walkDir fn root (DFile root) acc wb) as [x2 wd].
    cbn [fst snd] in Q1, Q2. subst x2. by apply Hpost.
  - destruct (Hin (DDir root es)) as [Q1 Q2].
    destruct (walkDir fn root (DDir root es) acc wa) as [x1 wc],
             (walkDir fn root (DDir root es) acc wb) as [x2 wd].
    cbn [fst snd] in Q1, Q2. subst x2. by apply Hpost.
Qed.

(** Discovery reads; it changes nothing but the list of coming faults. *)
Lemma collect_same inc exc w r w' :
  collect inc exc w = (r, w') -> same_but_faults w w'.
Proof.
  unfold collect, bind at 1. destruct (os_Stat inputPath w) as [st w1] eqn:E1.
  apply os_Stat_same in E1. destruct st as [[|]|e].
  - unfold bind at 1.
    destruct (filepath_WalkDir _ inputPath [] w1) as [[files e] w2] eqn:E2.
    apply filepath_WalkDir_same in E2.
    destruct e; unfold ret; intros [= <- <-]; eauto using same_but_faults_trans.
  - unfold ret. by intros [= <- <-].
  - unfold ret. by intros [= <- <-].
Qed.

(** The candidate list is decided by the tree and by how the calls fare. *)
Lemma collect_inputs inc exc w1 w2 :
  same_inputs w1 w2 -> fst (collect inc exc w1) = fst (collect inc exc w2).
Proof.
  intros [Hfs Hf]. unfold collect, bind at 1 3.
  pose proof (os_Stat_same inputPath w1 _ _ (surjective_pairing _)) as (Fa & _).
  pose proof (os_Stat_same inputPath w2 _ _ (surjective_pairing _)) as (Fb & _).
  assert (Hst : fst (os_Stat inputPath w1) = fst (os_Stat inputPath w2) /\
                faults (snd (os_Stat inputPath w1)) = faults (snd (os_Stat inputPath w2))).
  { unfold os_Stat, bind. destruct (next_fault_inputs w1 w2 Hf) as [R1 R2].
    pose proof (next_fault_same w1 _ _ (surjective_pairing _)) as (Fc & _).
    pose proof (next_fault_same w2 _ _ (surjective_pairing _)) as (Fd & _).
    destruct (next_fault w1) as [f wa], (next_fault w2) as [f' wb]. cbn [fst snd] in *.
    subst f'. rewrite Fc, Fd, <- Hfs. by destruct f, (fs w1 !! inputPath). }
  destruct Hst as [R1 R2].
  destruct (os_Stat inputPath w1) as [st wa], (os_Stat inputPath w2) as [st' wb].
  cbn [fst snd] in *. subst st'. destruct st as [[|]|e]; [|done..].
  unfold bind.
  destruct (filepath_WalkDir_inputs (visit inc exc) inputPath [] wa wb) as [Q1 Q2].
  { split; congruence. }
  destruct (filepath_WalkDir _ inputPath [] wa) as [[a1 e1] wc],
           (filepath_WalkDir _ inputPath [] wb) as [[a2 e2] wd].
  cbn [fst snd] in *. injection Q1 as <- <-. by destruct e1.
Qed.

Lemma visit_file inc exc p files :
  visit inc exc p false None files
  = (if selected inc exc p then files ++ [p] else files, None).
Proof.
  unfold visit, selected, lowerExt.
  destruct (_ && negb _); [done|]. destruct (index exc _); [done|].
  by destruct (isSupportedExt _).
Qed.

(** With no fault coming, a walk appends exactly the selected files of the
    tree, in walk order. *)
Lemma walkDir_visit_runs inc exc (d : DirTree) : forall path acc w,
  faults w = [] ->
  walkDir (visit inc exc) path d acc w
  = ((acc ++ filter (fun p => selected inc exc p = true) (treeFiles path d), None), w).
Proof.
  induction d as [n|n es IH] using DirTree_nested_ind; intros path acc w Hf;
    cbn [walkDir entryIsDir treeFiles].
  - rewrite visit_file. unfold ret. rewrite filter_cons, filter_nil.
    destruct (selected inc exc path); [by rewrite decide_True | rewrite decide_False by done].
    by rewrite app_nil_r.
  - cbn [visit]. unfold bind at 1. rewrite (next_fault_nil w Hf).
    revert acc. induction IH as [|d1 rest Hd1 _ IHrest]; intros acc; cbn [walkEntries map concat].
    + by rewrite filter_nil, app_nil_r.
    + unfold bind at 1. rewrite (Hd1 _ acc w Hf). rewrite IHrest.
      by rewrite filter_app, app_assoc.
Qed.

Lemma printFiles_spec files w :
  printFiles files w = (tt, set_stdout (rev (map (fun f => "-  " +:+ f) files) ++ stdout w) w).
Proof.
  revert w. induction files as [|f rest IH]; intros w; cbn [printFiles].
  - unfold ret. by destruct w.
  - unfold bind, fmt_Println. rewrite IH. f_equal.
    unfold set_stdout. cbn. by rewrite <- app_assoc.
Qed.

End CollectFacts.

Section DryRun.
Context {flags : Flags} {libs : Libs}.

(** With no fault coming, the candidates of a directory are the selected
    files of its tree, in walk order. *)
Lemma collect_dir_runs (w : World) (entries : list DirTree) (inc exc : gmap string bool) :
  faults w = [] -> fs w !! inputPath = Some (Dir entries) ->
  collect inc exc w
  = (Ok (filter (fun p => selected inc exc p = true)
                (treeFiles inputPath (DDir inputPath entries))), w).
Proof.
  intros Hf Hd. unfold collect, bind at 1, os_Stat, bind at 1.
  rewrite (next_fault_nil w Hf), Hd. cbn [isDir].
  unfold bind at 1, filepath_WalkDir, bind at 1. rewrite (next_fault_nil w Hf).
  unfold bind at 1. rewrite Hd, (walkDir_visit_runs _ _ _ _ _ w Hf). done.
Qed.

(** C8.  In dry-run mode [main] leaves the tree as it is and makes no call
    that creates, writes, renames or removes; when discovery yields a
    non-empty candidate list, it prints the count and then exactly the
    candidates, in order, and returns; for a directory and with no failing
    call the candidates are the files of the tree that the classifier
    selects; and two runs on the same tree whose calls fare alike end alike
    and print the same lines. *)
Theorem dry_run_is_pure (sched : list Tid) (w : World) :
  dryRun = true ->
  (fs (snd (main sched w)) = fs w /\ trace (snd (main sched w)) = trace w) /\
  (forall files wc,
     inputPath <> "" ->
     collect (toSet includeExt) (toSet excludeExt) w = (Ok files, wc) ->
     files <> [] ->
     fst (main sched w) = Returned /\
     stdout (snd (main sched w)) = dryRunLines files ++ stdout w) /\
  (forall entries,
     faults w = [] -> fs w !! inputPath = Some (Dir entries) ->
     fst (collect (toSet includeExt) (toSet excludeExt) w)
     = Ok (filter (fun p => selected (toSet includeExt) (toSet excludeExt) p = true)
                  (treeFiles inputPath (DDir inputPath entries)))) /\
  (forall sched2 w2,
     same_inputs w w2 ->
     fst (main sched w) = fst (main sched2 w2) /\
     exists out, stdout (snd (main sched w)) = out ++ stdout w /\
                 stdout (snd (main sched2 w2)) = out ++ stdout w2).
Proof.
  intros Hdry.
  assert (Hshape : forall s v,
    (inputPath = "" /\ main s v = (Exited 2, set_stdout (usage :: stdout v) v)) \/
    (inputPath <> "" /\
     exists r vc, collect (toSet includeExt) (toSet excludeExt) v = (r, vc) /\
       match r with
       | Err err => main s v = (Exited 1, set_stderr (LogFatal err :: stderr vc) vc)
       | Ok [] => main s v = (Returned,
                    set_stdout ("没有匹配到可处理的文件。" :: stdout vc) vc)
       | Ok files => main s v = (Returned, set_stdout (dryRunLines files ++ stdout vc) vc)
       end)).
  { intros s v. destruct (decide (inputPath = "")) as [Hp|Hp].
    { left. split; [done|]. unfold main. by rewrite bool_decide_eq_true_2. }
    right. split; [done|].
    destruct (collect (toSet includeExt) (toSet excludeExt) v) as [r vc] eqn:Ec.
    exists r, vc. split; [done|].
    assert (Hm : main s v
                 = match r with
                   | Ok files =>
                       if bool_decide (length files = 0%nat)
                       then (fmt_Println "没有匹配到可处理的文件。" ;;; ret Returned)%go
                       else (fmt_Println ("发现 " +:+ pretty (Z.of_nat (length files))
                                          +:+ " 个待处理文件。") ;;;
                             printFiles files ;;; ret Returned)%go
                   | Err err => (log_Print (LogFatal err) ;;; ret (Exited 1))%go
                   end vc).
    { unfold main. rewrite bool_decide_eq_false_2 by done.
      unfold bind at 1. rewrite Ec. destruct r as [files|err]; [|done].
      by rewrite Hdry. }
    rewrite Hm. clear Hm.
    destruct r as [files|err]; [|done].
    destruct files as [|f rest]; [done|].
    rewrite bool_decide_eq_false_2 by done.
    unfold bind at 1, fmt_Println. unfold bind at 1.
    rewrite printFiles_spec. unfold ret. f_equal.
    unfold set_stdout, dryRunLines. cbn [stdout fs now faults trace stderr].
    by rewrite <- app_assoc. }
  split_and!.
  - destruct (Hshape sched w) as [[_ ->] | (_ & r & vc & Hc & Hm)]; [done|].
    apply collect_same in Hc as (Fc & Tc & _).
    destruct r as [[|f rest]|err]; rewrite Hm; by cbn.
  - destruct (Hshape sched w) as [[_ ->] | (_ & r & vc & Hc & Hm)]; [done|].
    apply collect_same in Hc as (Fc & Tc & _).
    destruct r as [[|f rest]|err]; rewrite Hm; by cbn.
  - intros files wc Hne Hc Hfiles.
    destruct (Hshape sched w) as [[? _] | (_ & r & vc & Hc' & Hm)]; [done|].
    rewrite Hc in Hc'. injection Hc' as <- <-.
    apply collect_same in Hc as (_ & _ & _ & Oc & _).
    destruct files as [|f rest]; [done|]. rewrite Hm. cbn [fst snd].
    split; [done|]. unfold set_stdout. cbn [stdout]. by rewrite Oc.
  - intros entries Hf Hd. by rewrite (collect_dir_runs w entries _ _ Hf Hd).
  - intros sched2 w2 Hsame.
    pose proof (collect_inputs (toSet includeExt) (toSet excludeExt) w w2 Hsame) as Hin.
    destruct (Hshape sched w) as [[He Hm] | (Hne & r & vc & Hc & Hm)].
    + destruct (Hshape sched2 w2) as [[_ Hm2] | [? _]]; [|done].
      rewrite Hm, Hm2. split; [done|]. by exists [usage].
    + destruct (Hshape sched2 w2) as [[? _] | (_ & r2 & vc2 & Hc2 & Hm2)]; [done|].
      rewrite Hc, Hc2 in Hin. cbn [fst] in Hin. subst r2.
      apply collect_same in Hc as (_ & _ & _ & Oc & _).
      apply collect_same in Hc2 as (_ & _ & _ & Oc2 & _).
      destruct r as [[|f rest]|err]; rewrite Hm, Hm2; (split; [done|]);
        unfold set_stdout, set_stderr; cbn [fst snd stdout]; rewrite Oc, Oc2.
      * by exists ["没有匹配到可处理的文件。"].
      * by exists (dryRunLines (f :: rest)).
      * by exists [].
Qed.

End DryRun.

(** C8, at a sample input: a directory with four files, PNG excluded.  The
    dry run lists [a.docx] and [img/q.jpg] and changes nothing. *)
Lemma dry_run_is_pure_witness :
  dryRun (Flags := flagsDryRun) = true /\
  fs (snd (main (flags := flagsDryRun) (libs := sampleLibs) [] worldTree)) = fs worldTree /\
  stdout (snd (main (flags := flagsDryRun) (libs := sampleLibs) [] worldTree))
  = ["-  docs/img/q.jpg"; "-  docs/a.docx"; "发现 2 个待处理文件。"].
Proof.
  split; [reflexivity|].
  destruct (dry_run_is_pure (flags := flagsDryRun) (libs := sampleLibs) [] worldTree eq_refl)
    as ((Hfs & _) & _).
  split; [exact Hfs | by vm_compute].
Defined.

(* ===================================================================== *)
(** * The worker pool                                                     *)
(* ===================================================================== *)

Lemma sum_list_insert (f : Worker -> nat) (l : list Worker) (i : nat) (s s' : Worker) :
  l !! i = Some s ->
  (sum_list (f <$> <[i := s']> l) + f s = sum_list (f <$> l) + f s')%nat.
Proof.
  revert i. induction l as [|x l IH]; intros [|i] Hi; simplify_eq/=; [lia|].
  specialize (IH i Hi). lia.
Qed.

Lemma holds_insert (l : list Worker) (i : nat) (s s' : Worker) :
  l !! i = Some s ->
  concat (holds <$> <[i := s']> l) ++ holds s ≡ₚ concat (holds <$> l) ++ holds s'.
Proof.
  revert i. induction l as [|x l IH]; intros [|i] Hi; simplify_eq/=.
  - solve_Permutation.
  - rewrite <- !(assoc (++)). f_equiv. by apply IH.
Qed.

Lemma elem_of_insert_inv (l : list Worker) (i : nat) (s' x : Worker) :
  x ∈ <[i := s']> l -> x = s' \/ x ∈ l.
Proof.
  intros [j Hj]%list_elem_of_lookup.
  apply list_lookup_insert_Some in Hj as [(-> & -> & _) | (_ & Hj)]; [by left|].
  right. by eapply list_elem_of_lookup_2.
Qed.

Lemma elem_of_insert_old (l : list Worker) (i : nat) (s s' x : Worker) :
  l !! i = Some s -> x ∈ l -> x = s \/ x ∈ <[i := s']> l.
Proof.
  intros Hi [j Hj]%list_elem_of_lookup.
  destruct (decide (i = j)) as [->|Hne]; [left; congruence|].
  right. apply list_elem_of_lookup. exists j. by rewrite list_lookup_insert_ne.
Qed.

Lemma tally_le (c : Counter) (l : list (string * bool)) : (tally c l <= length l)%nat.
Proof. unfold tally. apply length_filter. Qed.

Lemma tally_cons (c : Counter) (f : string) (ok : bool) (l : list (string * bool)) :
  tally c ((f, ok) :: l)
  = (tally c l + adding c (WAdd (if ok then OkCount else FailCount) 1))%nat.
Proof.
  unfold tally. rewrite filter_cons. cbn [snd adding].
  destruct c, ok; repeat case_decide; simplify_eq/=; lia.
Qed.

Lemma wrap64_small (z : Z) : - 2 ^ 63 <= z < 2 ^ 63 -> wrap64 z = z.
Proof. intros Hz. unfold wrap64. rewrite Z.mod_small; lia. Qed.

Section PoolFacts.
Context {flags : Flags} {libs : Libs}.

(** The moves of a worker. *)
Lemma stepWorker_cases (i : nat) (p p' : Pool) (w w' : World) :
  stepWorker i p w = (p', w') ->
  p' = p \/
  (exists f rest, ws p !! i = Some WRecv /\ jobs p = f :: rest /\
     p' = set_worker i (WScrub f) (set_jobs rest p)) \/
  (ws p !! i = Some WRecv /\ jobs p = [] /\ closed p = true /\
     p' = set_worker i WDone p) \/
  (exists f (ok : bool), ws p !! i = Some (WScrub f) /\
     p' = set_worker i (WAdd (if ok then OkCount else FailCount) 1) (record f ok p)) \/
  (exists c d, ws p !! i = Some (WAdd c d) /\
     p' = set_worker i (WAddStore c d (load c p)) p) \/
  (exists c d v, ws p !! i = Some (WAddStore c d v) /\
     p' = set_worker i WRecv (store c (wrap64 (v + d)) p)).
Proof.
  unfold stepWorker. destruct (ws p !! i) as [[|f|c d|c d v|]|] eqn:Ei.
  - destruct (jobs p) as [|f rest] eqn:Ej.
    + destruct (closed p) eqn:Ec; unfold ret; intros [= <- <-]; [|by left].
      right; right; left. done.
    + unfold ret; intros [= <- <-]. right; left. eauto.
  - unfold bind at 1. destruct (scrubFile f w) as [[err|] w1].
    + unfold bind, log_Print, ret. intros [= <- <-].
      right; right; right; left. by exists f, false.
    + unfold bind at 1. destruct verbose; unfold log_Print, ret; intros [= <- <-];
        right; right; right; left; by exists f, true.
  - unfold ret; intros [= <- <-]. right; right; right; right; left. eauto.
  - unfold ret; intros [= <- <-]. right; right; right; right; right. eauto.
  - unfold ret; intros [= <- <-]. by left.
  - unfold ret; intros [= <- <-]. by left.
Qed.

(** The invariant holds at the start. *)
Lemma startPool_inv (files : list string) : PoolInv files (startPool files).
Proof.
  unfold startPool. split; cbn.
  - assert (E : concat (holds <$> replicate (Z.to_nat workers) WRecv) = []).
    { induction (Z.to_nat workers) as [|n IH]; [done|]. by cbn. }
    unfold tosend. cbn. by rewrite E.
  - split; [done|]. intros Hn. by destruct (Hn files).
  - by intros [[=] _]%elem_of_replicate.
  - by intros s [-> _]%elem_of_replicate.
  - intros c. assert (E : sum_list (adding c <$> replicate (Z.to_nat workers) WRecv) = 0%nat).
    { induction (Z.to_nat workers) as [|n IH]; [done|]. by cbn. }
    rewrite E. destruct c; cbn; lia.
  - by intros c d v [[=] _]%elem_of_replicate.
Qed.

Lemma stepMain_inv (files : list string) (p : Pool) :
  PoolInv files p -> PoolInv files (stepMain p).
Proof.
  intros Hinv. pose proof Hinv as [Hperm Hclosed Hdone Hdelta Hle Hread]. unfold stepMain.
  destruct (pc p) as [[|f rest]| |] eqn:Epc.
  - (* close(jobs) *)
    split; cbn; [| | |exact Hdelta|exact Hle|exact Hread].
    + unfold tosend in *. cbn. by rewrite Epc in Hperm.
    + split; [done|]. intros _. unfold set_pc, close_jobs. cbn. done.
    + intros Hd. split; [done | by apply Hdone].
  - (* jobs <- f *)
    assert (Hopen : closed p = false).
    { destruct (closed p) eqn:E; [|done]. by destruct (proj1 Hclosed eq_refl (f :: rest)). }
    split; cbn; [| | |exact Hdelta|exact Hle|exact Hread].
    + unfold tosend in *. cbn. rewrite Epc in Hperm. rewrite Hperm. solve_Permutation.
    + rewrite Hopen. split; [done|]. intros Hn. by destruct (Hn rest).
    + intros Hd. apply Hdone in Hd as [Hc _]. congruence.
  - (* wg.Wait() *)
    destruct (allDone (ws p)); [|exact Hinv].
    split; cbn; [| |exact Hdone|exact Hdelta|exact Hle|exact Hread].
    + unfold tosend in *. cbn. by rewrite Epc in Hperm.
    + split; [done|]. intros _. by apply Hclosed.
  - exact Hinv.
Qed.

Lemma load_store (c c0 : Counter) (x : Z) (p : Pool) :
  load c (store c0 x p) = if decide (c = c0) then x else load c p.
Proof. by destruct c, c0. Qed.

Lemma store_fields (c : Counter) (x : Z) (p : Pool) :
  scrubbed (store c x p) = scrubbed p /\ ws (store c x p) = ws p /\
  jobs (store c x p) = jobs p /\ pc (store c x p) = pc p /\
  closed (store c x p) = closed p.
Proof. by destruct c. Qed.

Lemma load_set_worker (c : Counter) (i : nat) (s : Worker) (p : Pool) :
  load c (set_worker i s p) = load c p.
Proof. by destruct c. Qed.

Lemma load_set_jobs (c : Counter) (l : list string) (p : Pool) :
  load c (set_jobs l p) = load c p.
Proof. by destruct c. Qed.

Lemma load_record (c : Counter) (f : string) (ok : bool) (p : Pool) :
  load c (record f ok p) = load c p.
Proof. by destruct c. Qed.

Local Arguments tally : simpl never.
Local Arguments load : simpl never.

Lemma scrubbed_le (files : list string) (p : Pool) :
  PoolInv files p -> (length (scrubbed p) <= length files)%nat.
Proof.
  intros [Hperm _ _ _ _ _]. apply Permutation_length in Hperm.
  rewrite Hperm, !length_app, length_fmap. lia.
Qed.

Lemma stepWorker_inv (files : list string) (i : nat) (p p' : Pool) (w w' : World) :
  Z.of_nat (length files) < 2 ^ 63 ->
  PoolInv files p -> stepWorker i p w = (p', w') -> PoolInv files p'.
Proof.
  intros Hbound Hinv Hstep. pose proof (scrubbed_le files p Hinv) as Hlen.
  pose proof Hinv as [Hperm Hclosed Hdone Hdelta Hle Hread].
  apply stepWorker_cases in Hstep
    as [-> | [(f & rest & Hi & Hj & ->) | [(Hi & Hj & Hc & ->) |
       [(f & ok & Hi & ->) | [(c0 & d & Hi & ->) | (c0 & d & v & Hi & ->)]]]]];
    [exact Hinv|..].
  - (* a job is received *)
    pose proof (holds_insert (ws p) i _ (WScrub f) Hi) as Hh.
    cbn [holds] in Hh. rewrite app_nil_r in Hh.
    split; cbn.
    + unfold tosend. cbn. fold (tosend p). rewrite Hh, Hperm, Hj. solve_Permutation.
    + exact Hclosed.
    + intros [[=] | Hd]%elem_of_insert_inv. apply Hdone in Hd as [_ Hd]. congruence.
    + intros s [-> | Hs]%elem_of_insert_inv; [done | by apply Hdelta].
    + intros c. pose proof (sum_list_insert (adding c) (ws p) i _ (WScrub f) Hi) as Hs.
      cbn [adding] in Hs. rewrite ?load_set_worker, ?load_set_jobs, ?load_record. destruct (Hle c). lia.
    + intros c d v [[=] | Hs]%elem_of_insert_inv.
      pose proof (sum_list_insert (adding c) (ws p) i _ (WScrub f) Hi) as Hsum.
      cbn [adding] in Hsum. destruct (Hread c d v Hs). lia.
  - (* the channel is closed and empty: the worker leaves *)
    pose proof (holds_insert (ws p) i _ WDone Hi) as Hh.
    cbn [holds] in Hh. rewrite !app_nil_r in Hh.
    split; cbn.
    + unfold tosend. cbn. fold (tosend p). by rewrite Hh.
    + exact Hclosed.
    + done.
    + intros s [-> | Hs]%elem_of_insert_inv; [done | by apply Hdelta].
    + intros c. pose proof (sum_list_insert (adding c) (ws p) i _ WDone Hi) as Hs.
      cbn [adding] in Hs. rewrite ?load_set_worker, ?load_set_jobs, ?load_record. destruct (Hle c). lia.
    + intros c d v [[=] | Hs]%elem_of_insert_inv.
      pose proof (sum_list_insert (adding c) (ws p) i _ WDone Hi) as Hsum.
      cbn [adding] in Hsum. destruct (Hread c d v Hs). lia.
  - (* scrubFile returns *)
    set (c0 := if ok then OkCount else FailCount).
    pose proof (holds_insert (ws p) i _ (WAdd c0 1) Hi) as Hh.
    cbn [holds] in Hh. rewrite app_nil_r in Hh.
    split; cbn.
    + unfold tosend. cbn. fold (tosend p). rewrite Hperm, <- Hh. solve_Permutation.
    + exact Hclosed.
    + intros [[=] | Hd]%elem_of_insert_inv. by apply Hdone.
    + intros s [-> | Hs]%elem_of_insert_inv; [done | by apply Hdelta].
    + intros c. pose proof (sum_list_insert (adding c) (ws p) i _ (WAdd c0 1) Hi) as Hs.
      rewrite tally_cons. fold c0. cbn [adding] in Hs |- *.
      rewrite ?load_set_worker, ?load_set_jobs, ?load_record. destruct (Hle c). lia.
    + intros c d v [[=] | Hs]%elem_of_insert_inv.
      pose proof (sum_list_insert (adding c) (ws p) i _ (WAdd c0 1) Hi) as Hsum.
      rewrite tally_cons. fold c0. cbn [adding] in Hsum |- *.
      destruct (Hread c d v Hs). lia.
  - (* add reads the counter *)
    pose proof (holds_insert (ws p) i _ (WAddStore c0 d (load c0 p)) Hi) as Hh.
    cbn [holds] in Hh. rewrite !app_nil_r in Hh.
    assert (Hd : d = 1) by (apply (Hdelta (WAdd c0 d)); by eapply list_elem_of_lookup_2).
    split; cbn.
    + unfold tosend. cbn. fold (tosend p). by rewrite Hh.
    + exact Hclosed.
    + intros [[=] | Hdn]%elem_of_insert_inv. by apply Hdone.
    + intros s [-> | Hs]%elem_of_insert_inv; [done | by apply Hdelta].
    + intros c.
      pose proof (sum_list_insert (adding c) (ws p) i _ (WAddStore c0 d (load c0 p)) Hi) as Hs.
      cbn [adding] in Hs. rewrite ?load_set_worker, ?load_set_jobs, ?load_record. destruct (Hle c). lia.
    + intros c d' v Hin.
      pose proof (sum_list_insert (adding c) (ws p) i _ (WAddStore c0 d (load c0 p)) Hi)
        as Hsum.
      cbn [adding] in Hsum.
      apply elem_of_insert_inv in Hin as [[= -> -> ->] | Hs].
      * destruct (Hle c0). lia.
      * destruct (Hread c d' v Hs). lia.
  - (* add writes the sum *)
    pose proof (holds_insert (ws p) i _ WRecv Hi) as Hh.
    cbn [holds] in Hh. rewrite !app_nil_r in Hh.
    assert (Hin0 : WAddStore c0 d v ∈ ws p) by (by eapply list_elem_of_lookup_2).
    assert (Hd : d = 1) by (by apply (Hdelta (WAddStore c0 d v))).
    destruct (Hread c0 d v Hin0) as [Hv0 Hv1].
    pose proof (sum_list_insert (adding c0) (ws p) i _ WRecv Hi) as Hs0.
    cbn [adding] in Hs0. rewrite decide_True in Hs0 by done.
    pose proof (tally_le c0 (scrubbed p)) as Ht.
    assert (Hw : wrap64 (v + d) = v + 1) by (subst d; apply wrap64_small; lia).
    rewrite Hw.
    assert (Efields : scrubbed (store c0 (v + 1) p) = scrubbed p /\
                      ws (store c0 (v + 1) p) = ws p /\
                      jobs (store c0 (v + 1) p) = jobs p /\
                      pc (store c0 (v + 1) p) = pc p /\
                      closed (store c0 (v + 1) p) = closed p) by (by destruct c0).
    destruct Efields as (Es & Ew & Ej & Ep & Ec).
    split; cbn; rewrite ?Es, ?Ew, ?Ej, ?Ec.
    + unfold tosend. cbn. rewrite Ep. fold (tosend p). by rewrite Hh.
    + by rewrite Ep.
    + intros [[=] | Hdn]%elem_of_insert_inv. by apply Hdone.
    + intros s [-> | Hs]%elem_of_insert_inv; [done | by apply Hdelta].
    + intros c. pose proof (sum_list_insert (adding c) (ws p) i _ WRecv Hi) as Hs.
      cbn [adding] in Hs.
      rewrite load_set_worker, load_store. destruct (Hle c).
      destruct (decide (c = c0)) as [->|Hne].
      * rewrite decide_True in Hs by done. lia.
      * rewrite decide_False in Hs by done. lia.
    + intros c d' v' [[=] | Hs]%elem_of_insert_inv.
      pose proof (sum_list_insert (adding c) (ws p) i _ WRecv Hi) as Hsum.
      cbn [adding] in Hsum. destruct (Hread c d' v' Hs). lia.
Qed.

Lemma step_inv (files : list string) (t : Tid) (p p' : Pool) (w w' : World) :
  Z.of_nat (length files) < 2 ^ 63 ->
  PoolInv files p -> step t p w = (p', w') -> PoolInv files p'.
Proof.
  intros Hb Hinv. destruct t as [|i]; cbn [step].
  - unfold ret. intros [= <- <-]. by apply stepMain_inv.
  - by apply stepWorker_inv.
Qed.

Lemma run_inv (files : list string) (sched : list Tid) : forall p p' w w',
  Z.of_nat (length files) < 2 ^ 63 ->
  PoolInv files p -> run sched p w = (p', w') -> PoolInv files p'.
Proof.
  induction sched as [|t rest IH]; intros p p' w w' Hb Hinv; cbn [run].
  - unfold ret. by intros [= <- <-].
  - unfold bind. destruct (step t p w) as [p1 w1] eqn:E1. intros E2.
    eapply IH; [done | | exact E2]. by eapply step_inv.
Qed.

Lemma allDone_spec (l : list Worker) :
  allDone l = true <-> forall s, s ∈ l -> s = WDone.
Proof.
  unfold allDone. rewrite forallb_forall. split.
  - intros Hall s Hs. apply list_elem_of_In in Hs. specialize (Hall s Hs). by destruct s.
  - intros Hall s Hs. apply list_elem_of_In in Hs. by rewrite (Hall s Hs).
Qed.

Lemma allDone_sums (l : list Worker) :
  allDone l = true ->
  concat (holds <$> l) = [] /\ forall c, sum_list (adding c <$> l) = 0%nat.
Proof.
  rewrite allDone_spec. induction l as [|s l IH]; intros Hall; [done|].
  rewrite (Hall s) by left. cbn. apply IH. intros x Hx. apply Hall. by right.
Qed.

Lemma startPool_settled (files : list string) :
  Settled (Z.to_nat workers) (startPool files).
Proof. split; cbn; [by rewrite length_replicate | done]. Qed.

Lemma step_settled (n : nat) (t : Tid) (p p' : Pool) (w w' : World) :
  Settled n p -> step t p w = (p', w') -> Settled n p'.
Proof.
  intros [Hlen Hdone]. destruct t as [|i]; cbn [step].
  - unfold ret, stepMain. intros [= <- <-].
    destruct (pc p) as [[|f rest]| |] eqn:Epc.
    + by split.
    + by split.
    + destruct (allDone (ws p)) eqn:E; split; cbn; [done | done | done | congruence].
    + split; [done|]. intros _. by apply Hdone.
  - intros Hstep. apply stepWorker_cases in Hstep
      as [-> | [(f & rest & Hi & Hj & ->) | [(Hi & Hj & Hc & ->) |
         [(f & ok & Hi & ->) | [(c0 & d & Hi & ->) | (c0 & d & v & Hi & ->)]]]]];
      [done|..].
    all: try destruct (store_fields c0 (wrap64 (v + d)) p) as (_ & Ew & _ & Ep & _).
    all: split; [by cbn; rewrite ?Ew, length_insert|].
    all: intros Hpc;
      assert (Hpc' : pc p = MDone) by (revert Hpc; cbn; by rewrite ?Ep).
    all: apply Hdone in Hpc'; rewrite allDone_spec in Hpc'.
    all: try (by specialize (Hpc' _ (list_elem_of_lookup_2 _ _ _ Hi))).
Qed.

Lemma run_settled (n : nat) (sched : list Tid) : forall p p' w w',
  Settled n p -> run sched p w = (p', w') -> Settled n p'.
Proof.
  induction sched as [|t rest IH]; intros p p' w w' Hs; cbn [run].
  - unfold ret. by intros [= <- <-].
  - unfold bind. destruct (step t p w) as [p1 w1] eqn:E1. intros E2.
    eapply IH; [|exact E2]. by eapply step_settled.
Qed.


Lemma elem_of_insert_index (l : list Worker) (i : nat) (s' x : Worker) :
  x ∈ <[i := s']> l -> x = s' \/ exists j, j <> i /\ l !! j = Some x.
Proof.
  intros [j Hj]%list_elem_of_lookup.
  apply list_lookup_insert_Some in Hj as [(-> & -> & _) | (Hne & Hj)]; [by left|].
  right. exists j. split; [done | exact Hj].
Qed.

Lemma startPool_exact (files : list string) : Exact (startPool files).
Proof.
  split; cbn.
  - intros c.
    assert (E : sum_list (adding c <$> replicate (Z.to_nat workers) WRecv) = 0%nat).
    { induction (Z.to_nat workers) as [|n IH]; [done|]. by cbn. }
    rewrite E. by destruct c.
  - by intros c d v [[=] _]%elem_of_replicate.
Qed.

(** A step keeps the counters exact when no two adds overlap before it or
    after it. *)
Lemma step_exact (files : list string) (t : Tid) (p p' : Pool) (w w' : World) :
  Z.of_nat (length files) < 2 ^ 63 ->
  PoolInv files p -> Exact p -> exclusive p ->
  step t p w = (p', w') -> Exact p'.
Proof.
  intros Hbound Hinv [Hsum Hval] Hex.
  pose proof (scrubbed_le files p Hinv) as Hlen.
  destruct t as [|i]; cbn [step].
  { unfold ret, stepMain. intros [= <- <-].
    destruct (pc p) as [[|f rest]| |]; try destruct (allDone (ws p)); by split. }
  intros Hstep. apply stepWorker_cases in Hstep
    as [-> | [(f & rest & Hi & Hj & ->) | [(Hi & Hj & Hc & ->) |
       [(f & ok & Hi & ->) | [(c0 & d & Hi & ->) | (c0 & d & v & Hi & ->)]]]]];
    [by split|..].
  - split; cbn.
    + intros c. pose proof (sum_list_insert (adding c) (ws p) i _ (WScrub f) Hi) as Hs.
      cbn [adding] in Hs. rewrite load_set_worker, load_set_jobs. specialize (Hsum c). lia.
    + intros c d v [[=] | Hs]%elem_of_insert_inv.
      rewrite load_set_worker, load_set_jobs. by eapply Hval.
  - split; cbn.
    + intros c. pose proof (sum_list_insert (adding c) (ws p) i _ WDone Hi) as Hs.
      cbn [adding] in Hs. rewrite load_set_worker. specialize (Hsum c). lia.
    + intros c d v [[=] | Hs]%elem_of_insert_inv.
      rewrite load_set_worker. by eapply Hval.
  - set (c0 := if ok then OkCount else FailCount). split; cbn.
    + intros c. pose proof (sum_list_insert (adding c) (ws p) i _ (WAdd c0 1) Hi) as Hs.
      rewrite tally_cons. fold c0. cbn [adding] in Hs |- *.
      rewrite load_set_worker, load_record. specialize (Hsum c). lia.
    + intros c d v [[=] | Hs]%elem_of_insert_inv.
      rewrite load_set_worker, load_record. by eapply Hval.
  - split; cbn.
    + intros c.
      pose proof (sum_list_insert (adding c) (ws p) i _ (WAddStore c0 d (load c0 p)) Hi) as Hs.
      cbn [adding] in Hs. rewrite load_set_worker. specialize (Hsum c). lia.
    + intros c d' v [[= -> -> ->] | Hs]%elem_of_insert_inv; rewrite load_set_worker;
        [done | by eapply Hval].
  - assert (Hin0 : WAddStore c0 d v ∈ ws p) by (by eapply list_elem_of_lookup_2).
    assert (Hd : d = 1) by (by apply (inv_delta _ _ Hinv (WAddStore c0 d v))).
    destruct (inv_read _ _ Hinv c0 d v Hin0) as [Hv0 Hv1].
    pose proof (tally_le c0 (scrubbed p)) as Ht.
    pose proof (sum_list_insert (adding c0) (ws p) i _ WRecv Hi) as Hs0.
    cbn [adding] in Hs0. rewrite decide_True in Hs0 by done.
    assert (Hw : wrap64 (v + d) = v + 1) by (subst d; apply wrap64_small; lia).
    rewrite Hw. destruct (store_fields c0 (v + 1) p) as (Es & Ew & _).
    split; cbn; rewrite ?Es, ?Ew.
    + intros c. pose proof (sum_list_insert (adding c) (ws p) i _ WRecv Hi) as Hs.
      cbn [adding] in Hs. rewrite load_set_worker, load_store.
      specialize (Hsum c). pose proof (Hval c0 d v Hin0) as Hv.
      destruct (decide (c = c0)) as [->|Hne].
      * rewrite decide_True in Hs by done. lia.
      * rewrite decide_False in Hs by done. lia.
    + intros c d' v' [[=] | (j & Hne & Hj)]%elem_of_insert_index.
      by destruct (Hne (eq_sym (Hex i j _ _ Hi Hj I I))).
Qed.

Lemma run_exact (files : list string) (sched : list Tid) : forall p p' w w',
  Z.of_nat (length files) < 2 ^ 63 ->
  PoolInv files p -> Exact p -> exclusive_run sched p w ->
  run sched p w = (p', w') -> Exact p'.
Proof.
  induction sched as [|t rest IH]; intros p p' w w' Hb Hinv Hexact; cbn [run exclusive_run].
  - unfold ret. by intros _ [= <- <-].
  - unfold bind. destruct (step t p w) as [p1 w1] eqn:E1. intros [Hex Hrest] E2.
    eapply IH; [done | | | exact Hrest | exact E2].
    + by eapply step_inv.
    + by eapply step_exact.
Qed.

Lemma step_length (t : Tid) (p p' : Pool) (w w' : World) :
  step t p w = (p', w') -> length (ws p') = length (ws p).
Proof.
  destruct t as [|i]; cbn [step].
  - unfold ret, stepMain. intros [= <- <-].
    destruct (pc p) as [[|f rest]| |]; try destruct (allDone (ws p)); done.
  - intros Hstep. apply stepWorker_cases in Hstep
      as [-> | [(f & rest & Hi & Hj & ->) | [(Hi & Hj & Hc & ->) |
         [(f & ok & Hi & ->) | [(c0 & d & Hi & ->) | (c0 & d & v & Hi & ->)]]]]];
      [done|..].
    all: try destruct (store_fields c0 (wrap64 (v + d)) p) as (_ & Ew & _).
    all: by cbn; rewrite ?Ew, length_insert.
Qed.

(** With one worker, or none, no two adds can overlap. *)
Lemma exclusive_run_single (sched : list Tid) : forall p w,
  (length (ws p) <= 1)%nat -> exclusive_run sched p w.
Proof.
  assert (Hone : forall p, (length (ws p) <= 1)%nat -> exclusive p).
  { intros p Hlen i j s t Hi Hj _ _.
    apply lookup_lt_Some in Hi, Hj. lia. }
  induction sched as [|t rest IH]; intros p w Hlen; cbn [exclusive_run];
    (split; [by apply Hone|]); [done|].
  destruct (step t p w) as [p1 w1] eqn:E1. apply IH.
  by rewrite (step_length _ _ _ _ _ E1).
Qed.









(** C7.  [add] reads and writes the counter with nothing between the two to
    keep another worker out, so a count can fall short of the outcomes but
    never exceeds them; when no two workers are inside [add] at the same
    time, which is what a lock around it would enforce and what a single
    worker gives for free, both counts are the numbers of outcomes once
    [wg.Wait()] has returned. *)
Theorem counters_exact_when_adds_exclusive
    (files : list string) (sched : list Tid) (w : World) :
  Z.of_nat (length files) < 2 ^ 63 ->
  let p := fst (run sched (startPool files) w) in
  (forall c, 0 <= load c p <= Z.of_nat (tally c (scrubbed p))) /\
  (exclusive_run sched (startPool files) w -> pc p = MDone ->
     okCount p = Z.of_nat (tally OkCount (scrubbed p)) /\
     failCount p = Z.of_nat (tally FailCount (scrubbed p))) /\
  (workers <= 1 -> exclusive_run sched (startPool files) w).
Proof.
  intros Hb p. destruct (run sched (startPool files) w) as [p' w'] eqn:Hrun.
  subst p. cbn [fst].
  pose proof (run_inv files sched _ _ _ _ Hb (startPool_inv files) Hrun) as Hinv.
  pose proof (run_settled _ sched _ _ _ _ (startPool_settled files) Hrun) as Hset.
  split_and!.
  - intros c. destruct (inv_le _ _ Hinv c) as [H0 Hle]. lia.
  - intros Hex Hpc.
    pose proof (run_exact files sched _ _ _ _ Hb (startPool_inv files)
                  (startPool_exact files) Hex Hrun) as [Hsum _].
    destruct (allDone_sums _ (proj2 Hset Hpc)) as [_ Hz].
    pose proof (Hsum OkCount) as Hok. pose proof (Hsum FailCount) as Hfail.
    rewrite Hz in Hok, Hfail. unfold load in Hok, Hfail. lia.
  - intros Hw. apply exclusive_run_single. cbn [startPool ws].
    rewrite length_replicate. lia.
Qed.


End PoolFacts.

(** C7, at a sample input: one worker, two PDFs without [--with-pdf].  The
    adds are exclusive and both failures are counted. *)
Lemma counters_exact_when_adds_exclusive_witness :
  Z.of_nat (length ["a.pdf"; "b.pdf"]) < 2 ^ 63 /\
  exclusive_run (flags := flagsOneWorker) (libs := sampleLibs)
    (schedLostFail ++ schedLostFail) (startPool (flags := flagsOneWorker) ["a.pdf"; "b.pdf"])
    worldPdfs /\
  forall c, 0 <= load c (fst (run (flags := flagsOneWorker) (libs := sampleLibs)
                           (schedLostFail ++ schedLostFail)
                           (startPool (flags := flagsOneWorker) ["a.pdf"; "b.pdf"]) worldPdfs))
            <= 2.
Proof.
  assert (Hb : Z.of_nat (length ["a.pdf"; "b.pdf"]) < 2 ^ 63) by (vm_compute; reflexivity).
  destruct (counters_exact_when_adds_exclusive (flags := flagsOneWorker) (libs := sampleLibs)
              ["a.pdf"; "b.pdf"] (schedLostFail ++ schedLostFail) worldPdfs Hb)
    as (Hle & _ & Hex).
  split; [exact Hb|]. split.
  - apply Hex. vm_compute. discriminate.
  - intros c. specialize (Hle c).
    assert (Ht : (tally c (scrubbed (fst (run (flags := flagsOneWorker) (libs := sampleLibs)
                    (schedLostFail ++ schedLostFail)
                    (startPool (flags := flagsOneWorker) ["a.pdf"; "b.pdf"]) worldPdfs)))
                  <= 2)%nat).
    { destruct c; vm_compute; lia. }
    lia.
Defined.

(** C7 fails on the code: two workers, two PDFs that both fail; each worker
    reads [failCount] before the other has written it, and the pool ends
    with two failures and a count of one. *)
Lemma lost_update_counterexample :
  let p := fst (run (flags := flagsPool) (libs := sampleLibs) schedLostFail
                  (startPool (flags := flagsPool) ["a.pdf"; "b.pdf"]) worldPdfs) in
  pc p = MDone /\
  scrubbed p = [("b.pdf", false); ("a.pdf", false)] /\
  failCount p = 1 /\
  failCount p <> Z.of_nat (tally FailCount (scrubbed p)) /\
  ~ exclusive_run (flags := flagsPool) (libs := sampleLibs) schedLostFail
      (startPool (flags := flagsPool) ["a.pdf"; "b.pdf"]) worldPdfs.
Proof.
  cbv zeta. split_and!; [by vm_compute | by vm_compute | by vm_compute | by vm_compute |].
  intros Hex.
  assert (Hb : Z.of_nat (length ["a.pdf"; "b.pdf"]) < 2 ^ 63) by (vm_compute; reflexivity).
  destruct (run (flags := flagsPool) (libs := sampleLibs) schedLostFail
              (startPool (flags := flagsPool) ["a.pdf"; "b.pdf"]) worldPdfs) as [p w] eqn:Hrun.
  pose proof (run_exact (flags := flagsPool) (libs := sampleLibs) _ _ _ _ _ _ Hb
                (startPool_inv _) (startPool_exact _) Hex Hrun) as [Hsum _].
  specialize (Hsum FailCount).
  assert (Hp : p = fst (run (flags := flagsPool) (libs := sampleLibs) schedLostFail
              (startPool (flags := flagsPool) ["a.pdf"; "b.pdf"]) worldPdfs)) by (by rewrite Hrun).
  rewrite Hp in Hsum. vm_compute in Hsum. discriminate.
Qed.



(* ===================================================================== *)
(** * What a scrub touches                                                *)
(* ===================================================================== *)

(** Case analysis on whatever a [match] of the goal or of a hypothesis looks
    at. *)
Ltac cases :=
  repeat match goal with
         | |- context [match ?x with _ => _ end] => destruct x eqn:?
         | H : context [match ?x with _ => _ end] |- _ => destruct x eqn:?
         end.

Lemma touches_ret {A} (S : string -> Prop) (a : A) : touches_only S (ret a).
Proof. by intros w. Qed.

Lemma touches_bind {A B} (S : string -> Prop) (c : M A) (k : A -> M B) :
  touches_only S c -> (forall a, touches_only S (k a)) -> touches_only S (bind c k).
Proof.
  intros Hc Hk w. unfold bind. specialize (Hc w). destruct (c w) as [a w1].
  specialize (Hk a w1). destruct (k a w1) as [b w2]. cbn [snd] in *.
  destruct Hc as (N1 & O1 & E1 & F1), Hk as (N2 & O2 & E2 & F2).
  split_and!; [congruence..|]. intros q Hq. by rewrite F2, F1.
Qed.

Lemma touches_mono {A} (S T : string -> Prop) (c : M A) :
  (forall q, S q -> T q) -> touches_only S c -> touches_only T c.
Proof.
  intros HST Hc w. destruct (Hc w) as (N & O & E & F).
  split_and!; [done..|]. intros q Hq. apply F. naive_solver.
Qed.

Lemma touches_same {A} (S : string -> Prop) (c : M A) :
  (forall w r w', c w = (r, w') -> same_but_faults w w') -> touches_only S c.
Proof.
  intros Hc w. destruct (c w) as [r w'] eqn:E. cbn [snd].
  destruct (Hc _ _ _ E) as (F & _ & N & O & L). split_and!; [done..|].
  intros q _. by rewrite F.
Qed.

Lemma touches_next_fault (S : string -> Prop) : touches_only S next_fault.
Proof. apply touches_same. intros w r w'. apply next_fault_same. Qed.

Lemma touches_os_Stat (S : string -> Prop) name : touches_only S (os_Stat name).
Proof. apply touches_same. intros w r w'. apply os_Stat_same. Qed.

Lemma touches_os_Open (S : string -> Prop) name : touches_only S (os_Open name).
Proof. apply touches_same. intros w r w'. apply os_Open_same. Qed.

Lemma touches_os_ReadFile (S : string -> Prop) name : touches_only S (os_ReadFile name).
Proof. apply touches_same. intros w r w'. apply os_ReadFile_same. Qed.

Lemma touches_time_Now (S : string -> Prop) : touches_only S time_Now_Unix.
Proof. by intros w. Qed.

Lemma touches_time_Sleep (S : string -> Prop) ms : touches_only S (time_Sleep ms).
Proof. by intros w. Qed.

Lemma touches_os_Create (S : string -> Prop) name :
  S name -> touches_only S (os_Create name).
Proof.
  intros HS w. destruct (os_Create name w) as [r w'] eqn:E. cbn [snd].
  apply os_Create_spec in E as (N & O & L & [(_ & F & _) | (_ & F & _)]);
    (split_and!; [done..|]); intros q Hq; rewrite F; [|done].
  apply lookup_insert_ne. by intros ->.
Qed.

Lemma touches_write (S : string -> Prop) name data :
  S name -> touches_only S (write name data).
Proof.
  intros HS w. destruct (write name data w) as [r w'] eqn:E. cbn [snd].
  apply write_spec in E as (N & O & L & [(_ & F & _) | (k & _ & F & _)]);
    (split_and!; [done..|]); intros q Hq; rewrite F;
    apply append_file_other; by intros ->.
Qed.

Lemma touches_io_Copy (S : string -> Prop) dst src :
  S dst -> touches_only S (io_Copy dst src).
Proof.
  intros HS w. unfold io_Copy. destruct (fs w !! src) as [[data|es]|]; [|done..].
  by apply touches_write.
Qed.

Lemma touches_os_Rename (S : string -> Prop) old new :
  S old -> S new -> touches_only S (os_Rename old new).
Proof.
  intros Ho Hn w. destruct (os_Rename old new w) as [r w'] eqn:E. cbn [snd].
  apply os_Rename_spec in E as (N & O & L & [(_ & _ & n & _ & F) | (_ & F & _)]);
    (split_and!; [done..|]); intros q Hq; rewrite F; [|done].
  rewrite lookup_insert_ne by (by intros ->). apply lookup_delete_ne. by intros ->.
Qed.

Lemma touches_os_Remove (S : string -> Prop) name :
  S name -> touches_only S (os_Remove name).
Proof.
  intros HS w. destruct (os_Remove name w) as [r w'] eqn:E. cbn [snd].
  apply os_Remove_spec in E as (N & O & L & [(_ & F & _) | (_ & F & _)]);
    (split_and!; [done..|]); intros q Hq; rewrite F; [|done].
  apply lookup_delete_ne. by intros ->.
Qed.

Lemma touches_bind_post {A B} (S : string -> Prop) (P : A -> Prop) (c : M A) (k : A -> M B) :
  touches_only S c -> (forall w a w', c w = (a, w') -> P a) ->
  (forall a, P a -> touches_only S (k a)) -> touches_only S (bind c k).
Proof.
  intros Hc HP Hk w. unfold bind. specialize (Hc w). destruct (c w) as [a w1] eqn:E.
  specialize (Hk a (HP _ _ _ E) w1). destruct (k a w1) as [b w2]. cbn [snd] in *.
  destruct Hc as (N1 & O1 & E1 & F1), Hk as (N2 & O2 & E2 & F2).
  split_and!; [congruence..|]. intros q Hq. by rewrite F2, F1.
Qed.

(** The handle [os.Create] returns is the path it was given. *)
Lemma touches_bind_Create {B} (S : string -> Prop) name (k : result string -> M B) :
  S name -> touches_only S (k (Ok name)) -> (forall e, touches_only S (k (Err e))) ->
  touches_only S (bind (os_Create name) k).
Proof.
  intros HS Hok Herr w. unfold bind.
  pose proof (touches_os_Create S name HS w) as Hc.
  destruct (os_Create name w) as [r w1] eqn:E. cbn [snd] in Hc.
  assert (Hk : touches_only S (k r)).
  { apply os_Create_spec in E as (_ & _ & _ & [(-> & _) | (-> & _)]); [done | apply Herr]. }
  specialize (Hk w1). destruct (k r w1) as [b w2]. cbn [snd] in *.
  destruct Hc as (N1 & O1 & E1 & F1), Hk as (N2 & O2 & E2 & F2).
  split_and!; [congruence..|]. intros q Hq. by rewrite F2, F1.
Qed.

(** Splits a command into its calls and settles each one. *)
Ltac touch :=
  repeat first
    [ apply touches_ret
    | apply touches_next_fault | apply touches_os_Stat | apply touches_os_Open
    | apply touches_os_ReadFile | apply touches_time_Now | apply touches_time_Sleep
    | apply touches_os_Create | apply touches_write | apply touches_io_Copy
    | apply touches_os_Rename | apply touches_os_Remove
    | apply touches_bind_Create; [| |intros ?]
    | apply touches_bind; [|intros ?]
    | match goal with
      | |- touches_only _ (match ?x with _ => _ end) => destruct x
      end ].

Lemma touches_copyFile (S : string -> Prop) src dst :
  S dst -> touches_only S (copyFile src dst).
Proof. intros HS. unfold copyFile. touch; done. Qed.

Lemma ownPath_self p : ownPath p p.
Proof. by left. Qed.

Lemma ownPath_tmp p : ownPath p (p +:+ ".tmp").
Proof. right. by left. Qed.

Lemma touches_replaceLoop (S : string -> Prop) orig tmp :
  S orig -> S tmp -> touches_only S (replaceLoop 2 0 orig tmp).
Proof.
  intros Ho Ht.
  cbn [replaceLoop]. change (0 <? 2) with true. change (0 =? 0) with true.
  change (0 + 1 <? 2) with true. change (0 + 1 =? 0) with false. cbv iota.
  touch; done.
Qed.

(** The backup path is a path of [orig]'s own. *)
Lemma touches_bind_backupPath {B} orig (k : string -> M B) :
  (forall bak, ownPath orig bak -> touches_only (ownPath orig) (k bak)) ->
  touches_only (ownPath orig) (bind (backupPath orig) k).
Proof.
  intros Hk w. unfold bind. destruct (backupPath orig w) as [bak w1] eqn:E.
  apply backupPath_spec in E as ((F & _ & N & O & L) & Hbak).
  assert (Hown : ownPath orig bak).
  { destruct Hbak as [->|[-> _]]; [right; right; by left | do 3 right; by eexists]. }
  specialize (Hk bak Hown w1). destruct (k bak w1) as [b w2]. cbn [snd] in *.
  destruct Hk as (N2 & O2 & E2 & F2).
  split_and!; [congruence..|]. intros q Hq. by rewrite F2, F.
Qed.

Section Frames.
Context {flags : Flags} {libs : Libs}.

Lemma touches_replaceOriginal orig :
  touches_only (ownPath orig) (replaceOriginal orig (orig +:+ ".tmp")).
Proof.
  unfold replaceOriginal. apply touches_bind.
  - destruct backup; [|apply touches_ret].
    apply touches_bind_backupPath. intros bak Hbak. touch; done.
  - intros [err|]; [apply touches_ret|].
    apply touches_replaceLoop; [apply ownPath_self | apply ownPath_tmp].
Qed.

Lemma touches_copyEntries keep path files : forall zw,
  touches_only (ownPath path) (copyEntries keep (path +:+ ".tmp") files zw).
Proof.
  pose proof (ownPath_tmp path).
  induction files as [|zf rest IH]; intros zw; cbn [copyEntries]; [apply touches_ret|].
  destruct (negb (keep (Name zf))); [apply IH|].
  unfold zf_Open, zw_CreateHeader, copyEntry, discardStaged. touch; try done; apply IH.
Qed.

Lemma stageZip_result path keep w t w' :
  stageZip path keep w = (Ok t, w') -> t = path +:+ ".tmp".
Proof.
  unfold stageZip, bind, ret. intros E. cases; by simplify_eq.
Qed.

Lemma touches_stageZip path keep : touches_only (ownPath path) (stageZip path keep).
Proof.
  pose proof (ownPath_tmp path).
  unfold stageZip. apply touches_bind; [apply touches_os_ReadFile|].
  intros [data|err]; [|apply touches_ret].
  destruct (zip_NewReader data) as [zr|]; [|apply touches_ret].
  apply touches_bind_Create; [done | | intros e; apply touches_ret].
  apply touches_bind; [apply touches_copyEntries|].
  intros [zw|err]; [|apply touches_ret]. unfold file_Close. touch; done.
Qed.

Lemma touches_rewriteZip path keep : touches_only (ownPath path) (rewriteZip path keep).
Proof.
  unfold rewriteZip.
  apply (touches_bind_post _ (fun r => forall t, r = Ok t -> t = path +:+ ".tmp"));
    [apply touches_stageZip | |].
  - intros w r w' E t ->. by eapply stageZip_result.
  - intros [t|err] Ht; [|apply touches_ret].
    rewrite (Ht t eq_refl). apply touches_replaceOriginal.
Qed.

Lemma stageImage_result path ext w t w' :
  stageImage path ext w = (Ok t, w') -> t = path +:+ ".tmp".
Proof.
  unfold stageImage, bind, ret. intros E. cases; by simplify_eq.
Qed.

Lemma touches_stageImage path ext : touches_only (ownPath path) (stageImage path ext).
Proof.
  pose proof (ownPath_tmp path).
  unfold stageImage. apply touches_bind; [apply touches_os_Open|].
  intros [i|err]; [|apply touches_ret].
  apply touches_bind; [apply touches_same; intros w r w'; apply decodeFrom_same|].
  intros [img|err]; [|apply touches_ret].
  apply touches_bind_Create; [done | | intros e; apply touches_ret].
  unfold encodeTo. touch; done.
Qed.

Lemma touches_scrubImage path ext : touches_only (ownPath path) (scrubImage path ext).
Proof.
  unfold scrubImage.
  apply (touches_bind_post _ (fun r => forall t, r = Ok t -> t = path +:+ ".tmp"));
    [apply touches_stageImage | |].
  - intros w r w' E t ->. by eapply stageImage_result.
  - intros [t|err] Ht; [|apply touches_ret].
    rewrite (Ht t eq_refl). apply touches_replaceOriginal.
Qed.

Lemma touches_scrubFile (p : string) : touches_only (ownPath p) (scrubFile p).
Proof.
  unfold scrubFile, scrubOpenXML, scrubOpenDocument, scrubPDF, scrubPDFWithPDFCPU.
  cases;
    first [apply touches_rewriteZip | apply touches_scrubImage | apply touches_ret].
Qed.

End Frames.

(* ===================================================================== *)
(** * The extension tables, [toSet] and the dispatch of [scrubFile]       *)
(* ===================================================================== *)

Lemma index_table (l : list string) (k : string) :
  index (list_to_map ((fun x => (x, true)) <$> l)) k = bool_decide (k ∈ l).
Proof.
  unfold index. induction l as [|x l IH]; cbn [fmap list_fmap list_to_map foldr].
  - rewrite lookup_empty. cbn. symmetry. apply bool_decide_eq_false_2. apply not_elem_of_nil.
  - destruct (decide (k = x)) as [->|Hne].
    + rewrite lookup_insert_eq. cbn. symmetry. apply bool_decide_eq_true_2. by left.
    + rewrite lookup_insert_ne by done. rewrite IH.
      apply bool_decide_ext. rewrite elem_of_cons. tauto.
Qed.

Lemma index_openXMLSet k : index openXMLSet k = bool_decide (k ∈ [".docx"; ".xlsx"; ".pptx"]).
Proof. apply (index_table [".docx"; ".xlsx"; ".pptx"]). Qed.

Lemma index_openDocSet k : index openDocSet k = bool_decide (k ∈ [".odt"; ".ods"; ".odp"]).
Proof. apply (index_table [".odt"; ".ods"; ".odp"]). Qed.

Lemma index_imageSet k : index imageSet k = bool_decide (k ∈ [".jpg"; ".jpeg"; ".png"]).
Proof. apply (index_table [".jpg"; ".jpeg"; ".png"]). Qed.

Lemma isSupportedExt_elem (ext : string) :
  isSupportedExt ext = true <-> ext ∈ supportedExts.
Proof.
  unfold isSupportedExt.
  change supportedExts
    with ([".docx"; ".xlsx"; ".pptx"] ++ [".odt"; ".ods"; ".odp"]
          ++ [".jpg"; ".jpeg"; ".png"] ++ [".pdf"]).
  rewrite index_openXMLSet, index_openDocSet, index_imageSet.
  rewrite !elem_of_app, list_elem_of_singleton.
  repeat case_bool_decide; cbn;
    (split; [intros ?; try discriminate; tauto | intros ?; first [reflexivity | tauto]]).
Qed.

(** The fold of [toSet] (lines 392-397) over the fields [l]. *)
Lemma toSet_fold (l : list string) : forall (acc : gmap string bool) (k : string),
  index (foldl (fun res v =>
                  let v := strings_TrimSpace (strings_ToLower v) in
                  let v := trimDot v in
                  if bool_decide (v <> "") then <[v := true]> res else res) acc l) k = true
  <-> index acc k = true \/ (k <> "" /\ exists v, v ∈ l /\ k = normalized v).
Proof.
  induction l as [|x l IH]; intros acc k; cbn [foldl].
  - split; [by left|]. intros [?|(_ & v & Hv & _)]; [done|]. by apply elem_of_nil in Hv.
  - rewrite IH. fold (normalized x). cbv zeta.
    case_bool_decide as Hx.
    + unfold index at 1. destruct (decide (k = normalized x)) as [->|Hne].
      * rewrite lookup_insert_eq. cbn. split; [|by left].
        intros _. right. split; [done|]. exists x. split; [by left | done].
      * rewrite lookup_insert_ne by done. fold (index acc k). split.
        -- intros [?|(Hk & v & Hv & ->)]; [by left|]. right. split; [done|].
           exists v. split; [by right | done].
        -- intros [?|(Hk & v & Hv & ->)]; [by left|]. right. split; [done|].
           apply elem_of_cons in Hv as [->|Hv]; [done|]. by exists v.
    + split.
      * intros [?|(Hk & v & Hv & ->)]; [by left|]. right. split; [done|].
        exists v. split; [by right | done].
      * intros [?|(Hk & v & Hv & ->)]; [by left|]. right. split; [done|].
        apply elem_of_cons in Hv as [->|Hv]; [|by exists v].
        done.
Qed.

(** Every value [toSet] stores is [true]. *)
Lemma toSet_fold_true (l : list string) : forall (acc : gmap string bool),
  (forall k b, acc !! k = Some b -> b = true) ->
  forall k b,
    foldl (fun res v =>
             let v := strings_TrimSpace (strings_ToLower v) in
             let v := trimDot v in
             if bool_decide (v <> "") then <[v := true]> res else res) acc l !! k = Some b ->
    b = true.
Proof.
  induction l as [|x l IH]; intros acc Hacc k b; cbn [foldl]; [apply Hacc|].
  apply IH. intros k' b'. cbv zeta. case_bool_decide; [|apply Hacc].
  destruct (decide (k' = trimDot (strings_TrimSpace (strings_ToLower x)))) as [->|Hne].
  - rewrite lookup_insert_eq. by intros [= <-].
  - rewrite lookup_insert_ne by done. apply Hacc.
Qed.

(* ===================================================================== *)
(** * What a successful copy, commit and staging leave behind             *)
(* ===================================================================== *)

Lemma os_Remove_nil name data w :
  faults w = [] -> fs w !! name = Some (File data) ->
  os_Remove name w
  = (None, set_trace (EvRemove name true :: trace w) (set_fs (delete name (fs w)) w)).
Proof.
  intros Hf Hn. unfold os_Remove, bind. rewrite (next_fault_nil w Hf). by rewrite Hn.
Qed.

(** What is left at [dst] by a copy from another path. *)
Lemma copyFile_dst src dst w r w' :
  src <> dst -> copyFile src dst w = (r, w') ->
  (r = None /\ exists data, fs w !! src = Some (File data) /\ fs w' !! dst = Some (File data)) \/
  (r <> None /\
   (fs w' !! dst = fs w !! dst \/
    exists part, fs w' !! dst = Some (File part) /\
      forall data, fs w !! src = Some (File data) -> part `prefix_of` data)).
Proof.
  intros Hne. unfold copyFile, bind at 1.
  destruct (os_Open src w) as [s w1] eqn:E1.
  apply os_Open_same in E1 as Hs1. destruct Hs1 as (F1 & _).
  destruct s as [s|err]; [|unfold ret; intros [= <- <-]; right; split; [done|]; left; by rewrite F1].
  apply os_Open_ok in E1 as [-> _].
  unfold bind at 1. destruct (os_Create dst w1) as [d w2] eqn:E2.
  apply os_Create_spec in E2 as (_ & _ & _ & [(-> & F2 & _) | (-> & F2 & _)]).
  2:{ unfold ret. intros [= <- <-]. right. split; [done|]. left. by rewrite F2, F1. }
  unfold io_Copy. rewrite F2, lookup_insert_ne, F1 by done.
  destruct (fs w !! src) as [[data|es]|] eqn:E3.
  - intros E4. apply write_spec in E4 as (_ & _ & _ & [(-> & F4 & _) | (k & -> & F4 & _)]).
    + left. split; [done|]. exists data. split; [done|].
      by rewrite F4, F2, append_file_created.
    + right. split; [done|]. right. exists (take k data).
      split; [by rewrite F4, F2, append_file_created|].
      intros data' [= <-]. apply prefix_take.
  - intros [= <- <-]. right. split; [done|]. right. exists [].
    split; [by rewrite F2, lookup_insert_eq | done].
  - intros [= <- <-]. right. split; [done|]. right. exists [].
    split; [by rewrite F2, lookup_insert_eq | done].
Qed.

(** A copy of a file onto itself: [os.Create] has emptied it before the
    first byte is read. *)
Lemma copyFile_self p w w' :
  copyFile p p w = (None, w') -> fs w' !! p = Some (File []).
Proof.
  unfold copyFile, bind at 1.
  destruct (os_Open p w) as [s w1] eqn:E1.
  destruct s as [s|err]; [|unfold ret; intros [=]].
  apply os_Open_ok in E1 as [-> _].
  unfold bind at 1. destruct (os_Create p w1) as [d w2] eqn:E2.
  apply os_Create_spec in E2 as (_ & _ & _ & [(-> & F2 & _) | (-> & F2 & _)]);
    [|unfold ret; intros [=]].
  unfold io_Copy. rewrite F2, lookup_insert_eq.
  intros E4. apply write_spec in E4 as (_ & _ & _ & [(_ & F4 & _) | (k & ? & _)]); [|done].
  by rewrite F4, F2, append_file_created.
Qed.

(** A replace loop that returns [nil] has put the staged node at [orig]. *)
Lemma replaceLoop_ok orig tmp staged w w' :
  tmp <> orig -> fs w !! tmp = Some staged ->
  replaceLoop 2 0 orig tmp w = (None, w') ->
  fs w' !! orig = Some staged.
Proof.
  intros Hne Hst.
  cbn [replaceLoop]. change (0 <? 2) with true. change (0 =? 0) with true.
  change (0 + 1 <? 2) with true. change (0 + 1 =? 0) with false. cbv iota.
  unfold bind at 1. destruct (os_Rename tmp orig w) as [r1 w1] eqn:E1.
  apply os_Rename_spec in E1 as (_ & _ & _ & [(-> & _ & n & Hn & F1) | (-> & F1 & _)]).
  { unfold ret. intros [= <-]. rewrite F1, lookup_insert_eq. congruence. }
  unfold bind at 1, time_Sleep, emit.
  unfold bind at 1. destruct (os_Rename tmp orig _) as [r2 w2] eqn:E2.
  apply os_Rename_spec in E2 as (_ & _ & _ & [(-> & _ & n & Hn & F2) | (-> & F2 & _)]).
  { unfold ret. intros [= <-]. rewrite F2, lookup_insert_eq.
    cbn [fs set_trace] in Hn. congruence. }
  cbn [fs set_trace] in F2.
  unfold bind at 1. destruct (copyFile tmp orig w2) as [c w3] eqn:E3.
  destruct c as [err|]; [unfold ret; intros [=]|].
  apply copyFile_spec in E3 as (_ & _ & _ & _ & _ & Hok).
  destruct (Hok eq_refl Hne) as (data & Hd & Ho).
  unfold bind at 1. destruct (os_Remove tmp w3) as [rm w4] eqn:E4.
  unfold ret. intros [= <-].
  apply os_Remove_spec in E4 as (_ & _ & _ & [(_ & F4 & _) | (_ & F4 & _)]);
    rewrite F4; [rewrite lookup_delete_ne by done|];
    rewrite Ho; rewrite F2, F1, Hst in Hd; congruence.
Qed.

Section CommitFacts.
Context {flags : Flags} {libs : Libs}.

(** A commit that returns [nil]: the staged node is at [orig], and with
    [--backup] the bytes [orig] held are in the backup the commit wrote. *)
Lemma replaceOriginal_ok orig staged w w' :
  fs w !! (orig +:+ ".tmp") = Some staged ->
  replaceOriginal orig (orig +:+ ".tmp") w = (None, w') ->
  fs w' !! orig = Some staged /\
  (backup = true ->
   exists bak data,
     (bak = orig +:+ ".bak" \/ bak = orig +:+ "." +:+ pretty (now w) +:+ ".bak") /\
     fs w !! orig = Some (File data) /\ fs w' !! bak = Some (File data)).
Proof.
  intros Hst. set (tmp := orig +:+ ".tmp") in *.
  assert (Htmp : tmp <> orig) by (by apply app_ne_self).
  unfold replaceOriginal. destruct backup.
  - unfold bind at 1, bind at 1.
    destruct (backupPath orig w) as [bak w1] eqn:E1.
    pose proof (backupPath_ne_orig _ _ _ _ E1) as Hbo.
    pose proof (backupPath_ne_tmp _ _ _ _ E1) as Hbt. fold tmp in Hbt.
    unfold bind at 1. destruct (copyFile orig bak w1) as [c w2] eqn:E2.
    destruct c as [err|]; [unfold ret; intros [=]|].
    destruct (backup_written_to _ _ _ _ _ E1 E2) as ((data & Hd & Hb) & Hname).
    apply backupPath_spec in E1 as ((F1 & _) & _).
    apply copyFile_spec in E2 as (_ & _ & _ & Hfr & _).
    unfold ret. intros E3.
    assert (Hst2 : fs w2 !! tmp = Some staged) by (by rewrite Hfr, F1).
    split; [exact (replaceLoop_ok orig tmp staged w2 w' Htmp Hst2 E3)|].
    intros _. exists bak, data. split; [destruct Hname as [?|[? _]]; auto|].
    split; [done|].
    destruct (touches_replaceLoop (fun q => q = orig \/ q = tmp) orig tmp
                (or_introl eq_refl) (or_intror eq_refl) w2) as (_ & _ & _ & Hfr2).
    rewrite E3 in Hfr2. cbn [snd] in Hfr2. rewrite Hfr2; [done|].
    intros [?|?]; congruence.
  - unfold bind at 1, ret. intros E3.
    split; [exact (replaceLoop_ok orig tmp staged w w' Htmp Hst E3) | done].
Qed.

(** What a staging run that succeeds has read and written. *)
Lemma stageZip_ok path keep w t w1 :
  stageZip path keep w = (Ok t, w1) ->
  t = path +:+ ".tmp" /\
  exists data zr staged,
    fs w !! path = Some (File data) /\ zip_NewReader data = Some zr /\
    Forall2 (fun e' e => restaged e = Some e') staged (kept keep zr) /\
    fs w1 !! (path +:+ ".tmp") = Some (File (zip_bytes staged)) /\
    forall q, q <> path +:+ ".tmp" -> fs w1 !! q = fs w !! q.
Proof.
  intros E. split; [by eapply stageZip_result|]. revert E.
  set (tmp := path +:+ ".tmp"). unfold stageZip, bind at 1.
  destruct (os_ReadFile path w) as [d wa] eqn:Ea.
  apply os_ReadFile_same in Ea as Sa. destruct Sa as (Fa & _).
  destruct d as [data|e]; [|unfold ret; intros [=]].
  apply os_ReadFile_ok in Ea.
  destruct (zip_NewReader data) as [zr|] eqn:Hzip; [|unfold ret; intros [=]].
  fold tmp. unfold bind at 1. destruct (os_Create tmp wa) as [f wb] eqn:Eb.
  apply os_Create_spec in Eb as (_ & _ & _ & [(-> & Fb & _) | (-> & _ & _)]);
    [|unfold ret; intros [=]].
  unfold bind at 1. destruct (copyEntries keep tmp zr [] wb) as [r wc] eqn:Ec.
  destruct r as [zw|e]; [|unfold ret; intros [=]].
  apply copyEntries_ok in Ec as ((Fc & _) & staged & -> & HF). cbn [app] in *.
  unfold bind at 1. destruct (write tmp (zip_bytes staged) wc) as [c wd] eqn:Ed.
  destruct c as [e|].
  { unfold bind at 1. destruct (os_Remove tmp wd). unfold ret. intros [=]. }
  apply write_spec in Ed as (_ & _ & _ & [(_ & Fd & _) | (k & ? & _)]); [|done].
  unfold bind at 1. destruct (file_Close tmp wd) as [c we] eqn:Ee.
  apply file_Close_same in Ee as (Fe & _).
  destruct c as [e|].
  { unfold bind at 1. destruct (os_Remove tmp we). unfold ret. intros [=]. }
  unfold ret. intros [= <- <-].
  exists data, zr, staged. split_and!; [done | done | done | |].
  - by rewrite Fe, Fd, Fc, Fb, append_file_created.
  - intros q Hq. by rewrite Fe, Fd, append_file_other, Fc, Fb, lookup_insert_ne, Fa.
Qed.

Lemma decodeFrom_ok name w img w' :
  decodeFrom name w = (Ok img, w') ->
  exists data, fs w !! name = Some (File data) /\ image_Decode data = Some img.
Proof.
  unfold decodeFrom, bind. destruct (next_fault w) as [f w1] eqn:E1.
  apply next_fault_same in E1 as (F1 & _). rewrite F1.
  destruct f; [by destruct (fs w !! name)|].
  destruct (fs w !! name) as [[data|es]|]; [|done..].
  destruct (image_Decode data) as [i|] eqn:Ed; [|done].
  intros [= <- <-]. by exists data.
Qed.

(** What a staging run of [scrubImage] that succeeds has read and written:
    the encoder is chosen by the extension. *)
Lemma stageImage_ok path ext w t w1 :
  stageImage path ext w = (Ok t, w1) ->
  t = path +:+ ".tmp" /\
  exists data img enc,
    fs w !! path = Some (File data) /\ image_Decode data = Some img /\
    (((ext = ".jpg" \/ ext = ".jpeg") /\ jpeg_Encode img 95 = Some enc) \/
     (ext = ".png" /\ png_Encode img = Some enc)) /\
    fs w1 !! (path +:+ ".tmp") = Some (File enc) /\
    forall q, q <> path +:+ ".tmp" -> fs w1 !! q = fs w !! q.
Proof.
  intros E. split; [by eapply stageImage_result|]. revert E.
  set (tmp := path +:+ ".tmp"). unfold stageImage, bind at 1.
  destruct (os_Open path w) as [i wa] eqn:Ea.
  apply os_Open_same in Ea as Sa. destruct Sa as (Fa & _).
  destruct i as [i|e]; [|unfold ret; intros [=]].
  apply os_Open_ok in Ea as [-> _].
  unfold bind at 1. destruct (decodeFrom path wa) as [d wb] eqn:Eb.
  apply decodeFrom_same in Eb as Sb. destruct Sb as (Fb & _).
  destruct d as [img|e]; [|unfold ret; intros [=]].
  apply decodeFrom_ok in Eb as (data & Hdata & Hdec). rewrite Fa in Hdata.
  fold tmp. unfold bind at 1. destruct (os_Create tmp wb) as [o wc] eqn:Ec.
  apply os_Create_spec in Ec as (_ & _ & _ & [(-> & Fc & _) | (-> & _ & _)]);
    [|unfold ret; intros [=]].
  assert (Henc : forall encoded r wd,
            encodeTo tmp encoded wc = (r, wd) ->
            match r with Some err => ret (Err err) | None => ret (Ok tmp) end wd = (Ok t, w1) ->
            exists enc, encoded = Some enc /\ fs w1 !! tmp = Some (File enc) /\
              forall q, q <> tmp -> fs w1 !! q = fs w !! q).
  { intros encoded r wd Ee. destruct r as [err|]; [unfold ret; intros [=]|].
    unfold ret. intros [= <- <-].
    apply encodeTo_spec in Ee as [(_ & _ & enc & -> & Fe) | [(? & _) | (? & _)]]; [|done..].
    exists enc. split; [done|]. split.
    - by rewrite Fe, Fc, append_file_created.
    - intros q Hq. by rewrite Fe, append_file_other, Fc, lookup_insert_ne, Fb, Fa. }
  destruct (bool_decide (ext = ".jpg") || bool_decide (ext = ".jpeg")) eqn:Ej.
  - unfold bind at 1. destruct (encodeTo tmp (jpeg_Encode img 95) wc) as [r wd] eqn:Ee.
    intros E. destruct (Henc _ _ _ Ee E) as (enc & He & Ht & Hfr).
    exists data, img, enc. split_and!; [done | done | | done | done].
    left. split; [|done]. apply orb_true_iff in Ej as [Ej|Ej];
      apply bool_decide_eq_true_1 in Ej; auto.
  - destruct (bool_decide (ext = ".png")) eqn:Ep; [|unfold ret; intros [=]].
    apply bool_decide_eq_true_1 in Ep.
    unfold bind at 1. destruct (encodeTo tmp (png_Encode img) wc) as [r wd] eqn:Ee.
    intros E. destruct (Henc _ _ _ Ee E) as (enc & He & Ht & Hfr).
    exists data, img, enc. split_and!; [done | done | | done | done].
    right. by split.
Qed.

(** With no call made to fail, an entry that cannot be copied ends the
    staging run with the staging file removed. *)
Lemma copyEntries_err_nil keep tmp files : forall zw w err w1 d,
  faults w = [] -> fs w !! tmp = Some (File d) ->
  copyEntries keep tmp files zw w = (Err err, w1) ->
  fs w1 = delete tmp (fs w).
Proof.
  assert (Hdis : forall zw w d, faults w = [] -> fs w !! tmp = Some (File d) ->
            fs (snd (discardStaged tmp zw w)) = delete tmp (fs w)).
  { intros zw w d Hf Hd. unfold discardStaged, bind at 1.
    rewrite (write_nil tmp _ w Hf). unfold bind at 1.
    erewrite os_Remove_nil; [|done|].
    - cbn. unfold append_file. rewrite Hd. by rewrite delete_insert_eq.
    - cbn. unfold append_file. rewrite Hd. by rewrite lookup_insert_eq. }
  induction files as [|zf rest IH]; intros zw w err w1 d Hf Hd; cbn [copyEntries];
    [unfold ret; intros [=]|].
  destruct (negb (keep (Name zf))); [by eapply IH|].
  unfold bind at 1. rewrite (zf_Open_nil zf w Hf).
  destruct (decompressor (Method zf)) as [dcomp|].
  2:{ unfold bind at 1. specialize (Hdis zw w d Hf Hd).
      destruct (discardStaged tmp zw w) as [u w2]. unfold ret. by intros [= _ <-]. }
  unfold bind at 1. rewrite (zw_CreateHeader_nil _ w Hf). cbn [Method].
  destruct (compressor (Method zf)) as [comp|].
  2:{ unfold bind at 1. specialize (Hdis zw w d Hf Hd).
      destruct (discardStaged tmp zw w) as [u w2]. unfold ret. by intros [= _ <-]. }
  unfold bind at 1. rewrite (copyEntry_nil _ comp _ w Hf).
  destruct (dcomp (payload zf)) as [content|].
  2:{ unfold bind at 1. specialize (Hdis zw w d Hf Hd).
      destruct (discardStaged tmp zw w) as [u w2]. unfold ret. by intros [= _ <-]. }
  by eapply IH.
Qed.

Lemma restaged_Name (e e' : zipFile) : restaged e = Some e' -> Name e' = Name e.
Proof.
  unfold restaged. destruct (compressor (Method e)); [|done].
  destruct (decompress e); [|done]. by intros [= <-].
Qed.

(** Every entry of the staged archive satisfies the predicate. *)
Lemma staged_all_kept keep (zr staged : list zipFile) :
  Forall2 (fun e' e => restaged e = Some e') staged (kept keep zr) ->
  Forall (fun e' : zipFile => keep (Name e') = true) staged.
Proof.
  intros HF. eapply Forall2_Forall_l; [exact HF|].
  apply Forall_forall. intros e Hin e' He. unfold kept in Hin.
  apply list_elem_of_filter in Hin as [Hk _]. by rewrite (restaged_Name _ _ He).
Qed.

Lemma copyEntries_ok_nil keep tmp files : forall zw w zw' w1,
  faults w = [] -> copyEntries keep tmp files zw w = (Ok zw', w1) -> w1 = w.
Proof.
  induction files as [|zf rest IH]; intros zw w zw' w1 Hf; cbn [copyEntries];
    [unfold ret; by intros [= _ <-]|].
  destruct (negb (keep (Name zf))); [by apply IH|].
  unfold bind at 1. rewrite (zf_Open_nil zf w Hf).
  destruct (decompressor (Method zf)) as [dcomp|].
  2:{ unfold bind at 1. destruct (discardStaged tmp zw w). unfold ret. intros [=]. }
  unfold bind at 1. rewrite (zw_CreateHeader_nil _ w Hf). cbn [Method].
  destruct (compressor (Method zf)) as [comp|].
  2:{ unfold bind at 1. destruct (discardStaged tmp zw w). unfold ret. intros [=]. }
  unfold bind at 1. rewrite (copyEntry_nil _ comp _ w Hf).
  destruct (dcomp (payload zf)) as [content|].
  2:{ unfold bind at 1. destruct (discardStaged tmp zw w). unfold ret. intros [=]. }
  by apply IH.
Qed.

Lemma os_Create_dir name es w :
  faults w = [] -> fs w !! name = Some (Dir es) ->
  os_Create name w
  = (Err (SysError "open" name), set_trace (EvCreate name false :: trace w) w).
Proof.
  intros Hf Hn. unfold os_Create, bind. rewrite (next_fault_nil w Hf). by rewrite Hn.
Qed.

(** With no call made to fail, a staging run that ends in an error has
    changed nothing or has removed the staging file. *)
Lemma stageZip_err_nil path keep w w1 err :
  faults w = [] ->
  stageZip path keep w = (Err err, w1) ->
  fs w1 = fs w \/ fs w1 = delete (path +:+ ".tmp") (fs w).
Proof.
  intros Hf. set (tmp := path +:+ ".tmp"). unfold stageZip, bind at 1.
  destruct (os_ReadFile path w) as [d wa] eqn:Ea.
  destruct d as [data|e].
  2:{ apply os_ReadFile_same in Ea as (Fa & _). unfold ret. intros [= _ <-]. by left. }
  apply os_ReadFile_ok in Ea as Hd. rewrite (os_ReadFile_nil path data w Hf Hd) in Ea.
  injection Ea as <-.
  destruct (zip_NewReader data) as [zr|]; [|unfold ret; intros [= _ <-]; by left].
  fold tmp. unfold bind at 1.
  destruct (fs w !! tmp) as [[d|es]|] eqn:Htmp.
  3:{ (* the staging path is free *)
    rewrite (os_Create_nil tmp w Hf) by (intros es; by rewrite Htmp).
    set (wb := set_trace _ _).
    assert (Hfb : faults wb = []) by done.
    unfold bind at 1. destruct (copyEntries keep tmp zr [] wb) as [r wc] eqn:Ec.
    destruct r as [zw|e].
    - apply (copyEntries_ok_nil _ _ _ _ _ _ _ Hfb) in Ec as ->.
      unfold bind at 1. rewrite (write_nil tmp _ wb Hfb).
      unfold bind at 1. rewrite file_Close_nil by done. unfold ret. intros [=].
    - eapply copyEntries_err_nil in Ec; [|done|by (subst wb; cbn; rewrite lookup_insert_eq)].
      unfold ret. intros [= _ <-]. right. rewrite Ec. subst wb. cbn.
      by rewrite delete_insert_eq. }
  - (* a file is in the way: it is truncated *)
    rewrite (os_Create_nil tmp w Hf) by (intros es; by rewrite Htmp).
    set (wb := set_trace _ _).
    assert (Hfb : faults wb = []) by done.
    unfold bind at 1. destruct (copyEntries keep tmp zr [] wb) as [r wc] eqn:Ec.
    destruct r as [zw|e].
    + apply (copyEntries_ok_nil _ _ _ _ _ _ _ Hfb) in Ec as ->.
      unfold bind at 1. rewrite (write_nil tmp _ wb Hfb).
      unfold bind at 1. rewrite file_Close_nil by done. unfold ret. intros [=].
    + eapply copyEntries_err_nil in Ec; [|done|by (subst wb; cbn; rewrite lookup_insert_eq)].
      unfold ret. intros [= _ <-]. right. rewrite Ec. subst wb. cbn.
      by rewrite delete_insert_eq.
  - (* a directory is in the way *)
    rewrite (os_Create_dir tmp es w Hf Htmp). unfold ret. intros [= _ <-]. by left.
Qed.


Lemma rewriteZip_ok (path : string) (keep : string -> bool) (w w' : World) :
  rewriteZip path keep w = (None, w') ->
  exists data zr staged,
    fs w !! path = Some (File data) /\ zip_NewReader data = Some zr /\
    Forall2 (fun e' e => restaged e = Some e') staged (kept keep zr) /\
    Forall (fun e' : zipFile => keep (Name e') = true) staged /\
    fs w' !! path = Some (File (zip_bytes staged)) /\
    (backup = true ->
     exists bak,
       (bak = path +:+ ".bak" \/ bak = path +:+ "." +:+ pretty (now w) +:+ ".bak") /\
       fs w' !! bak = Some (File data)).
Proof.
  unfold rewriteZip, bind at 1.
  pose proof (touches_stageZip path keep w) as (Hnow & _).
  destruct (stageZip path keep w) as [r w1] eqn:E1. cbn [snd] in Hnow.
  destruct r as [t|err]; [|unfold ret; intros [=]].
  apply stageZip_ok in E1 as (-> & data & zr & staged & Hd & Hz & HF & Ht & Hfr).
  intros E2. destruct (replaceOriginal_ok _ _ _ _ Ht E2) as [Ho Hb].
  exists data, zr, staged.
  split_and!; [done | done | done | by eapply staged_all_kept | done |].
  intros Hbak. destruct (Hb Hbak) as (bak & data' & Hname & Hd' & Hbk).
  exists bak. rewrite Hnow in Hname. split; [done|].
  rewrite Hfr, Hd in Hd' by (intros E; symmetry in E; by apply app_ne_self in E).
  congruence.
Qed.

Lemma scrubImage_ok (path ext : string) (w w' : World) :
  scrubImage path ext w = (None, w') ->
  exists data img enc,
    fs w !! path = Some (File data) /\ image_Decode data = Some img /\
    (((ext = ".jpg" \/ ext = ".jpeg") /\ jpeg_Encode img 95 = Some enc) \/
     (ext = ".png" /\ png_Encode img = Some enc)) /\
    fs w' !! path = Some (File enc) /\
    (backup = true ->
     exists bak,
       (bak = path +:+ ".bak" \/ bak = path +:+ "." +:+ pretty (now w) +:+ ".bak") /\
       fs w' !! bak = Some (File data)).
Proof.
  unfold scrubImage, bind at 1.
  pose proof (touches_stageImage path ext w) as (Hnow & _).
  destruct (stageImage path ext w) as [r w1] eqn:E1. cbn [snd] in Hnow.
  destruct r as [t|err]; [|unfold ret; intros [=]].
  apply stageImage_ok in E1 as (-> & data & img & enc & Hd & Hdec & Henc & Ht & Hfr).
  intros E2. destruct (replaceOriginal_ok _ _ _ _ Ht E2) as [Ho Hb].
  exists data, img, enc. split_and!; [done | done | done | done |].
  intros Hbak. destruct (Hb Hbak) as (bak & data' & Hname & Hd' & Hbk).
  exists bak. rewrite Hnow in Hname. split; [done|].
  rewrite Hfr, Hd in Hd' by (intros E; symmetry in E; by apply app_ne_self in E).
  congruence.
Qed.

End CommitFacts.

(* --------------------------------------------------------------------- *)
(** The two predicates, and what a failed replace loop leaves behind. *)

Lemma keepOpenXML_fold (name : string) :
  keepOpenXML name = true <-> ~ hasPrefixFold name "docProps/".
Proof.
  unfold keepOpenXML. rewrite hasPrefixFold_lower.
  change (strings_ToLower "docProps/") with "docprops/".
  destruct (strings_HasPrefix (strings_ToLower name) "docprops/");
    split; first [done | intros H; by destruct H].
Qed.

Lemma keepOpenDocument_fold (name : string) :
  keepOpenDocument name = true <-> ~ eqFold name "meta.xml".
Proof.
  unfold keepOpenDocument. rewrite eqFold_iff.
  change (strings_ToLower "meta.xml") with "meta.xml".
  case_bool_decide; split; first [done | intros H; by destruct H].
Qed.

Lemma stamped_ne_bak (orig t : string) :
  orig +:+ "." +:+ t +:+ ".bak" <> orig +:+ ".bak".
Proof.
  intros E. apply (f_equal String.length) in E.
  rewrite !string_app_length in E. cbn in E. lia.
Qed.

(** What a replace loop that fails leaves behind. *)
Lemma replaceLoop_err orig tmp err w w' :
  tmp <> orig ->
  replaceLoop 2 0 orig tmp w = (Some err, w') ->
  fs w' !! tmp = fs w !! tmp /\
  (fs w' !! orig = fs w !! orig \/
   exists part, fs w' !! orig = Some (File part) /\
     forall data, fs w !! tmp = Some (File data) -> part `prefix_of` data).
Proof.
  intros Hne.
  cbn [replaceLoop]. change (0 <? 2) with true. change (0 =? 0) with true.
  change (0 + 1 <? 2) with true. change (0 + 1 =? 0) with false. cbv iota.
  unfold bind at 1. destruct (os_Rename tmp orig w) as [r1 w1] eqn:E1.
  apply os_Rename_spec in E1 as (_ & _ & _ & [(-> & _) | (-> & F1 & _)]);
    [unfold ret; intros [=]|].
  unfold bind at 1, time_Sleep, emit.
  unfold bind at 1. destruct (os_Rename tmp orig _) as [r2 w2] eqn:E2.
  apply os_Rename_spec in E2 as (_ & _ & _ & [(-> & _) | (-> & F2 & _)]);
    [unfold ret; intros [=]|].
  cbn [fs set_trace] in F2.
  unfold bind at 1. destruct (copyFile tmp orig w2) as [c w3] eqn:E3.
  destruct c as [e|].
  2:{ unfold bind at 1. destruct (os_Remove tmp w3). unfold ret. intros [=]. }
  unfold ret. intros [= _ <-].
  apply copyFile_spec in E3 as Hsp. destruct Hsp as (_ & _ & _ & Hfr & _).
  split; [by rewrite Hfr, F2, F1|].
  destruct (copyFile_dst _ _ _ _ _ Hne E3) as [[? _] | [_ [Hsame | (part & Hp & Hpre)]]];
    [done | left; by rewrite Hsame, F2, F1 | right].
  exists part. split; [done|]. intros data Hd. apply Hpre. by rewrite F2, F1.
Qed.


(* ===================================================================== *)
(** * Discovery: what the walk keeps true                                 *)
(* ===================================================================== *)

Section WalkInv.
Context {flags : Flags} {libs : Libs}.
Context {A : Type} (fn : string -> bool -> option error -> A -> A * option error).
Context (P : A -> Prop).
Hypothesis fn_keeps : forall p b e acc, P acc -> P (fst (fn p b e acc)).

(** What the callback keeps true of its state, the walk keeps true. *)
Lemma walkDir_keeps (d : DirTree) : forall path acc w r w',
  P acc -> walkDir fn path d acc w = (r, w') -> P (fst r).
Proof.
  induction d as [n|n es IH] using DirTree_nested_ind; intros path acc w r w' Hacc;
    cbn [walkDir]; pose proof (fn_keeps path (entryIsDir (DFile n)) None acc Hacc) as H1;
    cbn [entryIsDir] in *.
  - destruct (fn path false None acc) as [acc1 err]. unfold ret. by intros [= <- <-].
  - clear H1. pose proof (fn_keeps path true None acc Hacc) as H1.
    destruct (fn path true None acc) as [acc1 err]. cbn [fst] in H1.
    destruct err as [e|]; [unfold ret; by intros [= <- <-]|].
    unfold bind at 1. destruct (next_fault w) as [f w1].
    destruct f.
    { pose proof (fn_keeps path true (Some (SysError "readdir" path)) acc1 H1) as H2.
      destruct (fn path true _ acc1) as [acc2 [e|]]; unfold ret; by intros [= <- <-]. }
    clear acc Hacc. revert acc1 H1 w1 r w'.
    induction IH as [|d1 rest Hd1 _ IHrest]; intros acc Hacc w1 r w'; cbn [walkEntries].
    + unfold ret. by intros [= <- <-].
    + unfold bind at 1.
      destruct (walkDir fn _ d1 acc w1) as [[acc' [e|]] w2] eqn:E2;
        apply Hd1 in E2; [|done|idtac|done]; cbn [fst] in E2.
      * destruct (isSkipDir e); unfold ret; by intros [= <- <-].
      * by apply IHrest.
Qed.

Lemma filepath_WalkDir_keeps root acc w r w' :
  P acc -> filepath_WalkDir fn root acc w = (r, w') -> P (fst r).
Proof.
  intros Hacc. unfold filepath_WalkDir, bind at 1.
  destruct (next_fault w) as [f w1]. unfold bind at 1.
  assert (Hpost : forall (x : A * option error) wc,
            P (fst x) ->
            (let (acc', o) := x in
             match o with
             | Some e => if isSkipDir e then ret (acc', None) else ret (acc', Some e)
             | None => ret (acc', None)
             end) wc = (r, w') -> P (fst r)).
  { intros [acc' [e|]] wc Hx; [destruct (isSkipDir e)|]; unfold ret; by intros [= <- <-]. }
  destruct f; [apply Hpost, fn_keeps, Hacc|].
  destruct (fs w1 !! root) as [[data|es]|]; [| |apply Hpost, fn_keeps, Hacc].
  - destruct (walkDir fn root (DFile root) acc w1) as [x wc] eqn:E.
    apply Hpost. by eapply walkDir_keeps.
  - destruct (walkDir fn root (DDir root es) acc w1) as [x wc] eqn:E.
    apply Hpost. by eapply walkDir_keeps.
Qed.

End WalkInv.

Section Candidates.
Context {flags : Flags} {libs : Libs}.

Lemma os_Stat_missing name w :
  fs w !! name = None ->
  fst (os_Stat name w) = Err (SysError "stat" name).
Proof.
  intros Hn. unfold os_Stat, bind, next_fault.
  destruct (faults w) as [|[k|] rest]; unfold set_faults; cbn [fs]; rewrite ?Hn; done.
Qed.


Lemma visit_keeps_selected inc exc p b e files :
  Forall (fun q => selected inc exc q = true) files ->
  Forall (fun q => selected inc exc q = true) (fst (visit inc exc p b e files)).
Proof.
  intros Hf. unfold visit. destruct e; [done|]. destruct b; [done|].
  change (strings_ToLower (filepath_Ext IsPathSeparator p)) with (lowerExt p).
  destruct ((0 <? size inc)%nat && negb (index inc (trimDot (lowerExt p)))) eqn:E1; [done|].
  destruct (index exc (trimDot (lowerExt p))) eqn:E2; [done|].
  destruct (isSupportedExt (lowerExt p)) eqn:E3; [|done].
  cbn [fst]. apply Forall_app. split; [done|]. apply Forall_singleton.
  unfold selected. by rewrite E1, E2, E3.
Qed.

Lemma collect_selected inc exc w files wc :
  collect inc exc w = (Ok files, wc) ->
  Forall (fun q => selected inc exc q = true) files.
Proof.
  unfold collect, bind at 1. destruct (os_Stat inputPath w) as [st w1].
  destruct st as [[|]|e]; [| |unfold ret; intros [=]].
  - unfold bind at 1.
    destruct (filepath_WalkDir (visit inc exc) inputPath [] w1) as [[fl e] w2] eqn:E2.
    apply (filepath_WalkDir_keeps (visit inc exc)
             (Forall (fun q => selected inc exc q = true))) in E2;
      [|intros; by apply visit_keeps_selected|constructor].
    destruct e; unfold ret; intros [= <- <-]; done.
  - unfold ret, single.
    change (strings_ToLower (filepath_Ext IsPathSeparator inputPath)) with (lowerExt inputPath).
    destruct ((0 <? size inc)%nat && negb (index inc (trimDot (lowerExt inputPath)))) eqn:E1;
      [intros [=]|].
    destruct (index exc (trimDot (lowerExt inputPath))) eqn:E2; [intros [=]|].
    destruct (isSupportedExt (lowerExt inputPath)) eqn:E3; [|intros [=]].
    cbn [negb]. intros [= <- <-]. apply Forall_singleton.
    unfold selected. by rewrite E1, E2, E3.
Qed.

End Candidates.

(* ===================================================================== *)
(** * The pool: what it touches, what it logs, and the pool without workers *)
(* ===================================================================== *)

Lemma held_elem (l : list Worker) : forall i f,
  l !! i = Some (WScrub f) -> f ∈ concat (holds <$> l).
Proof.
  induction l as [|s l IH]; intros [|i] f; cbn; try done.
  - intros [= ->]. cbn. by left.
  - intros Hi. apply elem_of_app. right. by eapply IH.
Qed.

Section PoolExtras.
Context {flags : Flags} {libs : Libs}.

(** The file a worker holds is a candidate. *)
Lemma held_in_files files p i f :
  PoolInv files p -> ws p !! i = Some (WScrub f) -> f ∈ files.
Proof.
  intros Hinv Hi. rewrite (inv_perm _ _ Hinv).
  apply elem_of_app. right. apply elem_of_app. left. by eapply held_elem.
Qed.

(** What one step of the pool touches and what it logs. *)
Lemma step_effects files t p w p' w' :
  PoolInv files p -> step t p w = (p', w') ->
  now w' = now w /\ stdout w' = stdout w /\
  (forall q, (forall f, f ∈ files -> ~ ownPath f q) -> fs w' !! q = fs w !! q) /\
  exists new, scrubbed p' = new ++ scrubbed p /\
    omap outcome_of (stderr w')
    = filter (fun x => logged x = true) new ++ omap outcome_of (stderr w).
Proof.
  intros Hinv. destruct t as [|i]; cbn [step].
  { unfold ret. intros [= <- <-]. split_and!; [done..|].
    exists []. split; [|done]. unfold stepMain.
    destruct (pc p) as [[|f rest]| |]; try done. by destruct (allDone (ws p)). }
  unfold stepWorker. destruct (ws p !! i) as [s|] eqn:Hi.
  2:{ unfold ret. intros [= <- <-]. split_and!; [done..|]. by exists []. }
  destruct s as [|f|c d|c d v|].
  - destruct (jobs p) as [|f rest].
    + destruct (closed p); unfold ret; intros [= <- <-];
        (split_and!; [done..|]); by exists [].
    + unfold ret. intros [= <- <-]. split_and!; [done..|]. by exists [].
  - pose proof (held_in_files _ _ _ _ Hinv Hi) as Hf.
    unfold bind at 1. pose proof (touches_scrubFile f w) as (N & O & L & F).
    destruct (scrubFile f w) as [r w1]. cbn [snd] in *.
    destruct r as [err|].
    + unfold bind, log_Print, ret. intros [= <- <-].
      cbn [now stdout stderr fs set_stderr scrubbed set_worker record].
      split_and!; [done | done | |].
      * intros q Hq. apply F. by apply Hq.
      * exists [(f, false)]. split; [done|].
        rewrite filter_cons_True by (unfold logged; cbn; apply orb_true_r).
        cbn. by rewrite L.
    + unfold bind at 1. destruct verbose eqn:Ev.
      * unfold log_Print, bind, ret. intros [= <- <-].
        cbn [now stdout stderr fs set_stderr scrubbed set_worker record].
        split_and!; [done | done | |].
        -- intros q Hq. apply F. by apply Hq.
        -- exists [(f, true)]. split; [done|].
           rewrite filter_cons_True by (unfold logged; by rewrite Ev).
           cbn. by rewrite L.
      * unfold ret. intros [= <- <-].
        cbn [scrubbed set_worker record].
        split_and!; [done | done | |].
        -- intros q Hq. apply F. by apply Hq.
        -- exists [(f, true)]. split; [done|].
           rewrite filter_cons_False by (unfold logged; rewrite Ev; cbn; congruence).
           cbn. by rewrite L.
  - unfold ret. intros [= <- <-]. split_and!; [done..|]. by exists [].
  - unfold ret. intros [= <- <-]. split_and!; [done..|]. exists [].
    split; [|done]. by destruct c.
  - unfold ret. intros [= <- <-]. split_and!; [done..|]. by exists [].
Qed.

Lemma run_effects files sched : forall p w p' w',
  Z.of_nat (length files) < 2 ^ 63 ->
  PoolInv files p -> run sched p w = (p', w') ->
  now w' = now w /\ stdout w' = stdout w /\
  (forall q, (forall f, f ∈ files -> ~ ownPath f q) -> fs w' !! q = fs w !! q) /\
  exists new, scrubbed p' = new ++ scrubbed p /\
    omap outcome_of (stderr w')
    = filter (fun x => logged x = true) new ++ omap outcome_of (stderr w).
Proof.
  induction sched as [|t sched IH]; intros p w p' w' Hb Hinv; cbn [run].
  - unfold ret. intros [= <- <-]. split_and!; [done..|]. by exists [].
  - unfold bind. destruct (step t p w) as [p1 w1] eqn:E1. intros E2.
    pose proof (step_inv _ _ _ _ _ _ Hb Hinv E1) as Hinv1.
    destruct (step_effects _ _ _ _ _ _ Hinv E1) as (N1 & O1 & F1 & new1 & S1 & L1).
    destruct (IH _ _ _ _ Hb Hinv1 E2) as (N2 & O2 & F2 & new2 & S2 & L2).
    split_and!; [congruence | congruence | |].
    + intros q Hq. by rewrite F2, F1.
    + exists (new2 ++ new1). split; [by rewrite S2, S1, app_assoc|].
      by rewrite L2, L1, filter_app, app_assoc.
Qed.

(** With no worker nothing moves but the main goroutine. *)
Lemma no_workers_step t p w :
  ws p = [] ->
  snd (step t p w) = w /\ ws (fst (step t p w)) = [] /\
  scrubbed (fst (step t p w)) = scrubbed p /\
  okCount (fst (step t p w)) = okCount p /\ failCount (fst (step t p w)) = failCount p.
Proof.
  intros Hws. destruct t as [|i]; cbn [step].
  - unfold ret, stepMain. cbn [fst snd].
    destruct (pc p) as [[|f rest]| |]; try done. by destruct (allDone (ws p)).
  - unfold stepWorker. by rewrite Hws.
Qed.

Lemma no_workers_run sched : forall p w,
  ws p = [] ->
  snd (run sched p w) = w /\ ws (fst (run sched p w)) = [] /\
  scrubbed (fst (run sched p w)) = scrubbed p /\
  okCount (fst (run sched p w)) = okCount p /\ failCount (fst (run sched p w)) = failCount p.
Proof.
  induction sched as [|t sched IH]; intros p w Hws; cbn [run]; [done|].
  unfold bind. destruct (no_workers_step t p w Hws) as (W1 & S1 & C1 & O1 & F1).
  destruct (step t p w) as [p1 w1]. cbn [fst snd] in *. subst w1.
  destruct (IH p1 w S1) as (W2 & S2 & C2 & O2 & F2).
  split_and!; congruence.
Qed.

(** The main goroutine alone reaches the end of [wg.Wait()] when there is
    nobody to wait for. *)
Lemma main_alone_done : forall rest p w,
  pc p = MSend rest -> ws p = [] ->
  pc (fst (run (replicate (length rest + 2) TMain) p w)) = MDone.
Proof.
  induction rest as [|f rest IH]; intros p w Hpc Hws.
  - cbn. unfold bind, ret. cbn. unfold stepMain at 2. rewrite Hpc. cbn.
    unfold stepMain. cbn. by rewrite Hws.
  - cbn [length Nat.add replicate run]. unfold bind. cbn [step]. unfold ret at 1.
    apply IH; unfold stepMain; rewrite Hpc; done.
Qed.

(** Lines 119-162 of [main] once the candidates are known. *)
Lemma main_runs_pool sched w files wc :
  inputPath <> "" -> dryRun = false ->
  collect (toSet includeExt) (toSet excludeExt) w = (Ok files, wc) -> files <> [] ->
  main sched w
  = (let (p, w') := run sched (startPool files) (announced files wc) in
     match pc p with
     | MDone => (Returned, set_stdout (report (okCount p) (failCount p) :: stdout w') w')
     | _ => (Running p, w')
     end).
Proof.
  intros Hpath Hdry Hc Hne.
  unfold main. rewrite bool_decide_eq_false_2 by done.
  unfold bind at 1. rewrite Hc.
  rewrite bool_decide_eq_false_2 by (by destruct files).
  rewrite Hdry. unfold bind at 1.
  change (fmt_Println _ wc) with (tt, announced files wc).
  unfold bind at 1. destruct (run sched (startPool files) (announced files wc)) as [p w'].
  by destruct (pc p).
Qed.

End PoolExtras.

(** A failure is always logged. *)
Lemma filter_fail_logged {flags : Flags} (l : list (string * bool)) :
  filter (fun x : string * bool => x.2 = false) (filter (fun x => logged x = true) l)
  = filter (fun x : string * bool => x.2 = false) l.
Proof.
  apply list_filter_filter_l. intros [f ok] Hx. cbn in Hx. subst ok.
  unfold logged. apply orb_true_r.
Qed.


(* ===================================================================== *)
(** * Further properties of the helpers and of [scrubFile]                *)
(* ===================================================================== *)

(** [isSupportedExt] (lines 376-384) accepts exactly the ten extensions of
    the three tables and the PDF case.  It compares byte for byte: what it
    accepts starts with a dot and is in lower case, so a caller must
    lower-case the extension first. *)
Theorem isSupportedExt_exactly_ten (ext : string) :
  (isSupportedExt ext = true <-> ext ∈ supportedExts) /\
  (isSupportedExt ext = true ->
     strings_ToLower ext = ext /\ strings_HasPrefix ext "." = true).
Proof.
  split; [apply isSupportedExt_elem|].
  intros Hs. apply isSupportedExt_elem in Hs. unfold supportedExts in Hs.
  repeat (apply elem_of_cons in Hs as [->|Hs]; [by vm_compute|]).
  by apply elem_of_nil in Hs.
Qed.

(** [toSet] (lines 386-399): a key is in the set exactly when it is not
    empty and is what some comma-separated field becomes once it is
    lower-cased, stripped of surrounding white space and then of one
    leading dot; a list of nothing but white space gives the empty set;
    every stored value is [true]; and the set has an element exactly when
    some key is in it, which is what [len(inc) > 0] tests. *)
Theorem toSet_spec (csv : string) :
  (forall k, index (toSet csv) k = true <->
     strings_TrimSpace csv <> "" /\ k <> "" /\
     exists v, v ∈ strings_Split csv ","%char /\ k = normalized v) /\
  (forall k, toSet csv !! k <> Some false) /\
  ((0 <? size (toSet csv))%nat = true <-> exists k, index (toSet csv) k = true).
Proof.
  assert (Htrue : forall k b, toSet csv !! k = Some b -> b = true).
  { intros k b. unfold toSet. case_bool_decide; [by rewrite lookup_empty|].
    apply toSet_fold_true. intros k' b'. by rewrite lookup_empty. }
  split_and!.
  - intros k. unfold toSet. case_bool_decide as Hblank.
    + unfold index. rewrite lookup_empty. cbn. split; [done | tauto].
    + rewrite toSet_fold. unfold index at 1. rewrite lookup_empty. cbn.
      split; [intros [?|?]; [done | tauto] | tauto].
  - intros k Hk. by apply Htrue in Hk.
  - rewrite Nat.ltb_lt. split.
    + intros Hsize. destruct (map_choose (toSet csv)) as (k & b & Hk).
      { intros Hempty. rewrite Hempty, map_size_empty in Hsize. lia. }
      exists k. unfold index. rewrite Hk. cbn. by eapply Htrue.
    + intros [k Hk]. unfold index in Hk.
      destruct (toSet csv !! k) as [b|] eqn:E; [|done].
      destruct (decide (size (toSet csv) = 0%nat)) as [Hz|Hz]; [|lia].
      apply map_size_empty_iff in Hz. by rewrite Hz, lookup_empty in E.
Qed.

(** The default of [--workers] is [max(2, runtime.NumCPU())] (line 60, [max]
    at lines 410-415): never fewer than two workers, and as many as there
    are CPUs beyond that. *)
Theorem defaultWorkers_at_least_two (numCPU : Z) :
  defaultWorkers numCPU = Z.max 2 numCPU /\
  2 <= defaultWorkers numCPU /\ numCPU <= defaultWorkers numCPU /\
  (forall a b, max a b = Z.max a b /\ max a b = max b a).
Proof.
  assert (Hmax : forall a b, max a b = Z.max a b).
  { intros a b. unfold max. destruct (Z.gtb_spec a b); lia. }
  unfold defaultWorkers. rewrite Hmax. split_and!; [done | lia | lia |].
  intros a b. rewrite !Hmax. lia.
Qed.

(** [copyFile] (lines 360-373).  Copying to another path never changes the
    source; when it returns [nil] the destination holds the source's bytes;
    when it fails the destination is as it was or, once [os.Create] has run,
    holds a prefix of the source's bytes: a failed copy does not remove what
    it started.  Copying a file onto itself returns [nil] and leaves the
    file empty. *)
Theorem copyFile_outcome (src dst : string) (w : World) :
  (src <> dst ->
   fs (snd (copyFile src dst w)) !! src = fs w !! src /\
   (fst (copyFile src dst w) = None ->
      exists data, fs w !! src = Some (File data) /\
                   fs (snd (copyFile src dst w)) !! dst = Some (File data)) /\
   (fst (copyFile src dst w) <> None ->
      fs (snd (copyFile src dst w)) !! dst = fs w !! dst \/
      exists part, fs (snd (copyFile src dst w)) !! dst = Some (File part) /\
        forall data, fs w !! src = Some (File data) -> part `prefix_of` data)) /\
  (src = dst -> fst (copyFile src dst w) = None ->
   fs (snd (copyFile src dst w)) !! dst = Some (File [])).
Proof.
  destruct (copyFile src dst w) as [r w'] eqn:E. cbn [fst snd]. split.
  - intros Hne. split.
    { apply copyFile_spec in E as (_ & _ & _ & Hfr & _). by apply Hfr. }
    destruct (copyFile_dst _ _ _ _ _ Hne E) as [[-> Hok] | [Hr Hfail]].
    + split; [done|]. by intros [].
    + split; [done|]. by intros _.
  - intros -> ->. by eapply copyFile_self.
Qed.

Section ScrubFileFacts.
Context {flags : Flags} {libs : Libs}.

(** [replaceOriginal] (lines 330-358) called as the scrubbers call it, with
    the staging file [orig.tmp].  Whenever it returns [nil], by the rename
    or by the fallback copy, the file at [orig] is what was staged; with
    [--backup] the bytes [orig] held before are in the backup that the
    commit wrote, [orig.bak] or [orig.<seconds>.bak]; and no path but
    [orig], [orig.tmp] and these backups has changed. *)
Theorem replaceOriginal_commit (orig : string) (staged : Node) (w w' : World) :
  fs w !! (orig +:+ ".tmp") = Some staged ->
  replaceOriginal orig (orig +:+ ".tmp") w = (None, w') ->
  fs w' !! orig = Some staged /\
  (backup = true ->
   exists bak data,
     (bak = orig +:+ ".bak" \/ bak = orig +:+ "." +:+ pretty (now w) +:+ ".bak") /\
     fs w !! orig = Some (File data) /\ fs w' !! bak = Some (File data)) /\
  (forall q, ~ ownPath orig q -> fs w' !! q = fs w !! q).
Proof.
  intros Hst E. destruct (replaceOriginal_ok _ _ _ _ Hst E) as [Ho Hb].
  split_and!; [done | done |].
  intros q Hq. destruct (touches_replaceOriginal orig w) as (_ & _ & _ & Hfr).
  rewrite E in Hfr. by apply Hfr.
Qed.

(** [rewriteZip] (lines 261-327), end to end.  Whenever it returns [nil],
    the file at [path] was a zip archive and is now the archive the writer
    produced from exactly the entries the predicate keeps, in source order,
    each with the source's header fields and its content compressed anew;
    every entry left satisfies the predicate; and with [--backup] the bytes
    the file held before are in the backup. *)
Theorem rewriteZip_success (path : string) (keep : string -> bool) (w w' : World) :
  rewriteZip path keep w = (None, w') ->
  exists data zr staged,
    fs w !! path = Some (File data) /\ zip_NewReader data = Some zr /\
    Forall2 (fun e' e => restaged e = Some e') staged (kept keep zr) /\
    Forall (fun e' : zipFile => keep (Name e') = true) staged /\
    fs w' !! path = Some (File (zip_bytes staged)) /\
    (backup = true ->
     exists bak,
       (bak = path +:+ ".bak" \/ bak = path +:+ "." +:+ pretty (now w) +:+ ".bak") /\
       fs w' !! bak = Some (File data)).
Proof. apply rewriteZip_ok. Qed.

(** [scrubImage] (lines 211-248), end to end.  Whenever it returns [nil],
    the file at [path] decoded as an image and now holds that image encoded
    anew, as JPEG of quality 95 for the extensions [.jpg] and [.jpeg] and as
    PNG for [.png]: the extension picks the encoder, not the format that was
    decoded.  With [--backup] the bytes the file held before are in the
    backup. *)
Theorem scrubImage_success (path ext : string) (w w' : World) :
  scrubImage path ext w = (None, w') ->
  exists data img enc,
    fs w !! path = Some (File data) /\ image_Decode data = Some img /\
    (((ext = ".jpg" \/ ext = ".jpeg") /\ jpeg_Encode img 95 = Some enc) \/
     (ext = ".png" /\ png_Encode img = Some enc)) /\
    fs w' !! path = Some (File enc) /\
    (backup = true ->
     exists bak,
       (bak = path +:+ ".bak" \/ bak = path +:+ "." +:+ pretty (now w) +:+ ".bak") /\
       fs w' !! bak = Some (File data)).
Proof. apply scrubImage_ok. Qed.

(** [scrubFile] (lines 165-185) changes nothing and returns an error for a
    file whose lower-cased extension [isSupportedExt] does not know, and for
    every PDF: without [--with-pdf] it asks for the flag, and with it
    [scrubPDF] ends in the placeholder of lines 429-446, which always
    fails. *)
Theorem scrubFile_rejects (p : string) (w : World) :
  (isSupportedExt (lowerExt p) = false ->
     scrubFile p w = (Some (ErrorsNew ("不支持的扩展名: " +:+ lowerExt p)), w)) /\
  (lowerExt p = ".pdf" ->
     scrubFile p w = (if withPDF then scrubPDFWithPDFCPU p w
                      else (Some (ErrorsNew "检测到 PDF，请使用 --with-pdf 以启用 PDF 脱敏（需要 pdfcpu 依赖）"), w)) /\
     exists msg, scrubFile p w = (Some (ErrorsNew msg), w)).
Proof.
  unfold scrubFile.
  change (strings_ToLower (filepath_Ext IsPathSeparator p)) with (lowerExt p).
  split.
  - unfold isSupportedExt. intros Hs.
    destruct (index openXMLSet (lowerExt p)); [done|].
    destruct (index openDocSet (lowerExt p)); [done|].
    destruct (index imageSet (lowerExt p)); [done|].
    cbn in Hs. by destruct (bool_decide (lowerExt p = ".pdf")).
  - intros ->.
    change (index openXMLSet ".pdf") with false.
    change (index openDocSet ".pdf") with false.
    change (index imageSet ".pdf") with false.
    cbv iota. rewrite bool_decide_eq_true_2 by done.
    destruct withPDF; cbn [negb]; (split; [done|]); by eexists.
Qed.

(** [rewriteZip] cleans up after itself (lines 263-324): when no system call
    fails and staging still ends in an error (the file is missing or is no
    archive, the staging path is a directory, or a kept entry cannot be read
    or written), [rewriteZip] returns that error, and the file system is as
    it was, or as it was with the path [path.tmp] removed: no staging file
    is left behind. *)
Theorem stageZip_failure_cleans_up (path : string) (keep : string -> bool)
    (w w1 : World) (err : error) :
  faults w = [] ->
  stageZip path keep w = (Err err, w1) ->
  rewriteZip path keep w = (Some err, w1) /\
  (fs w1 = fs w \/ fs w1 = delete (path +:+ ".tmp") (fs w)).
Proof.
  intros Hf E. split; [|by eapply stageZip_err_nil].
  unfold rewriteZip, bind. by rewrite E.
Qed.

(** [main] before the pool (lines 66-123).  With no [--path] it prints the
    usage text and exits with status 2.  When discovery fails, whatever the
    cause, it logs the error and exits with status 1; when discovery finds
    no candidate it says so and returns.  In both cases only the streams
    have changed: no file was touched and no worker was started.  A path
    that does not exist is reported as [路径无法访问] with the error of
    [os.Stat]. *)
Theorem main_early_exits (sched : list Tid) (w : World) :
  (inputPath = "" -> main sched w = (Exited 2, set_stdout (usage :: stdout w) w)) /\
  (inputPath <> "" ->
   forall r wc, collect (toSet includeExt) (toSet excludeExt) w = (r, wc) ->
     same_but_faults w wc /\
     match r with
     | Err err => main sched w = (Exited 1, set_stderr (LogFatal err :: stderr wc) wc)
     | Ok [] => main sched w
                = (Returned, set_stdout ("没有匹配到可处理的文件。" :: stdout wc) wc)
     | Ok (_ :: _) => True
     end) /\
  (fs w !! inputPath = None ->
   fst (collect (toSet includeExt) (toSet excludeExt) w)
   = Err (Wrap "路径无法访问" (SysError "stat" inputPath))).
Proof.
  split_and!.
  - intros Hp. unfold main. by rewrite bool_decide_eq_true_2.
  - intros Hp r wc Hc. split; [by eapply collect_same|].
    destruct r as [[|f rest]|err]; [|done|];
      unfold main; rewrite bool_decide_eq_false_2 by done;
      unfold bind at 1; rewrite Hc; reflexivity.
  - intros Hn. unfold collect, bind at 1.
    pose proof (os_Stat_missing inputPath w Hn) as Hs.
    destruct (os_Stat inputPath w) as [st w1]. cbn [fst] in Hs. by subst st.
Qed.

(** A scrub of [p] changes no file but [p], [p.tmp] and the backups of [p]
    ([p.bak] and [p.<seconds>.bak]), whatever calls fail; it leaves the
    clock alone and prints nothing, on either stream. *)
Theorem scrubFile_touches_own_paths (p : string) (w : World) :
  now (snd (scrubFile p w)) = now w /\
  stdout (snd (scrubFile p w)) = stdout w /\
  stderr (snd (scrubFile p w)) = stderr w /\
  forall q, ~ ownPath p q -> fs (snd (scrubFile p w)) !! q = fs w !! q.
Proof. exact (touches_scrubFile p w). Qed.

(** Discovery (lines 78-118), whatever calls fail: every candidate it
    returns, from a walk or as the single input path, passes the include
    list, the exclude list and [isSupportedExt]; its lower-cased extension
    is one of the ten, so [scrubFile] never rejects a candidate as of an
    unsupported type. *)
Theorem candidates_are_selected (inc exc : gmap string bool) (w wc : World)
    (files : list string) :
  collect inc exc w = (Ok files, wc) ->
  Forall (fun q => selected inc exc q = true /\ lowerExt q ∈ supportedExts) files.
Proof.
  intros Hc. apply collect_selected in Hc.
  eapply Forall_impl; [exact Hc|]. intros q Hq. split; [done|].
  apply isSupportedExt_elem. unfold selected in Hq.
  by apply andb_true_iff in Hq as [_ Hq].
Qed.

(** The pool (lines 133-160) under any schedule: a path that is not a
    candidate, its staging file or one of its backups is as it was before
    the pool ran; the workers print nothing on the standard output and
    leave the clock alone. *)
Theorem pool_touches_only_candidates (files : list string) (sched : list Tid) (w : World) :
  Z.of_nat (length files) < 2 ^ 63 ->
  now (snd (run sched (startPool files) w)) = now w /\
  stdout (snd (run sched (startPool files) w)) = stdout w /\
  forall q, (forall f, f ∈ files -> ~ ownPath f q) ->
    fs (snd (run sched (startPool files) w)) !! q = fs w !! q.
Proof.
  intros Hb. destruct (run sched (startPool files) w) as [p w'] eqn:E.
  by destruct (run_effects _ _ _ _ _ _ Hb (startPool_inv files) E) as (N & O & F & _).
Qed.

(** The log of the pool (lines 144-150) is exact even where the counters
    are not: under any schedule the outcome lines written so far are, in
    order, the outcomes of the [scrubFile] calls that have returned, the
    failures always and the successes under [-v]; so the number of [FAIL]
    lines written by the pool is the number of failures. *)
Theorem pool_log_is_exact (files : list string) (sched : list Tid) (w : World) :
  Z.of_nat (length files) < 2 ^ 63 ->
  let p := fst (run sched (startPool files) w) in
  let w' := snd (run sched (startPool files) w) in
  omap outcome_of (stderr w')
  = filter (fun x => logged x = true) (scrubbed p) ++ omap outcome_of (stderr w) /\
  length (filter (fun x : string * bool => x.2 = false) (omap outcome_of (stderr w')))
  = (tally FailCount (scrubbed p)
     + length (filter (fun x : string * bool => x.2 = false) (omap outcome_of (stderr w))))%nat.
Proof.
  intros Hb. destruct (run sched (startPool files) w) as [p w'] eqn:E. cbn [fst snd].
  destruct (run_effects _ _ _ _ _ _ Hb (startPool_inv files) E)
    as (_ & _ & _ & new & Hs & Hl).
  cbn [startPool scrubbed] in Hs. rewrite app_nil_r in Hs. subst new.
  split; [done|].
  by rewrite Hl, filter_app, length_app, filter_fail_logged.
Qed.

(** The channel hands every file to one worker (lines 139-159): at every
    point of every run each candidate is in exactly one place: scrubbed
    already, held by a worker, waiting in the channel, or not yet sent.  So
    no file is scrubbed more often than it is listed, and none that is not
    listed. *)
Theorem pool_each_file_in_one_place (files : list string) (sched : list Tid) (w : World) :
  Z.of_nat (length files) < 2 ^ 63 ->
  let p := fst (run sched (startPool files) w) in
  files ≡ₚ (scrubbed p).*1 ++ concat (holds <$> ws p) ++ jobs p ++ tosend p /\
  (scrubbed p).*1 ⊆+ files /\
  (NoDup files -> NoDup (scrubbed p).*1).
Proof.
  intros Hb. destruct (run sched (startPool files) w) as [p w'] eqn:E. cbn [fst].
  pose proof (run_inv files sched _ _ _ _ Hb (startPool_inv files) E) as Hinv.
  pose proof (inv_perm _ _ Hinv) as Hperm.
  assert (Hsub : (scrubbed p).*1 ⊆+ files).
  { rewrite Hperm. by apply submseteq_inserts_r. }
  split_and!; [done | done |].
  intros Hnd. rewrite Hperm in Hnd. by apply NoDup_app in Hnd as [Hnd _].
Qed.

(** [--workers 0] (or less): no goroutine is started (line 139), so under
    any schedule no file is scrubbed, the world is as it was and both
    counters are zero; [wg.Wait()] returns at once, and [main] reports 0
    successes and 0 failures and returns as if all had gone well. *)
Theorem no_workers_nothing_scrubbed (files : list string) (sched : list Tid) (w : World) :
  workers <= 0 ->
  let p := fst (run sched (startPool files) w) in
  snd (run sched (startPool files) w) = w /\
  scrubbed p = [] /\ okCount p = 0 /\ failCount p = 0 /\
  pc (fst (run (replicate (length files + 2) TMain) (startPool files) w)) = MDone /\
  (forall w0, inputPath <> "" -> dryRun = false -> files <> [] ->
     collect (toSet includeExt) (toSet excludeExt) w0 = (Ok files, w) ->
     main (replicate (length files + 2) TMain) w0
     = (Returned, set_stdout (report 0 0 :: stdout (announced files w)) (announced files w))).
Proof.
  intros Hw.
  assert (Hws : ws (startPool files) = []).
  { cbn [startPool ws]. by replace (Z.to_nat workers) with 0%nat by lia. }
  split_and!; try by destruct (no_workers_run sched (startPool files) w Hws) as (? & ? & ? & ? & ?).
  - by apply main_alone_done.
  - intros w0 Hp Hd Hne Hc. rewrite (main_runs_pool _ _ _ _ Hp Hd Hc Hne).
    pose proof (main_alone_done files (startPool files) (announced files w) eq_refl Hws) as Hdone.
    destruct (no_workers_run (replicate (length files + 2) TMain) (startPool files)
                (announced files w) Hws) as (W & _ & _ & O & F).
    destruct (run _ (startPool files) (announced files w)) as [p w'].
    cbn [fst snd] in *. rewrite Hdone. subst w'. by rewrite O, F.
Qed.

(** [scrubFile] (lines 165-185) reports success only for a file it has
    rewritten.  Whenever it returns [nil], the lower-cased extension is in
    one of the three tables (never [.pdf]) and the file at [p] is: for
    OpenXML an archive none of whose entries lies under [docProps/], in any
    letter case; for OpenDocument an archive with no entry named
    [meta.xml], in any letter case; for an image the decoded picture encoded
    anew. *)
Theorem scrubFile_success_means_rewritten (p : string) (w w' : World) :
  scrubFile p w = (None, w') ->
  (lowerExt p ∈ [".docx"; ".xlsx"; ".pptx"] /\
   exists staged, fs w' !! p = Some (File (zip_bytes staged)) /\
     Forall (fun e : zipFile => ~ hasPrefixFold (Name e) "docProps/") staged) \/
  (lowerExt p ∈ [".odt"; ".ods"; ".odp"] /\
   exists staged, fs w' !! p = Some (File (zip_bytes staged)) /\
     Forall (fun e : zipFile => ~ eqFold (Name e) "meta.xml") staged) \/
  (lowerExt p ∈ [".jpg"; ".jpeg"; ".png"] /\
   exists data img enc,
     fs w !! p = Some (File data) /\ image_Decode data = Some img /\
     (jpeg_Encode img 95 = Some enc \/ png_Encode img = Some enc) /\
     fs w' !! p = Some (File enc)).
Proof.
  unfold scrubFile.
  change (strings_ToLower (filepath_Ext IsPathSeparator p)) with (lowerExt p).
  rewrite index_openXMLSet, index_openDocSet, index_imageSet.
  case_bool_decide as Hx.
  { intros E. left. split; [done|].
    apply rewriteZip_ok in E as (data & zr & staged & _ & _ & _ & Hk & Ho & _).
    exists staged. split; [done|].
    eapply Forall_impl; [exact Hk|]. intros e He. by apply keepOpenXML_fold. }
  case_bool_decide as Hd.
  { intros E. right. left. split; [done|].
    apply rewriteZip_ok in E as (data & zr & staged & _ & _ & _ & Hk & Ho & _).
    exists staged. split; [done|].
    eapply Forall_impl; [exact Hk|]. intros e He. by apply keepOpenDocument_fold. }
  case_bool_decide as Hi.
  { intros E. right. right. split; [done|].
    apply scrubImage_ok in E as (data & img & enc & Hdata & Hdec & Henc & Ho & _).
    exists data, img, enc. split_and!; [done | done | | done].
    destruct Henc as [[_ ?]|[_ ?]]; auto. }
  case_bool_decide; [|unfold ret; intros [=]].
  destruct withPDF; cbn [negb]; unfold scrubPDF, scrubPDFWithPDFCPU, ret; intros [=].
Qed.

(** The first backup survives (lines 331-339): with [--backup], when the
    stat of [orig.bak] is not made to fail and a file is there, that file is
    the same after the commit, however the later calls fare: the new backup
    goes to the timestamped name. *)
Theorem first_backup_is_kept (orig : string) (n : Node) (w : World) :
  backup = true -> fst (next_fault w) = None ->
  fs w !! (orig +:+ ".bak") = Some n ->
  fs (snd (replaceOriginal orig (orig +:+ ".tmp") w)) !! (orig +:+ ".bak") = Some n.
Proof.
  intros Hb Hf Hn. unfold replaceOriginal. rewrite Hb.
  destruct (next_fault w) as [f w0] eqn:En. cbn [fst] in Hf. subst f.
  apply next_fault_same in En as Hs. destruct Hs as (F0 & _).
  assert (Hbp : backupPath orig w = (orig +:+ "." +:+ pretty (now w0) +:+ ".bak", w0)).
  { unfold backupPath, bind at 1, os_Stat, bind at 1.
    rewrite En, F0, Hn. reflexivity. }
  unfold bind at 1, bind at 1. rewrite Hbp.
  set (bak := orig +:+ "." +:+ pretty (now w0) +:+ ".bak").
  assert (Hne : orig +:+ ".bak" <> bak) by (intros E; symmetry in E; by eapply stamped_ne_bak).
  unfold bind at 1. destruct (copyFile orig bak w0) as [c w1] eqn:E1.
  apply copyFile_spec in E1 as (_ & _ & _ & Hfr & _).
  assert (H1 : fs w1 !! (orig +:+ ".bak") = Some n) by (by rewrite Hfr, F0).
  destruct c as [err|]; [done|]. unfold ret at 1.
  destruct (touches_replaceLoop (fun q => q = orig \/ q = orig +:+ ".tmp") orig
              (orig +:+ ".tmp") (or_introl eq_refl) (or_intror eq_refl) w1)
    as (_ & _ & _ & Hfr2).
  rewrite Hfr2; [done|]. intros [E|E].
  - by apply app_ne_self in E.
  - symmetry in E. by apply bak_ne_tmp in E.
Qed.

(** A commit that fails (lines 330-358) never touches the staging file,
    but it can cost the original: either [orig] is as it was, or the
    fallback copy broke off after [os.Create] had emptied [orig], which then
    holds only a prefix of the staged bytes. *)
Theorem replace_failure_may_truncate_original (orig : string) (err : error) (w w' : World) :
  replaceOriginal orig (orig +:+ ".tmp") w = (Some err, w') ->
  fs w' !! (orig +:+ ".tmp") = fs w !! (orig +:+ ".tmp") /\
  (fs w' !! orig = fs w !! orig \/
   exists part, fs w' !! orig = Some (File part) /\
     forall data, fs w !! (orig +:+ ".tmp") = Some (File data) -> part `prefix_of` data).
Proof.
  set (tmp := orig +:+ ".tmp").
  assert (Htmp : tmp <> orig) by (by apply app_ne_self).
  unfold replaceOriginal. destruct backup.
  - unfold bind at 1, bind at 1.
    destruct (backupPath orig w) as [bak w1] eqn:E1.
    pose proof (backupPath_ne_orig _ _ _ _ E1) as Hbo.
    pose proof (backupPath_ne_tmp _ _ _ _ E1) as Hbt. fold tmp in Hbt.
    apply backupPath_spec in E1 as ((F1 & _) & _).
    unfold bind at 1. destruct (copyFile orig bak w1) as [c w2] eqn:E2.
    apply copyFile_spec in E2 as (_ & _ & _ & Hfr & _).
    destruct c as [e|].
    + unfold ret. intros [= _ <-]. split; [by rewrite Hfr, F1|]. left. by rewrite Hfr, F1.
    + unfold ret at 1. intros E3.
      destruct (replaceLoop_err _ _ _ _ _ Htmp E3) as [Ht Ho].
      rewrite !Hfr, !F1 in * by done. split; [done|].
      destruct Ho as [?|(part & ? & Hpre)]; [by left|right].
      exists part. split; [done|]. intros data Hd. by apply Hpre.
  - unfold bind at 1, ret at 1. intros E3. by eapply replaceLoop_err.
Qed.

End ScrubFileFacts.

(** At a sample input: the commit of a staged [a.docx] with [--backup]. *)
Lemma replaceOriginal_commit_witness :
  fs worldStaged !! ("a.docx" +:+ ".tmp") = Some (File (bytes_of "scrubbed")) /\
  replaceOriginal (flags := flagsBackup) "a.docx" ("a.docx" +:+ ".tmp") worldStaged
  = (None, snd (replaceOriginal (flags := flagsBackup) "a.docx" ("a.docx" +:+ ".tmp")
                  worldStaged)) /\
  fs (snd (replaceOriginal (flags := flagsBackup) "a.docx" ("a.docx" +:+ ".tmp") worldStaged))
    !! "a.docx" = Some (File (bytes_of "scrubbed")).
Proof.
  assert (H1 : fs worldStaged !! ("a.docx" +:+ ".tmp") = Some (File (bytes_of "scrubbed")))
    by (vm_compute; reflexivity).
  assert (H2 : replaceOriginal (flags := flagsBackup) "a.docx" ("a.docx" +:+ ".tmp") worldStaged
               = (None, snd (replaceOriginal (flags := flagsBackup) "a.docx"
                               ("a.docx" +:+ ".tmp") worldStaged)))
    by (vm_compute; reflexivity).
  split; [exact H1|]. split; [exact H2|].
  exact (proj1 (replaceOriginal_commit (flags := flagsBackup)
                  "a.docx" _ worldStaged _ H1 H2)).
Defined.

(** At a sample input: the sample document, scrubbed with [--backup]. *)
Lemma rewriteZip_success_witness :
  rewriteZip (flags := flagsBackup) (libs := sampleLibs) "report.docx" keepOpenXML worldDocx
  = (None, snd (rewriteZip (flags := flagsBackup) (libs := sampleLibs)
                  "report.docx" keepOpenXML worldDocx)) /\
  exists data zr staged,
    fs worldDocx !! "report.docx" = Some (File data) /\
    zip_NewReader (Libs := sampleLibs) data = Some zr /\
    Forall2 (fun e' e => restaged (libs := sampleLibs) e = Some e') staged (kept keepOpenXML zr) /\
    Forall (fun e' : zipFile => keepOpenXML (Name e') = true) staged.
Proof.
  assert (H1 : rewriteZip (flags := flagsBackup) (libs := sampleLibs)
                 "report.docx" keepOpenXML worldDocx
               = (None, snd (rewriteZip (flags := flagsBackup) (libs := sampleLibs)
                               "report.docx" keepOpenXML worldDocx)))
    by (vm_compute; reflexivity).
  split; [exact H1|].
  destruct (rewriteZip_success (flags := flagsBackup) (libs := sampleLibs)
              "report.docx" keepOpenXML worldDocx _ H1)
    as (data & zr & staged & Hd & Hz & HF & Hk & _).
  by exists data, zr, staged.
Defined.

(** At a sample input: a PNG, scrubbed with [--backup]. *)
Lemma scrubImage_success_witness :
  scrubImage (flags := flagsBackup) (libs := sampleLibs) "p.png" ".png" worldPng
  = (None, snd (scrubImage (flags := flagsBackup) (libs := sampleLibs)
                  "p.png" ".png" worldPng)) /\
  exists data img enc,
    fs worldPng !! "p.png" = Some (File data) /\
    image_Decode (Libs := sampleLibs) data = Some img /\
    fs (snd (scrubImage (flags := flagsBackup) (libs := sampleLibs) "p.png" ".png" worldPng))
      !! "p.png" = Some (File enc).
Proof.
  assert (H1 : scrubImage (flags := flagsBackup) (libs := sampleLibs) "p.png" ".png" worldPng
               = (None, snd (scrubImage (flags := flagsBackup) (libs := sampleLibs)
                               "p.png" ".png" worldPng)))
    by (vm_compute; reflexivity).
  split; [exact H1|].
  destruct (scrubImage_success (flags := flagsBackup) (libs := sampleLibs)
              "p.png" ".png" worldPng _ H1)
    as (data & img & enc & Hd & Hdec & _ & Ho & _).
  by exists data, img, enc.
Defined.

(** At a sample input: the archive whose entry is stored under bzip2. *)
Lemma stageZip_failure_cleans_up_witness :
  faults worldOdd = [] /\
  stageZip (libs := sampleLibs) "odd.docx" (fun _ => true) worldOdd
  = (Err (Wrap "读取条目失败 word/document.xml" ErrAlgorithm),
     snd (stageZip (libs := sampleLibs) "odd.docx" (fun _ => true) worldOdd)) /\
  (fs (snd (stageZip (libs := sampleLibs) "odd.docx" (fun _ => true) worldOdd)) = fs worldOdd \/
   fs (snd (stageZip (libs := sampleLibs) "odd.docx" (fun _ => true) worldOdd))
   = delete ("odd.docx" +:+ ".tmp") (fs worldOdd)).
Proof.
  assert (H1 : faults worldOdd = []) by reflexivity.
  assert (H2 : stageZip (libs := sampleLibs) "odd.docx" (fun _ => true) worldOdd
               = (Err (Wrap "读取条目失败 word/document.xml" ErrAlgorithm),
                  snd (stageZip (libs := sampleLibs) "odd.docx" (fun _ => true) worldOdd)))
    by (vm_compute; reflexivity).
  split; [exact H1|]. split; [exact H2|].
  exact (proj2 (stageZip_failure_cleans_up (flags := flagsBackup) (libs := sampleLibs)
                  "odd.docx" (fun _ => true) worldOdd _ _ H1 H2)).
Defined.

(** At a sample input: the sample tree with PNG excluded. *)
Lemma candidates_are_selected_witness :
  collect (flags := flagsDryRun) (libs := sampleLibs) (toSet "") (toSet "png") worldTree
  = (Ok ["docs/a.docx"; "docs/img/q.jpg"], worldTree) /\
  Forall (fun q => selected (libs := sampleLibs) (toSet "") (toSet "png") q = true /\
                   lowerExt (libs := sampleLibs) q ∈ supportedExts)
         ["docs/a.docx"; "docs/img/q.jpg"].
Proof.
  assert (H1 : collect (flags := flagsDryRun) (libs := sampleLibs)
                 (toSet "") (toSet "png") worldTree
               = (Ok ["docs/a.docx"; "docs/img/q.jpg"], worldTree))
    by (vm_compute; reflexivity).
  split; [exact H1|].
  exact (candidates_are_selected (flags := flagsDryRun) (libs := sampleLibs) _ _ _ _ _ H1).
Defined.

(** At a sample input: three candidates, two workers. *)
Lemma pool_touches_only_candidates_witness :
  Z.of_nat (length filesPool) < 2 ^ 63 /\
  stdout (snd (run (flags := flagsPool) (libs := sampleLibs) schedLostOk
                 (startPool (flags := flagsPool) filesPool) worldPool)) = stdout worldPool.
Proof.
  assert (H1 : Z.of_nat (length filesPool) < 2 ^ 63) by (vm_compute; reflexivity).
  split; [exact H1|].
  exact (proj1 (proj2 (pool_touches_only_candidates (flags := flagsPool) (libs := sampleLibs)
                         filesPool schedLostOk worldPool H1))).
Defined.

(** At a sample input: the run that loses a success still logs its one
    failure. *)
Lemma pool_log_is_exact_witness :
  Z.of_nat (length filesPool) < 2 ^ 63 /\
  omap outcome_of (stderr (snd (run (flags := flagsPool) (libs := sampleLibs) schedLostOk
                                  (startPool (flags := flagsPool) filesPool) worldPool)))
  = [("docs/c.pdf", false)].
Proof.
  assert (H1 : Z.of_nat (length filesPool) < 2 ^ 63) by (vm_compute; reflexivity).
  split; [exact H1|].
  rewrite (proj1 (pool_log_is_exact (flags := flagsPool) (libs := sampleLibs)
                    filesPool schedLostOk worldPool H1)).
  vm_compute. reflexivity.
Defined.

Lemma pool_each_file_in_one_place_witness :
  Z.of_nat (length filesPool) < 2 ^ 63 /\
  (scrubbed (fst (run (flags := flagsPool) (libs := sampleLibs) schedLostOk
                    (startPool (flags := flagsPool) filesPool) worldPool))).*1 ⊆+ filesPool.
Proof.
  assert (H1 : Z.of_nat (length filesPool) < 2 ^ 63) by (vm_compute; reflexivity).
  split; [exact H1|].
  exact (proj1 (proj2 (pool_each_file_in_one_place (flags := flagsPool) (libs := sampleLibs)
                         filesPool schedLostOk worldPool H1))).
Defined.

(** At a sample input: the three candidates and no worker. *)
Lemma no_workers_nothing_scrubbed_witness :
  workers (Flags := flagsNoWorkers) <= 0 /\
  scrubbed (fst (run (flags := flagsNoWorkers) (libs := sampleLibs) schedSerial
                   (startPool (flags := flagsNoWorkers) filesPool) worldPool)) = [].
Proof.
  assert (H1 : workers (Flags := flagsNoWorkers) <= 0) by (vm_compute; discriminate).
  split; [exact H1|].
  exact (proj1 (proj2 (no_workers_nothing_scrubbed (flags := flagsNoWorkers)
                         (libs := sampleLibs) filesPool schedSerial worldPool H1))).
Defined.

(** At a sample input: the first of the three sample candidates. *)
Lemma scrubFile_success_means_rewritten_witness :
  scrubFile (flags := flagsPool) (libs := sampleLibs) "docs/a.docx" worldPool
  = (None, snd (scrubFile (flags := flagsPool) (libs := sampleLibs) "docs/a.docx" worldPool)) /\
  lowerExt (libs := sampleLibs) "docs/a.docx" ∈ [".docx"; ".xlsx"; ".pptx"] /\
  exists staged,
    fs (snd (scrubFile (flags := flagsPool) (libs := sampleLibs) "docs/a.docx" worldPool))
      !! "docs/a.docx" = Some (File (zip_bytes (Libs := sampleLibs) staged)) /\
    Forall (fun e : zipFile => ~ hasPrefixFold (Name e) "docProps/") staged.
Proof.
  assert (H1 : scrubFile (flags := flagsPool) (libs := sampleLibs) "docs/a.docx" worldPool
               = (None, snd (scrubFile (flags := flagsPool) (libs := sampleLibs)
                               "docs/a.docx" worldPool)))
    by (vm_compute; reflexivity).
  split; [exact H1|].
  destruct (scrubFile_success_means_rewritten (flags := flagsPool) (libs := sampleLibs)
              "docs/a.docx" worldPool _ H1) as [H | [[H _] | [H _]]].
  - exact H.
  - exfalso. vm_compute in H. set_unfold. intuition discriminate.
  - exfalso. vm_compute in H. set_unfold. intuition discriminate.
Defined.

(** At a sample input: both backup names taken; [a.docx.bak] is kept. *)
Lemma first_backup_is_kept_witness :
  backup (Flags := flagsBackup) = true /\
  fst (next_fault worldTwoBackups) = None /\
  fs worldTwoBackups !! ("a.docx" +:+ ".bak") = Some (File (bytes_of "backup one")) /\
  fs (snd (replaceOriginal (flags := flagsBackup) "a.docx" ("a.docx" +:+ ".tmp")
             worldTwoBackups)) !! ("a.docx" +:+ ".bak") = Some (File (bytes_of "backup one")).
Proof.
  assert (H1 : backup (Flags := flagsBackup) = true) by reflexivity.
  assert (H2 : fst (next_fault worldTwoBackups) = None) by reflexivity.
  assert (H3 : fs worldTwoBackups !! ("a.docx" +:+ ".bak")
               = Some (File (bytes_of "backup one"))) by (vm_compute; reflexivity).
  split_and!; [exact H1 | exact H2 | exact H3 |].
  exact (first_backup_is_kept (flags := flagsBackup) "a.docx" _ worldTwoBackups H1 H2 H3).
Defined.

(** At a sample input: both renames fail and the fallback copy breaks off
    after three bytes; [a.docx] is left holding those three bytes. *)
Lemma replace_failure_may_truncate_original_witness :
  replaceOriginal (flags := flagsPool) "a.docx" ("a.docx" +:+ ".tmp") worldAllFail
  = (Some (Wrap "替换原文件失败（可能被占用）" (SysError "write" "a.docx")),
     snd (replaceOriginal (flags := flagsPool) "a.docx" ("a.docx" +:+ ".tmp") worldAllFail)) /\
  fs (snd (replaceOriginal (flags := flagsPool) "a.docx" ("a.docx" +:+ ".tmp") worldAllFail))
    !! ("a.docx" +:+ ".tmp") = fs worldAllFail !! ("a.docx" +:+ ".tmp") /\
  fs (snd (replaceOriginal (flags := flagsPool) "a.docx" ("a.docx" +:+ ".tmp") worldAllFail))
    !! "a.docx" = Some (File (bytes_of "scr")).
Proof.
  assert (H1 : replaceOriginal (flags := flagsPool) "a.docx" ("a.docx" +:+ ".tmp") worldAllFail
               = (Some (Wrap "替换原文件失败（可能被占用）" (SysError "write" "a.docx")),
                  snd (replaceOriginal (flags := flagsPool) "a.docx" ("a.docx" +:+ ".tmp")
                         worldAllFail)))
    by (vm_compute; reflexivity).
  split; [exact H1|]. split.
  - exact (proj1 (replace_failure_may_truncate_original (flags := flagsPool)
                    "a.docx" _ worldAllFail _ H1)).
  - vm_compute. reflexivity.
Defined.
